(** * Explorador de Destinos: favorites registry and theme preference

    A shallow embedding of [src/script.ts]: the favorites service
    ([createFavoritesService]) and the theme service ([createThemeService]),
    together with the two platform collaborators they are written against,
    [localStorage] and [JSON].

    Conventions of the model.
    - A JavaScript string is the list of its UTF-16 code units ([jstring]).
    - A JSON number is an exact decimal [m * 10^e]; binary64 rounding and
      range, and the exponent notation that Number::toString switches to for
      very large or very small magnitudes, are not modelled.  [Post.id] and
      [Date.now()] are integers (JSON text carries no NaN and no infinity).
      On the safe integers ([Safe.isSafeInteger]) the model reads,
      compares and prints a number as the code does; where a property
      could differ outside that range, it is stated for ids and timestamps
      within it.
    - [localStorage] is available: [getItem] does not throw, and [setItem]
      throws only when the value does not fit in what the origin may store.
    - Code that can throw returns a [completion]; state is passed explicitly.
    - A listener is an observer: calling it appends an entry to the trace and
      it may throw; it does not call back into the service. *)

From Stdlib Require Import ZArith NArith Ascii String List Lia.
From Stdlib Require Import Decimal DecimalFacts DecimalN.
From stdpp Require Import base list gmap.

Local Open Scope N_scope.

(** ** JavaScript values shared by both services *)

Module JS.

Abbreviation jchar := N.
Abbreviation jstring := (list N).

(** An ASCII string literal of the source, as code units. *)
Definition js (s : string) : jstring := map N_of_ascii (list_ascii_of_string s).

(** [is_char a c]: the code unit [c] is the ASCII character [a]. *)
Definition is_char (a : ascii) (c : jchar) : bool := N.eqb c (N_of_ascii a).

(** The double quote, U+0022. *)
Definition is_quote (c : jchar) : bool := N.eqb c 34.

Inductive exn :=
  | SyntaxError
  | TypeError
  | QuotaExceededError
  | ListenerError (listener : nat).

Inductive completion (A : Type) :=
  | Normal (a : A)
  | Throw (e : exn).
Arguments Normal {A} a.
Arguments Throw {A} e.

End JS.
Import JS.

(** ** JSON.parse and JSON.stringify *)

Module JSON.

(** Property lists keep JavaScript's own-property order. *)
#[warnings="-register-all"]
Inductive value :=
  | JNull
  | JBool (b : bool)
  | JNum (m e : Z)
  | JStr (s : jstring)
  | JArr (elems : list value)
  | JObj (props : list (jstring * value)).

(** *** Numbers *)

Definition is_digit (c : jchar) : bool := (48 <=? c) && (c <=? 57).

Definition push_digit (c : jchar) (d : uint) : uint :=
  match c - 48 with
  | 0 => D0 d | 1 => D1 d | 2 => D2 d | 3 => D3 d | 4 => D4 d
  | 5 => D5 d | 6 => D6 d | 7 => D7 d | 8 => D8 d | _ => D9 d
  end.

Fixpoint uint_chars (d : uint) : jstring :=
  match d with
  | Nil => []
  | D0 d => 48 :: uint_chars d | D1 d => 49 :: uint_chars d
  | D2 d => 50 :: uint_chars d | D3 d => 51 :: uint_chars d
  | D4 d => 52 :: uint_chars d | D5 d => 53 :: uint_chars d
  | D6 d => 54 :: uint_chars d | D7 d => 55 :: uint_chars d
  | D8 d => 56 :: uint_chars d | D9 d => 57 :: uint_chars d
  end.

(** The longest prefix of decimal digits. *)
Fixpoint scan_digits (s : jstring) : uint * jstring :=
  match s with
  | c :: r =>
      if is_digit c
      then let '(d, r') := scan_digits r in (push_digit c d, r')
      else (Nil, s)
  | [] => (Nil, [])
  end.

(** int = "0" | digit1-9 digit*  *)
Definition scan_int (s : jstring) : option (N * jstring) :=
  match s with
  | c :: r =>
      if is_char "0" c then Some (0, r)
      else if is_digit c
      then let '(d, r') := scan_digits s in Some (N.of_uint d, r')
      else None
  | [] => None
  end.

(** frac = "." digit+, optional. *)
Definition scan_frac (s : jstring) : option (uint * jstring) :=
  match s with
  | c :: r =>
      if is_char "." c
      then match scan_digits r with
           | (Nil, _) => None
           | (d, r') => Some (d, r')
           end
      else Some (Nil, s)
  | [] => Some (Nil, [])
  end.

Definition scan_exp_digits (neg : bool) (s : jstring) : option (Z * jstring) :=
  match scan_digits s with
  | (Nil, _) => None
  | (d, r) =>
      let x := Z.of_N (N.of_uint d) in
      Some (if neg then (- x)%Z else x, r)
  end.

(** exp = ("e" | "E") ("+" | "-")? digit+, optional. *)
Definition scan_exp (s : jstring) : option (Z * jstring) :=
  match s with
  | c :: r =>
      if is_char "e" c || is_char "E" c
      then match r with
           | c' :: r' =>
               if is_char "-" c' then scan_exp_digits true r'
               else if is_char "+" c' then scan_exp_digits false r'
               else scan_exp_digits false r
           | [] => None
           end
      else Some (0%Z, s)
  | [] => Some (0%Z, [])
  end.

(** Drop trailing zeros of the mantissa while the exponent is negative. *)
Fixpoint strip_zeros (k : nat) (m e : Z) : Z * Z :=
  match k with
  | O => (m, e)
  | S k' =>
      if (m mod 10 =? 0)%Z
      then strip_zeros k' (m / 10)%Z (e + 1)%Z
      else (m, e)
  end.

(** The canonical form of [m * 10^e]: an integer has exponent 0, any other
    number the largest exponent possible. *)
Definition normalize (m e : Z) : Z * Z :=
  if (0 <=? e)%Z then ((m * 10 ^ e)%Z, 0%Z)
  else strip_zeros (Z.to_nat (- e)) m e.

Definition scan_number (s : jstring) : option (Z * Z * jstring) :=
  let '(neg, s1) :=
    match s with
    | c :: r => if is_char "-" c then (true, r) else (false, s)
    | [] => (false, s)
    end in
  match scan_int s1 with
  | None => None
  | Some (ip, s2) =>
      match scan_frac s2 with
      | None => None
      | Some (fd, s3) =>
          match scan_exp s3 with
          | None => None
          | Some (x, s4) =>
              let k := Z.of_nat (nb_digits fd) in
              let a := (Z.of_N ip * 10 ^ k + Z.of_N (N.of_uint fd))%Z in
              let '(m, e) := normalize (if neg then (- a)%Z else a) (x - k)%Z in
              Some (m, e, s4)
          end
      end
  end.

Definition digits (n : N) : jstring := uint_chars (N.to_uint n).

Definition print_number (m e : Z) : jstring :=
  let sign := if (m <? 0)%Z then js "-" else [] in
  let a := Z.abs_N m in
  if (0 <=? e)%Z then sign ++ digits (a * 10 ^ Z.to_N e)
  else
    let k := Z.to_N (- e) in
    let fp := digits (a mod 10 ^ k) in
    sign ++ digits (a / 10 ^ k) ++ js "."
         ++ repeat 48 (N.to_nat k - length fp) ++ fp.

(** *** Strings *)

Definition hex_digit (d : N) : jchar := if d <? 10 then 48 + d else 87 + d.

Definition hex_val (c : jchar) : option N :=
  if (48 <=? c) && (c <=? 57) then Some (c - 48)
  else if (97 <=? c) && (c <=? 102) then Some (c - 87)
  else if (65 <=? c) && (c <=? 70) then Some (c - 55)
  else None.

(** [\uXXXX], lower-case as QuoteJSONString writes it. *)
Definition unicode_escape (c : jchar) : jstring :=
  js "\u" ++ [hex_digit (c / 4096 mod 16); hex_digit (c / 256 mod 16);
              hex_digit (c / 16 mod 16); hex_digit (c mod 16)].

Definition is_high_surrogate (c : jchar) : bool := (55296 <=? c) && (c <=? 56319).
Definition is_low_surrogate (c : jchar) : bool := (56320 <=? c) && (c <=? 57343).

Definition quote_unit (lone : bool) (c : jchar) : jstring :=
  if is_quote c then [92; 34]
  else if is_char "\" c then js "\\"
  else if c =? 8 then js "\b"
  else if c =? 9 then js "\t"
  else if c =? 10 then js "\n"
  else if c =? 12 then js "\f"
  else if c =? 13 then js "\r"
  else if (c <? 32) || lone then unicode_escape c
  else [c].

(** A surrogate is lone unless a high one is directly followed by a low one. *)
Fixpoint quote_units (prev_high : bool) (s : jstring) : jstring :=
  match s with
  | [] => []
  | c :: r =>
      let next_low := match r with d :: _ => is_low_surrogate d | [] => false end in
      let lone := (is_high_surrogate c && negb next_low)
                  || (is_low_surrogate c && negb prev_high) in
      quote_unit lone c ++ quote_units (is_high_surrogate c) r
  end.

Definition quote (s : jstring) : jstring :=
  [34] ++ quote_units false s ++ [34].

Definition unescape (c : jchar) : option jchar :=
  if is_quote c then Some c
  else if is_char "\" c then Some c
  else if is_char "/" c then Some c
  else if is_char "b" c then Some 8
  else if is_char "f" c then Some 12
  else if is_char "n" c then Some 10
  else if is_char "r" c then Some 13
  else if is_char "t" c then Some 9
  else None.

(** The characters of a string literal after its opening quote, up to and
    including the closing quote. *)
Fixpoint scan_string (s : jstring) : option (jstring * jstring) :=
  match s with
  | [] => None
  | c :: r =>
      if is_quote c then Some ([], r)
      else if is_char "\" c then
        match r with
        | [] => None
        | x :: r1 =>
            if is_char "u" x then
              match r1 with
              | h3 :: h2 :: h1 :: h0 :: r2 =>
                  match hex_val h3, hex_val h2, hex_val h1, hex_val h0 with
                  | Some a, Some b, Some c', Some d =>
                      match scan_string r2 with
                      | Some (t, r3) =>
                          Some (a * 4096 + b * 256 + c' * 16 + d :: t, r3)
                      | None => None
                      end
                  | _, _, _, _ => None
                  end
              | _ => None
              end
            else
              match unescape x with
              | Some u =>
                  match scan_string r1 with
                  | Some (t, r3) => Some (u :: t, r3)
                  | None => None
                  end
              | None => None
              end
        end
      else if c <? 32 then None
      else
        match scan_string r with
        | Some (t, r3) => Some (c :: t, r3)
        | None => None
        end
  end.

(** *** Objects *)

(** An array index is the canonical decimal form of an integer below 2^32-1;
    such keys come first, in ascending order, in an object's property order. *)
Definition array_index (k : jstring) : option N :=
  match scan_int k with
  | Some (n, []) => if n <? 4294967295 then Some n else None
  | _ => None
  end.

Definition jstring_eqb (a b : jstring) : bool := bool_decide (a = b).

Fixpoint obj_get (o : list (jstring * value)) (k : jstring) : option value :=
  match o with
  | [] => None
  | (k', v) :: o' => if jstring_eqb k' k then Some v else obj_get o' k
  end.

Fixpoint obj_replace (k : jstring) (v : value) (o : list (jstring * value)) :=
  match o with
  | [] => []
  | (k', v') :: o' =>
      if jstring_eqb k' k then (k', v) :: o' else (k', v') :: obj_replace k v o'
  end.

Fixpoint obj_insert_index (i : N) (k : jstring) (v : value)
    (o : list (jstring * value)) :=
  match o with
  | [] => [(k, v)]
  | (k', v') :: o' =>
      match array_index k' with
      | Some j => if j <? i then (k', v') :: obj_insert_index i k v o'
                  else (k, v) :: o
      | None => (k, v) :: o
      end
  end.

(** CreateDataProperty on an ordinary object. *)
Definition obj_set (o : list (jstring * value)) (k : jstring) (v : value) :=
  match obj_get o k with
  | Some _ => obj_replace k v o
  | None =>
      match array_index k with
      | Some i => obj_insert_index i k v o
      | None => o ++ [(k, v)]
      end
  end.

Definition obj_of_members (ms : list (jstring * value)) :=
  fold_left (fun o kv => obj_set o (fst kv) (snd kv)) ms [].

(** *** JSON.stringify (no replacer, no indentation) *)

Fixpoint stringify (v : value) : jstring :=
  match v with
  | JNull => js "null"
  | JBool true => js "true"
  | JBool false => js "false"
  | JNum m e => print_number m e
  | JStr s => quote s
  | JArr elems =>
      js "[" ++
      (fix go (l : list value) : jstring :=
         match l with
         | [] => []
         | [x] => stringify x
         | x :: r => stringify x ++ js "," ++ go r
         end) elems ++ js "]"
  | JObj props =>
      js "{" ++
      (fix go (l : list (jstring * value)) : jstring :=
         match l with
         | [] => []
         | [(k, x)] => quote k ++ js ":" ++ stringify x
         | (k, x) :: r => quote k ++ js ":" ++ stringify x ++ js "," ++ go r
         end) props ++ js "}"
  end.

(** *** JSON.parse *)

Definition is_ws (c : jchar) : bool :=
  (c =? 32) || (c =? 9) || (c =? 10) || (c =? 13).

Fixpoint skip_ws (s : jstring) : jstring :=
  match s with
  | c :: r => if is_ws c then skip_ws r else s
  | [] => []
  end.

Fixpoint strip_prefix (p s : jstring) : option jstring :=
  match p, s with
  | [], _ => Some s
  | a :: p', b :: s' => if a =? b then strip_prefix p' s' else None
  | _ :: _, [] => None
  end.

Inductive presult (A : Type) :=
  | POk (a : A) (rest : jstring)
  | PError
  | PFuel.
Arguments POk {A} a rest.
Arguments PError {A}.
Arguments PFuel {A}.

Definition literal (word : string) (v : value) (s : jstring) : presult value :=
  match strip_prefix (js word) s with
  | Some r => POk v r
  | None => PError
  end.

(** Recursive descent; every call spends one unit of [fuel]. *)
Fixpoint parse_value (fuel : nat) (s : jstring) : presult value :=
  match fuel with
  | O => PFuel
  | S fuel' =>
      match skip_ws s with
      | [] => PError
      | c :: r =>
          if is_char "{" c then
            match skip_ws r with
            | c' :: r' =>
                if is_char "}" c' then POk (JObj []) r'
                else
                  match parse_members fuel' r with
                  | POk ms r'' => POk (JObj (obj_of_members ms)) r''
                  | PError => PError
                  | PFuel => PFuel
                  end
            | [] => PError
            end
          else if is_char "[" c then
            match skip_ws r with
            | c' :: r' =>
                if is_char "]" c' then POk (JArr []) r'
                else
                  match parse_elements fuel' r with
                  | POk vs r'' => POk (JArr vs) r''
                  | PError => PError
                  | PFuel => PFuel
                  end
            | [] => PError
            end
          else if is_quote c then
            match scan_string r with
            | Some (t, r') => POk (JStr t) r'
            | None => PError
            end
          else if is_char "t" c then literal "true" (JBool true) (c :: r)
          else if is_char "f" c then literal "false" (JBool false) (c :: r)
          else if is_char "n" c then literal "null" JNull (c :: r)
          else
            match scan_number (c :: r) with
            | Some (m, e, r') => POk (JNum m e) r'
            | None => PError
            end
      end
  end

with parse_elements (fuel : nat) (s : jstring) : presult (list value) :=
  match fuel with
  | O => PFuel
  | S fuel' =>
      match parse_value fuel' s with
      | POk v r =>
          match skip_ws r with
          | c :: r' =>
              if is_char "," c then
                match parse_elements fuel' r' with
                | POk vs r'' => POk (v :: vs) r''
                | PError => PError
                | PFuel => PFuel
                end
              else if is_char "]" c then POk [v] r'
              else PError
          | [] => PError
          end
      | PError => PError
      | PFuel => PFuel
      end
  end

with parse_members (fuel : nat) (s : jstring) : presult (list (jstring * value)) :=
  match fuel with
  | O => PFuel
  | S fuel' =>
      match skip_ws s with
      | q :: r0 =>
          if is_quote q then
            match scan_string r0 with
            | Some (k, r1) =>
                match skip_ws r1 with
                | c1 :: r2 =>
                    if is_char ":" c1 then
                      match parse_value fuel' r2 with
                      | POk v r =>
                          match skip_ws r with
                          | c :: r' =>
                              if is_char "," c then
                                match parse_members fuel' r' with
                                | POk ms r'' => POk ((k, v) :: ms) r''
                                | PError => PError
                                | PFuel => PFuel
                                end
                              else if is_char "}" c then POk [(k, v)] r'
                              else PError
                          | [] => PError
                          end
                      | PError => PError
                      | PFuel => PFuel
                      end
                    else PError
                | [] => PError
                end
            | None => PError
            end
          else PError
      | [] => PError
      end
  end.

(** One unit of fuel per call; two calls per character consumed at most. *)
Definition parse_fuel (s : jstring) : nat := S (2 * length s).

(** [JSON.parse]: a value followed by white space only.  The fuel is
    enough for every text ([ParseFuel.parse_value_total]), so [PFuel] does
    not occur here. *)
Definition parse (s : jstring) : completion value :=
  match parse_value (parse_fuel s) s with
  | POk v r =>
      match skip_ws r with
      | [] => Normal v
      | _ :: _ => Throw SyntaxError
      end
  | PError => Throw SyntaxError
  | PFuel => Throw SyntaxError
  end.

(** *** Notions used to state the parser's properties *)

(** The text after a number: not a digit, and not the start of a fraction
    or of an exponent. *)
Definition number_stop (rest : jstring) : Prop :=
  match rest with
  | [] => True
  | c :: _ =>
      is_digit c = false /\ is_char "." c = false
      /\ is_char "e" c = false /\ is_char "E" c = false
  end.

(** [scan_string] after one more character [c] of the string. *)
Definition scan_cons (c : jchar) (t : jstring) : option (jstring * jstring) :=
  match scan_string t with
  | Some (u, r) => Some (c :: u, r)
  | None => None
  end.

(** A parser's outcome is sound for the input [s] when it did not run out
    of fuel and, on success, consumed something. *)
Definition consumes {A : Type} (s : jstring) (r : presult A) : Prop :=
  match r with
  | POk _ rest => (length rest < length s)%nat
  | PError => True
  | PFuel => False
  end.

End JSON.

(** ** localStorage *)

Module LocalStorage.

(** The origin's storage area: its items, and how many code units of keys and
    values it may hold. *)
Record Storage := {
  items : gmap jstring jstring;
  quota : nat
}.

Definition used (m : gmap jstring jstring) : nat :=
  map_fold (fun k v n => (length k + length v + n)%nat) 0%nat m.

Definition getItem (k : jstring) (st : Storage) : option jstring :=
  items st !! k.

(** There is room for [v] under the key [k]. *)
Definition fits (k v : jstring) (st : Storage) : Prop :=
  (used (<[k := v]> (items st)) <= quota st)%nat.

#[global] Instance fits_dec k v st : Decision (fits k v st).
Proof. unfold fits. apply _. Defined.

(** [setItem] throws when the new items would not fit. *)
Definition setItem (k v : jstring) (st : Storage) : completion Storage :=
  if decide (fits k v st)
  then Normal {| items := <[k := v]> (items st); quota := quota st |}
  else Throw QuotaExceededError.

End LocalStorage.
Import LocalStorage.

(** ** interface Post, interface Favorite *)

Module Post.
Record t := {
  userId : Z;
  id : Z;
  title : jstring;
  body : jstring
}.
End Post.

Module Favorite.
Record t := {
  id : Z;
  title : jstring;
  timestamp : Z
}.

(** The object literal [{ id, title, timestamp }]. *)
Definition to_json (f : t) : JSON.value :=
  JSON.JObj [(js "id", JSON.JNum (id f) 0);
             (js "title", JSON.JStr (title f));
             (js "timestamp", JSON.JNum (timestamp f) 0)].

(** A [Favorite[]] as the array the code holds. *)
Definition array (l : list t) : JSON.value := JSON.JArr (map to_json l).
End Favorite.

(** ** Number.isSafeInteger

    The integers that a JavaScript number holds exactly, every integer
    between them being held exactly too: [JSON.parse] reads their numerals
    without rounding and [JSON.stringify], [toString] and template literals
    print all their digits. *)

Module Safe.

Definition MAX_SAFE_INTEGER : Z := 9007199254740991.

Definition isSafeInteger (z : Z) : bool :=
  (- MAX_SAFE_INTEGER <=? z)%Z && (z <=? MAX_SAFE_INTEGER)%Z.

(** The numbers of a post that the services use, of a favorite, and of a
    collection. *)
Definition post (p : Post.t) : bool := isSafeInteger (Post.id p).

Definition favorite (f : Favorite.t) : bool :=
  isSafeInteger (Favorite.id f) && isSafeInteger (Favorite.timestamp f).

Definition favorites (l : list Favorite.t) : bool := forallb favorite l.

End Safe.

Definition STORAGE_KEY : jstring := js "explorador-favoritos".
Definition THEME_KEY : jstring := js "explorador-tema".

(** ** createFavoritesService *)

Module Favorites.

Record Listener := {
  lid : nat;
  throws : JSON.value -> bool
}.

Inductive event :=
  | Called (listener : nat) (favorites : JSON.value)
  | ConsoleError (message : jstring).

Record World := {
  localStorage : Storage;
  listeners : list Listener;
  trace : list event
}.

Definition console_error (message : string) (w : World) : World :=
  {| localStorage := localStorage w;
     listeners := listeners w;
     trace := trace w ++ [ConsoleError (js message)] |}.

(** [listeners.forEach(listener => listener(favorites))]: in insertion
    order, stopping at the first listener that throws. *)
Fixpoint forEach (ls : list Listener) (favorites : JSON.value)
    (tr : list event) : list event * option exn :=
  match ls with
  | [] => (tr, None)
  | l :: ls' =>
      let tr' := tr ++ [Called (lid l) favorites] in
      if throws l favorites then (tr', Some (ListenerError (lid l)))
      else forEach ls' favorites tr'
  end.

(** [fav.id]: reading a property of [null] throws; a primitive, an array or
    an object without the key gives [undefined]. *)
Definition prop_id (fav : JSON.value) : completion (option JSON.value) :=
  match fav with
  | JSON.JNull => Throw TypeError
  | JSON.JObj props => Normal (JSON.obj_get props (js "id"))
  | _ => Normal None
  end.

(** [x === n] for a number [n]. *)
Definition strict_equals (x : option JSON.value) (n : Z) : bool :=
  match x with
  | Some (JSON.JNum m e) =>
      let '(m', e') := JSON.normalize m e in (m' =? n)%Z && (e' =? 0)%Z
  | _ => false
  end.

(** [Array.prototype.some] with a callback that may throw. *)
Fixpoint Array_some (cb : JSON.value -> completion bool)
    (l : list JSON.value) : completion bool :=
  match l with
  | [] => Normal false
  | x :: r =>
      match cb x with
      | Normal true => Normal true
      | Normal false => Array_some cb r
      | Throw e => Throw e
      end
  end.

(** [Array.prototype.filter] with a callback that may throw. *)
Fixpoint Array_filter (cb : JSON.value -> completion bool)
    (l : list JSON.value) : completion (list JSON.value) :=
  match l with
  | [] => Normal []
  | x :: r =>
      match cb x with
      | Normal keep =>
          match Array_filter cb r with
          | Normal r' => Normal (if keep then x :: r' else r')
          | Throw e => Throw e
          end
      | Throw e => Throw e
      end
  end.

(** [{ id: post.id, title: post.title, timestamp: Date.now() }] *)
Definition newFavorite (post : Post.t) (now : Z) : Favorite.t :=
  {| Favorite.id := Post.id post;
     Favorite.title := Post.title post;
     Favorite.timestamp := now |}.

(** The listener calls recorded in a trace, oldest first. *)
Fixpoint calls (tr : list event) : list (nat * JSON.value) :=
  match tr with
  | [] => []
  | Called l v :: tr' => (l, v) :: calls tr'
  | ConsoleError _ :: tr' => calls tr'
  end.

Section Service.

Variable storageKey : jstring.

(** [stored ? JSON.parse(stored) : []] inside [try]: the empty string is
    falsy, a parse error is logged and gives [[]].  The declared result type
    [Favorite[]] is not checked at run time: the result is whatever
    [JSON.parse] returns. *)
Definition getFavorites (w : World) : JSON.value * World :=
  match getItem storageKey (localStorage w) with
  | Some (c :: s) =>
      match JSON.parse (c :: s) with
      | Normal v => (v, w)
      | Throw _ => (JSON.JArr [], console_error "Erro ao ler favoritos:" w)
      end
  | Some [] => (JSON.JArr [], w)
  | None => (JSON.JArr [], w)
  end.

(** [setItem] and then [listeners.forEach], both inside one [try]: whatever
    throws first ends the block and is logged. *)
Definition writeFavorites (favorites : JSON.value) (w : World) : World :=
  match setItem storageKey (JSON.stringify favorites) (localStorage w) with
  | Normal st =>
      match forEach (listeners w) favorites (trace w) with
      | (tr, None) =>
          {| localStorage := st; listeners := listeners w; trace := tr |}
      | (tr, Some _) =>
          console_error "Erro ao salvar favoritos:"
            {| localStorage := st; listeners := listeners w; trace := tr |}
      end
  | Throw _ => console_error "Erro ao salvar favoritos:" w
  end.

(** [now] is what [Date.now()] returns.  Outside a [try]: calling [some]
    on what is not an array, or reading [id] of [null], throws to the
    caller. *)
Definition addFavorite (post : Post.t) (now : Z) (w : World)
    : completion bool * World :=
  let '(favorites, w1) := getFavorites w in
  match favorites with
  | JSON.JArr elems =>
      let alreadyExists :=
        Array_some
          (fun fav =>
             match prop_id fav with
             | Normal x => Normal (strict_equals x (Post.id post))
             | Throw e => Throw e
             end) elems in
      match alreadyExists with
      | Normal true => (Normal false, w1)
      | Normal false =>
          (Normal true,
           writeFavorites
             (JSON.JArr (Favorite.to_json (newFavorite post now) :: elems)) w1)
      | Throw e => (Throw e, w1)
      end
  | _ => (Throw TypeError, w1)
  end.

Definition removeFavorite (id : Z) (w : World) : completion unit * World :=
  let '(favorites, w1) := getFavorites w in
  match favorites with
  | JSON.JArr elems =>
      let filtered :=
        Array_filter
          (fun fav =>
             match prop_id fav with
             | Normal x => Normal (negb (strict_equals x id))
             | Throw e => Throw e
             end) elems in
      match filtered with
      | Normal l => (Normal tt, writeFavorites (JSON.JArr l) w1)
      | Throw e => (Throw e, w1)
      end
  | _ => (Throw TypeError, w1)
  end.

Definition clearAllFavorites (w : World) : World :=
  writeFavorites (JSON.JArr []) w.

(** The stored collection is [l]: that is what [getFavorites] returns. *)
Definition holds (w : World) (l : list Favorite.t) : Prop :=
  fst (getFavorites w) = Favorite.array l.

(** [listeners.add(listener)]: a Set keeps one copy, in insertion order. *)
Definition onChange (listener : Listener) (w : World) : World :=
  if bool_decide (lid listener ∈ map lid (listeners w)) then w
  else {| localStorage := localStorage w;
          listeners := listeners w ++ [listener];
          trace := trace w |}.

(** The function [onChange] returns: [listeners.delete(listener)]. *)
Definition unsubscribe (listener : Listener) (w : World) : World :=
  {| localStorage := localStorage w;
     listeners :=
       filter (fun l => lid l <> lid listener) (listeners w);
     trace := trace w |}.

(** The calls a client can make on the service. *)
Inductive op :=
  | AddFavorite (post : Post.t) (now : Z)
  | RemoveFavorite (id : Z)
  | ClearAllFavorites
  | OnChange (listener : Listener)
  | Unsubscribe (listener : Listener).

(** One call; [None] when it throws to the caller. *)
Definition step (o : op) (w : World) : option World :=
  match o with
  | AddFavorite post now =>
      match addFavorite post now w with
      | (Normal _, w') => Some w'
      | (Throw _, _) => None
      end
  | RemoveFavorite id =>
      match removeFavorite id w with
      | (Normal _, w') => Some w'
      | (Throw _, _) => None
      end
  | ClearAllFavorites => Some (clearAllFavorites w)
  | OnChange l => Some (onChange l w)
  | Unsubscribe l => Some (unsubscribe l w)
  end.

Fixpoint run (ops : list op) (w : World) : option World :=
  match ops with
  | [] => Some w
  | o :: ops' =>
      match step o w with
      | Some w' => run ops' w'
      | None => None
      end
  end.

End Service.

(** *** Notions used to state the service's properties *)

(** A sequence of addFavorite calls, each with the time it is made at. *)
Definition addAll (posts : list (Post.t * Z)) : list op :=
  map (fun c => AddFavorite (fst c) (snd c)) posts.

(** The favorites those calls create, the last one first. *)
Definition added (posts : list (Post.t * Z)) : list Favorite.t :=
  rev (map (fun c => newFavorite (fst c) (snd c)) posts).

(** The entries [removeFavorite id] keeps. *)
Definition keep (id : Z) (l : list Favorite.t) : list Favorite.t :=
  List.filter (fun f => negb (Favorite.id f =? id)%Z) l.

(** What a call whose write is rejected leaves behind: the storage and the
    listeners as they were, no listener called, the error on the console. *)
Definition write_failed (w w' : World) : Prop :=
  localStorage w' = localStorage w
  /\ listeners w' = listeners w
  /\ calls (trace w') = calls (trace w)
  /\ last (trace w') = Some (ConsoleError (js "Erro ao salvar favoritos:")).

End Favorites.

(** ** createThemeService *)

Module ThemeService.

Inductive Theme := light | dark.

Definition theme_string (t : Theme) : jstring :=
  match t with
  | light => js "light"
  | dark => js "dark"
  end.

Record Listener := {
  lid : nat;
  throws : Theme -> bool
}.

Inductive event :=
  | Called (listener : nat) (theme : Theme).

(** [matchMedia] is [None] where [window.matchMedia] is undefined, and
    otherwise the [matches] of the query (prefers-color-scheme: dark). *)
Record World := {
  localStorage : Storage;
  matchMedia : option bool;
  currentTheme : Theme;
  dataTheme : option Theme;
  listeners : list Listener;
  trace : list event
}.

Definition set_currentTheme (theme : Theme) (w : World) : World :=
  {| localStorage := localStorage w; matchMedia := matchMedia w;
     currentTheme := theme; dataTheme := dataTheme w;
     listeners := listeners w; trace := trace w |}.

Definition set_localStorage (st : Storage) (w : World) : World :=
  {| localStorage := st; matchMedia := matchMedia w;
     currentTheme := currentTheme w; dataTheme := dataTheme w;
     listeners := listeners w; trace := trace w |}.

Definition set_trace (tr : list event) (w : World) : World :=
  {| localStorage := localStorage w; matchMedia := matchMedia w;
     currentTheme := currentTheme w; dataTheme := dataTheme w;
     listeners := listeners w; trace := tr |}.

(** [listeners.forEach(listener => listener(theme))] *)
Fixpoint forEach (ls : list Listener) (theme : Theme) (tr : list event)
    : list event * option exn :=
  match ls with
  | [] => (tr, None)
  | l :: ls' =>
      let tr' := tr ++ [Called (lid l) theme] in
      if throws l theme then (tr', Some (ListenerError (lid l)))
      else forEach ls' theme tr'
  end.

(** [window.matchMedia?.('(prefers-color-scheme: dark)').matches ? 'dark'
    : 'light']: without [matchMedia] the chain is [undefined], which is
    falsy. *)
Definition getSystemTheme (mm : option bool) : Theme :=
  match mm with
  | Some true => dark
  | Some false => light
  | None => light
  end.

Section Service.

Variable themeKey : jstring.

(** [savedTheme === 'dark' || savedTheme === 'light' ? savedTheme : null] *)
Definition getSavedTheme (st : Storage) : option Theme :=
  match getItem themeKey st with
  | Some savedTheme =>
      if JSON.jstring_eqb savedTheme (js "dark") then Some dark
      else if JSON.jstring_eqb savedTheme (js "light") then Some light
      else None
  | None => None
  end.

(** [getSavedTheme() ?? getSystemTheme()] *)
Definition initialTheme (st : Storage) (mm : option bool) : Theme :=
  match getSavedTheme st with
  | Some t => t
  | None => getSystemTheme mm
  end.

(** [document.documentElement.setAttribute('data-theme', theme)] *)
Definition applyTheme (theme : Theme) (w : World) : World :=
  {| localStorage := localStorage w; matchMedia := matchMedia w;
     currentTheme := currentTheme w; dataTheme := Some theme;
     listeners := listeners w; trace := trace w |}.

(** The service as [createThemeService] leaves it: the theme resolved and
    applied, no listener yet. *)
Definition create (st : Storage) (mm : option bool) : World :=
  applyTheme (initialTheme st mm)
    {| localStorage := st;
       matchMedia := mm;
       currentTheme := initialTheme st mm;
       dataTheme := None;
       listeners := [];
       trace := [] |}.

(** The assignment to [currentTheme] comes first; [setItem] and the
    listeners, which can throw, come after it. *)
Definition setTheme (theme : Theme) (w : World) : completion unit * World :=
  let w1 := set_currentTheme theme w in
  match setItem themeKey (theme_string theme) (localStorage w1) with
  | Throw e => (Throw e, w1)
  | Normal st =>
      let w2 := applyTheme theme (set_localStorage st w1) in
      match forEach (listeners w2) theme (trace w2) with
      | (tr, None) => (Normal tt, set_trace tr w2)
      | (tr, Some e) => (Throw e, set_trace tr w2)
      end
  end.

(** [setTheme(currentTheme === 'dark' ? 'light' : 'dark')] *)
Definition toggleTheme (w : World) : completion unit * World :=
  setTheme (match currentTheme w with dark => light | light => dark end) w.

Definition getCurrent (w : World) : Theme := currentTheme w.

(** The handler of the media query's [change] event:
    [if (!getSavedTheme()) setTheme(getSystemTheme())]. *)
Definition onSystemChange (w : World) : completion unit * World :=
  match getSavedTheme (localStorage w) with
  | None => setTheme (getSystemTheme (matchMedia w)) w
  | Some _ => (Normal tt, w)
  end.

End Service.

End ThemeService.

(** ** Posts and worlds used as examples *)

Module Examples.
Import Favorites.

Definition tokyo : Post.t :=
  {| Post.userId := 1; Post.id := 7; Post.title := js "Tokyo";
     Post.body := js "" |}.

Definition paris : Post.t :=
  {| Post.userId := 1; Post.id := 42; Post.title := js "Paris";
     Post.body := js "" |}.

(** A listener that returns normally, and one that throws. *)
Definition observer (n : nat) : Listener :=
  {| lid := n; throws := fun _ => false |}.
Definition faulty (n : nat) : Listener :=
  {| lid := n; throws := fun _ => true |}.

(** A fresh origin with room for [q] code units, and a service on it.
    With [q = 0] every [setItem] throws, as where storage is disabled or
    full. *)
Definition store (q : nat) : Storage := {| items := ∅; quota := q |}.
Definition world (q : nat) (ls : list Listener) : World :=
  {| localStorage := store q; listeners := ls; trace := [] |}.

(** The same, with [text] already under the favorites key. *)
Definition world_with (text : string) (q : nat) : World :=
  {| localStorage := {| items := {[ STORAGE_KEY := js text ]}; quota := q |};
     listeners := [];
     trace := [] |}.

(** Tokyo saved at time 100, Paris at time 200. *)
Definition two_saved : World :=
  snd (addFavorite STORAGE_KEY paris 200
         (snd (addFavorite STORAGE_KEY tokyo 100 (world 1000 [observer 1])))).

End Examples.

(** ** The theme service: the event the system sends *)

Module ThemeEvents.
Import ThemeService.

Definition set_matchMedia (mm : option bool) (w : World) : World :=
  {| localStorage := localStorage w; matchMedia := mm;
     currentTheme := currentTheme w; dataTheme := dataTheme w;
     listeners := listeners w; trace := trace w |}.

(** The system preference changes, to dark when [prefersDark], and the
    media query's [change] event reaches the handler that
    [createThemeService] registered. *)
Definition systemChange (themeKey : jstring) (prefersDark : bool) (w : World)
    : completion unit * World :=
  onSystemChange themeKey (set_matchMedia (Some prefersDark) w).

End ThemeEvents.

(** ** createNotificationService *)

Module Notifications.

(** A callback that [show] has handed to [setTimeout] and that has not
    run yet. Time itself is not modelled: a pending timer can fire at any
    moment. *)
Inductive timer :=
  | FadeOut (notification : nat) (delay : Z)
  | Remove (notification : nat) (delay : Z).

#[global] Instance timer_eq_dec : EqDecision timer.
Proof. solve_decision. Defined.

(** A [div.notification]; a div is named by its index among those created. *)
Record element := {
  textContent : jstring;
  fade_out : bool
}.

(** [body] lists the notifications attached to [document.body]. *)
Record State := {
  currentNotification : option nat;
  elements : list element;
  body : list nat;
  timers : list timer
}.

Definition create : State :=
  {| currentNotification := None; elements := []; body := []; timers := [] |}.

(** [notification.remove()] *)
Definition detach (n : nat) (children : list nat) : list nat :=
  List.filter (fun m => negb (Nat.eqb m n)) children.

Definition show (message : jstring) (timeout : Z) (s : State) : State :=
  let body1 :=
    match currentNotification s with
    | Some c => detach c (body s)
    | None => body s
    end in
  let notification := length (elements s) in
  {| currentNotification := Some notification;
     elements := elements s ++ [{| textContent := message; fade_out := false |}];
     body := body1 ++ [notification];
     timers := timers s ++ [FadeOut notification timeout] |}.

(** The outer callback: [classList.add('fade-out')] and the second timer. *)
Definition fadeOut (notification : nat) (s : State) : State :=
  {| currentNotification := currentNotification s;
     elements :=
       alter (fun e => {| textContent := textContent e; fade_out := true |})
         notification (elements s);
     body := body s;
     timers := timers s ++ [Remove notification 300] |}.

(** The inner callback. *)
Definition remove (notification : nat) (s : State) : State :=
  {| currentNotification :=
       if decide (currentNotification s = Some notification) then None
       else currentNotification s;
     elements := elements s;
     body := detach notification (body s);
     timers := timers s |}.

Fixpoint cancel_timer (t : timer) (ts : list timer) : list timer :=
  match ts with
  | [] => []
  | t' :: ts' => if decide (t' = t) then ts' else t' :: cancel_timer t ts'
  end.

(** A pending timer fires; [None] when it is not pending. *)
Definition fire (t : timer) (s : State) : option State :=
  if decide (t ∈ timers s) then
    let s1 :=
      {| currentNotification := currentNotification s;
         elements := elements s;
         body := body s;
         timers := cancel_timer t (timers s) |} in
    Some match t with
         | FadeOut n _ => fadeOut n s1
         | Remove n _ => remove n s1
         end
  else None.

Inductive input :=
  | Show (message : jstring) (timeout : Z)
  | Fire (t : timer).

Definition step (i : input) (s : State) : option State :=
  match i with
  | Show message timeout => Some (show message timeout s)
  | Fire t => fire t s
  end.

Fixpoint run (inputs : list input) (s : State) : option State :=
  match inputs with
  | [] => Some s
  | i :: inputs' =>
      match step i s with
      | Some s' => run inputs' s'
      | None => None
      end
  end.

(** The message of the last [show] among [inputs], [m] if there is none. *)
Fixpoint last_shown (m : option jstring) (inputs : list input) : option jstring :=
  match inputs with
  | [] => m
  | Show message _ :: inputs' => last_shown (Some message) inputs'
  | Fire _ :: inputs' => last_shown m inputs'
  end.

(** What every state that can be reached satisfies, [m] being the message
    of the last [show]: the notification attached is the current one, it is
    the last one created, and one of its timers is pending. *)
Definition toast_invariant (m : option jstring) (s : State) : Prop :=
  body s = match currentNotification s with Some c => [c] | None => [] end
  /\ forall c, currentNotification s = Some c ->
       S c = length (elements s)
       /\ (exists e, elements s !! c = Some e /\ Some (textContent e) = m)
       /\ ((exists d, In (FadeOut c d) (timers s))
           \/ exists d, In (Remove c d) (timers s)).

End Notifications.

(** ** createApiService *)

Module Api.

(** Where a call of [fetchRandomPost] is suspended. *)
Inductive phase :=
  | AwaitingResponse   (* at [await fetch(...)] *)
  | AwaitingBody.      (* at [await response.json()] *)

#[global] Instance phase_eq_dec : EqDecision phase.
Proof. solve_decision. Defined.

(** What the network gives a request that has not been aborted: no
    response at all, or a response with its [ok] and [status]. *)
Inductive response :=
  | NetworkError
  | Status (ok : bool) (status : N).

(** What [response.json()] gives on a body that has not been aborted: the
    post, or a rejection when the body is not JSON. A body that is JSON
    without being a [Post] is not modelled. *)
Inductive body :=
  | Json (post : Post.t)
  | NotJson.

Record PostListener := {
  lid : nat;
  throws : Post.t -> bool
}.

Record ErrorListener := {
  elid : nat;
  ethrows : jstring -> bool
}.

Inductive event :=
  | PostCalled (listener : nat) (post : Post.t)
  | ErrorCalled (listener : nat) (message : jstring)
  | Rejected (listener : nat).

(** An AbortController is named by its number of creation; a suspended
    call is named by the controller whose signal its request carries.
    [aborted] lists the controllers whose [abort()] has been called. *)
Record State := {
  controller : option nat;
  controllers : nat;
  aborted : list nat;
  running : list (nat * phase);
  postFetchedListeners : list PostListener;
  errorListeners : list ErrorListener;
  trace : list event
}.

Definition create (posts : list PostListener) (errors : list ErrorListener)
    : State :=
  {| controller := None; controllers := 0; aborted := []; running := [];
     postFetchedListeners := posts; errorListeners := errors; trace := [] |}.

Definition set_trace (tr : list event) (s : State) : State :=
  {| controller := controller s; controllers := controllers s;
     aborted := aborted s; running := running s;
     postFetchedListeners := postFetchedListeners s;
     errorListeners := errorListeners s; trace := tr |}.

Definition set_running (r : list (nat * phase)) (s : State) : State :=
  {| controller := controller s; controllers := controllers s;
     aborted := aborted s; running := r;
     postFetchedListeners := postFetchedListeners s;
     errorListeners := errorListeners s; trace := trace s |}.

(** [controller.abort()] *)
Definition abort (c : nat) (s : State) : State :=
  {| controller := controller s; controllers := controllers s;
     aborted := c :: aborted s; running := running s;
     postFetchedListeners := postFetchedListeners s;
     errorListeners := errorListeners s; trace := trace s |}.

(** [postFetchedListeners.forEach(listener => listener(post))] *)
Fixpoint forEachPost (ls : list PostListener) (post : Post.t)
    (tr : list event) : list event * option exn :=
  match ls with
  | [] => (tr, None)
  | l :: ls' =>
      let tr' := tr ++ [PostCalled (lid l) post] in
      if throws l post then (tr', Some (ListenerError (lid l)))
      else forEachPost ls' post tr'
  end.

(** [errorListeners.forEach(listener => listener(message, error))] *)
Fixpoint forEachError (ls : list ErrorListener) (message : jstring)
    (tr : list event) : list event :=
  match ls with
  | [] => tr
  | l :: ls' =>
      let tr' := tr ++ [ErrorCalled (elid l) message] in
      if ethrows l message then tr' ++ [Rejected (elid l)]
      else forEachError ls' message tr'
  end.

(** The [catch] block on an error that is not an AbortError. An error
    listener that throws here makes the promise of the call reject. *)
Definition emitError (s : State) : State :=
  set_trace
    (forEachError (errorListeners s) (js "Erro ao buscar postagem") (trace s)) s.

(** [emitPost(post)] inside the [try]: what a listener throws is caught
    like any other error. Listeners are taken not to throw an error named
    AbortError, which the [catch] would take for an aborted request. *)
Definition emitPost (post : Post.t) (s : State) : State :=
  match forEachPost (postFetchedListeners s) post (trace s) with
  | (tr, None) => set_trace tr s
  | (tr, Some _) => emitError (set_trace tr s)
  end.

(** The call up to its first [await]: the former controller is aborted, a
    new one is made and the request leaves with its signal. *)
Definition fetchRandomPost (s : State) : State :=
  let s1 :=
    match controller s with
    | Some c => abort c s
    | None => s
    end in
  {| controller := Some (controllers s1);
     controllers := S (controllers s1);
     aborted := aborted s1;
     running := running s1 ++ [(controllers s1, AwaitingResponse)];
     postFetchedListeners := postFetchedListeners s1;
     errorListeners := errorListeners s1;
     trace := trace s1 |}.

(** [controller?.abort()] *)
Definition cancel (s : State) : State :=
  match controller s with
  | Some c => abort c s
  | None => s
  end.

Fixpoint resume (c : nat * phase) (r : list (nat * phase)) :=
  match r with
  | [] => []
  | c' :: r' => if decide (c' = c) then r' else c' :: resume c r'
  end.

(** The promise of [fetch] settles for the call [n]. With the signal
    aborted it rejects with an AbortError and the call returns. *)
Definition settleResponse (n : nat) (r : response) (s : State) : option State :=
  if decide ((n, AwaitingResponse) ∈ running s) then
    let s1 := set_running (resume (n, AwaitingResponse) (running s)) s in
    if decide (n ∈ aborted s) then Some s1
    else
      match r with
      | Status true _ => Some (set_running (running s1 ++ [(n, AwaitingBody)]) s1)
      | Status false _ => Some (emitError s1)
      | NetworkError => Some (emitError s1)
      end
  else None.

(** The promise of [response.json()] settles for the call [n]. *)
Definition settleBody (n : nat) (b : body) (s : State) : option State :=
  if decide ((n, AwaitingBody) ∈ running s) then
    let s1 := set_running (resume (n, AwaitingBody) (running s)) s in
    if decide (n ∈ aborted s) then Some s1
    else
      match b with
      | Json post => Some (emitPost post s1)
      | NotJson => Some (emitError s1)
      end
  else None.

Inductive input :=
  | FetchRandomPost
  | Cancel
  | SettleResponse (n : nat) (r : response)
  | SettleBody (n : nat) (b : body).

Definition step (i : input) (s : State) : option State :=
  match i with
  | FetchRandomPost => Some (fetchRandomPost s)
  | Cancel => Some (cancel s)
  | SettleResponse n r => settleResponse n r s
  | SettleBody n b => settleBody n b s
  end.

Fixpoint run (inputs : list input) (s : State) : option State :=
  match inputs with
  | [] => Some s
  | i :: inputs' =>
      match step i s with
      | Some s' => run inputs' s'
      | None => None
      end
  end.

Definition is_settle (i : input) : Prop :=
  match i with
  | SettleResponse _ _ | SettleBody _ _ => True
  | FetchRandomPost | Cancel => False
  end.

(** Every suspended call whose signal is not aborted is the call of the
    current controller, and every controller named was created. *)
Definition latest_only (s : State) : Prop :=
  (forall n ph, In (n, ph) (running s) -> ~ In n (aborted s) ->
                controller s = Some n)
  /\ (forall n ph, In (n, ph) (running s) -> n < controllers s)%nat
  /\ (forall n, controller s = Some n -> n < controllers s)%nat
  /\ (forall n, In n (aborted s) -> n < controllers s)%nat.

End Api.

(** ** createApp: the handlers of the page

    The page keeps the post on display, the list of favorites and the
    notifications. The theme button and the location panel are left out:
    they share with what is modelled here the notification service and,
    for the theme, the storage, where it writes under a key of its own. *)

Module App.
Import JSON.

(** A child of [#favorites-list]: the paragraph of the empty state, or the
    item of a favorite with the id its remove button was made for. *)
Inductive child :=
  | EmptyState (text : jstring)
  | FavoriteItem (dataset_id id_text title date aria_label : jstring)
      (removes : Z).

(** The elements [createApp] looks up, by what the handlers set on them. *)
Record Dom := {
  postTitle : jstring;
  postId : jstring;
  fetchPostBtn_disabled : bool;
  saveFavoriteBtn_disabled : bool;
  favoritesList : list child;
  clearFavoritesBtn_display : jstring
}.

Record State := {
  dom : Dom;
  currentPost : option Post.t;
  apiService : Api.State;
  favoritesService : Favorites.World;
  notificationService : Notifications.State;
  console : list jstring
}.

Definition set_dom (d : Dom) (s : State) : State :=
  {| dom := d; currentPost := currentPost s; apiService := apiService s;
     favoritesService := favoritesService s;
     notificationService := notificationService s; console := console s |}.

Definition set_apiService (a : Api.State) (s : State) : State :=
  {| dom := dom s; currentPost := currentPost s; apiService := a;
     favoritesService := favoritesService s;
     notificationService := notificationService s; console := console s |}.

Definition set_favoritesService (w : Favorites.World) (s : State) : State :=
  {| dom := dom s; currentPost := currentPost s; apiService := apiService s;
     favoritesService := w;
     notificationService := notificationService s; console := console s |}.

(** [notificationService.show(message)], with the default timeout. *)
Definition notify (message : jstring) (s : State) : State :=
  {| dom := dom s; currentPost := currentPost s; apiService := apiService s;
     favoritesService := favoritesService s;
     notificationService :=
       Notifications.show message 3000 (notificationService s);
     console := console s |}.

(** The text of the notification on the page, when there is one. *)
Definition toast (s : State) : option jstring :=
  match Notifications.currentNotification (notificationService s) with
  | Some c =>
      match Notifications.elements (notificationService s) !! c with
      | Some e => Some (Notifications.textContent e)
      | None => None
      end
  | None => None
  end.

(** The messages, with the code units of what is not ASCII. *)
Definition SAVED : jstring := js "Destino salvo nos favoritos! " ++ [11088].
Definition ALREADY_SAVED : jstring :=
  js "Este destino j" ++ [225] ++ js " est" ++ [225]
  ++ js " nos favoritos! " ++ [55357; 56491].
Definition REMOVED : jstring :=
  js "Favorito removido! " ++ [55357; 56785; 65039].
Definition ALL_REMOVED : jstring :=
  js "Todos os favoritos foram removidos! " ++ [55357; 56785; 65039].

(** [`#${id}`] and [id.toString()] for an id that is a safe integer:
    all its digits. From 10^21 on the code prints an exponent instead. *)
Definition id_string (id : Z) : jstring := print_number id 0.

Definition displayPost (post : Post.t) (d : Dom) : Dom :=
  {| postTitle := Post.title post;
     postId := js "#" ++ id_string (Post.id post);
     fetchPostBtn_disabled := fetchPostBtn_disabled d;
     saveFavoriteBtn_disabled := saveFavoriteBtn_disabled d;
     favoritesList := favoritesList d;
     clearFavoritesBtn_display := clearFavoritesBtn_display d |}.

Definition setLoadingState (isLoading : bool) (d : Dom) : Dom :=
  if isLoading then
    {| postTitle := js "Buscando novo destino...";
       postId := js "";
       fetchPostBtn_disabled := true;
       saveFavoriteBtn_disabled := true;
       favoritesList := favoritesList d;
       clearFavoritesBtn_display := clearFavoritesBtn_display d |}
  else
    {| postTitle := postTitle d;
       postId := postId d;
       fetchPostBtn_disabled := false;
       saveFavoriteBtn_disabled := false;
       favoritesList := favoritesList d;
       clearFavoritesBtn_display := clearFavoritesBtn_display d |}.

(** A value as a [Favorite[]], when it is one. *)
Definition favorite_of_json (v : value) : option Favorite.t :=
  match v with
  | JObj [(k1, JNum id 0%Z); (k2, JStr title); (k3, JNum timestamp 0%Z)] =>
      if jstring_eqb k1 (js "id") && jstring_eqb k2 (js "title")
         && jstring_eqb k3 (js "timestamp")
      then Some {| Favorite.id := id; Favorite.title := title;
                   Favorite.timestamp := timestamp |}
      else None
  | _ => None
  end.

Fixpoint favorites_of_elems (elems : list value) : option (list Favorite.t) :=
  match elems with
  | [] => Some []
  | v :: elems' =>
      match favorite_of_json v, favorites_of_elems elems' with
      | Some f, Some l => Some (f :: l)
      | _, _ => None
      end
  end.

Definition favorites_of_json (v : value) : option (list Favorite.t) :=
  match v with
  | JArr elems => favorites_of_elems elems
  | _ => None
  end.

Section Page.

(** [formatDate], whose result depends on the locale data of the browser. *)
Variable formatDate : Z -> jstring.

(** What [displayFavorites] leaves in the list and on the clear button, and
    whether it throws, for a value that is not a [Favorite[]]. *)
Variable displayForeign : value -> list child * jstring * bool.

Definition item (fav : Favorite.t) : child :=
  FavoriteItem (id_string (Favorite.id fav))
    (js "#" ++ id_string (Favorite.id fav))
    (Favorite.title fav)
    (formatDate (Favorite.timestamp fav))
    (js "Remover favorito " ++ Favorite.title fav)
    (Favorite.id fav).

Definition set_favoritesList (children : list child) (display : jstring)
    (d : Dom) : Dom :=
  {| postTitle := postTitle d;
     postId := postId d;
     fetchPostBtn_disabled := fetchPostBtn_disabled d;
     saveFavoriteBtn_disabled := saveFavoriteBtn_disabled d;
     favoritesList := children;
     clearFavoritesBtn_display := display |}.

Definition displayFavorites (favorites : list Favorite.t) (d : Dom) : Dom :=
  match favorites with
  | [] =>
      set_favoritesList [EmptyState (js "Nenhum favorito salvo ainda")]
        (js "none") d
  | _ :: _ => set_favoritesList (map item favorites) (js "block") d
  end.

(** [displayFavorites] on the value a caller hands it. *)
Definition displayValue (v : value) (d : Dom) : Dom :=
  match favorites_of_json v with
  | Some favorites => displayFavorites favorites d
  | None =>
      let '(children, display, _) := displayForeign v in
      set_favoritesList children display d
  end.

Definition displayThrows (v : value) : bool :=
  match favorites_of_json v with
  | Some _ => false
  | None => let '(_, _, threw) := displayForeign v in threw
  end.

(** [favoritesService.onChange(displayFavorites)] *)
Definition displayListener : Favorites.Listener :=
  {| Favorites.lid := 0; Favorites.throws := displayThrows |}.

(** What the calls of [displayFavorites] recorded in [events] do to the
    page. *)
Definition displayed (events : list Favorites.event) (d : Dom) : Dom :=
  fold_left
    (fun d e =>
       match e with
       | Favorites.Called 0 v => displayValue v d
       | _ => d
       end) events d.

(** A call on the favorites service, from the world [w] to [w']: the page
    after the listener calls made during it. *)
Definition afterFavorites (w' : Favorites.World) (s : State) : State :=
  set_favoritesService w'
    (set_dom
       (displayed
          (drop (length (Favorites.trace (favoritesService s)))
             (Favorites.trace w'))
          (dom s)) s).

Definition onPostFetched (post : Post.t) (s : State) : State :=
  {| dom := setLoadingState false (displayPost post (dom s));
     currentPost := Some post;
     apiService := apiService s;
     favoritesService := favoritesService s;
     notificationService := notificationService s;
     console := console s |}.

Definition onPostFetchError (message : jstring) (s : State) : State :=
  let d := setLoadingState false
             {| postTitle := js "Erro ao carregar destino. Tente novamente.";
                postId := postId (dom s);
                fetchPostBtn_disabled := fetchPostBtn_disabled (dom s);
                saveFavoriteBtn_disabled := saveFavoriteBtn_disabled (dom s);
                favoritesList := favoritesList (dom s);
                clearFavoritesBtn_display := clearFavoritesBtn_display (dom s) |} in
  {| dom :=
       {| postTitle := postTitle d;
          postId := postId d;
          fetchPostBtn_disabled := fetchPostBtn_disabled d;
          saveFavoriteBtn_disabled := true;
          favoritesList := favoritesList d;
          clearFavoritesBtn_display := clearFavoritesBtn_display d |};
     currentPost := currentPost s;
     apiService := apiService s;
     favoritesService := favoritesService s;
     notificationService := notificationService s;
     console := console s ++ [message] |}.

(** [apiService.onPostFetched(onPostFetched)], [apiService.onError(...)] *)
Definition postListener : Api.PostListener :=
  {| Api.lid := 0; Api.throws := fun _ => false |}.
Definition errorListener : Api.ErrorListener :=
  {| Api.elid := 0; Api.ethrows := fun _ => false |}.

(** What the listener calls recorded in [events] do to the page. *)
Definition reported (events : list Api.event) (s : State) : State :=
  fold_left
    (fun s e =>
       match e with
       | Api.PostCalled 0 post => onPostFetched post s
       | Api.ErrorCalled 0 message => onPostFetchError message s
       | _ => s
       end) events s.

(** A step of the API service, from the state of [s] to [a']. *)
Definition afterApi (a' : Api.State) (s : State) : State :=
  reported (drop (length (Api.trace (apiService s))) (Api.trace a'))
    (set_apiService a' s).

Definition onFetchPost (s : State) : State :=
  set_apiService (Api.fetchRandomPost (apiService s))
    (set_dom (setLoadingState true (dom s)) s).

(** [now] is what [Date.now()] returns in [addFavorite]. When
    [addFavorite] throws, so does the handler, before any notification. *)
Definition onSaveFavorite (now : Z) (s : State) : State :=
  match currentPost s with
  | None => s
  | Some post =>
      match Favorites.addFavorite STORAGE_KEY post now (favoritesService s) with
      | (Normal true, w') => notify SAVED (afterFavorites w' s)
      | (Normal false, w') => notify ALREADY_SAVED (afterFavorites w' s)
      | (Throw _, w') => afterFavorites w' s
      end
  end.

(** The click handler of the remove button made for the id [id]. *)
Definition onRemoveFavorite (id : Z) (s : State) : State :=
  match Favorites.removeFavorite STORAGE_KEY id (favoritesService s) with
  | (Normal _, w') => notify REMOVED (afterFavorites w' s)
  | (Throw _, w') => afterFavorites w' s
  end.

(** [confirmed] is what the user answers to [confirm(...)]. *)
Definition onClearFavorites (confirmed : bool) (s : State) : State :=
  if confirmed then
    notify ALL_REMOVED
      (afterFavorites
         (Favorites.clearAllFavorites STORAGE_KEY (favoritesService s)) s)
  else s.

(** [createApp()] on a page whose elements are as [html] says and an
    origin whose storage is [st]. *)
Definition createApp (html : Dom) (st : Storage) : State :=
  {| dom := html;
     currentPost := None;
     apiService := Api.create [postListener] [errorListener];
     favoritesService :=
       {| Favorites.localStorage := st;
          Favorites.listeners := [displayListener];
          Favorites.trace := [] |};
     notificationService := Notifications.create;
     console := [] |}.

(** [init()], without the request for the location. *)
Definition init (s : State) : State :=
  let s1 := set_apiService (Api.fetchRandomPost (apiService s)) s in
  let '(favorites, w) :=
    Favorites.getFavorites STORAGE_KEY (favoritesService s1) in
  set_favoritesService w (set_dom (displayValue favorites (dom s1)) s1).

(** What can happen to the page. A disabled button and a button that is
    not displayed cannot be clicked. *)
Inductive input :=
  | ClickFetch
  | ClickSave (now : Z)
  | ClickRemove (i : nat)
  | ClickClear (confirmed : bool)
  | TimerFires (t : Notifications.timer)
  | ResponseArrives (n : nat) (r : Api.response)
  | BodyArrives (n : nat) (b : Api.body).

Definition step (i : input) (s : State) : option State :=
  match i with
  | ClickFetch =>
      if fetchPostBtn_disabled (dom s) then None else Some (onFetchPost s)
  | ClickSave now =>
      if saveFavoriteBtn_disabled (dom s) then None
      else Some (onSaveFavorite now s)
  | ClickRemove i =>
      match favoritesList (dom s) !! i with
      | Some (FavoriteItem _ _ _ _ _ id) => Some (onRemoveFavorite id s)
      | _ => None
      end
  | ClickClear confirmed =>
      if jstring_eqb (clearFavoritesBtn_display (dom s)) (js "none") then None
      else Some (onClearFavorites confirmed s)
  | TimerFires t =>
      match Notifications.fire t (notificationService s) with
      | Some n =>
          Some {| dom := dom s; currentPost := currentPost s;
                  apiService := apiService s;
                  favoritesService := favoritesService s;
                  notificationService := n; console := console s |}
      | None => None
      end
  | ResponseArrives n r =>
      match Api.settleResponse n r (apiService s) with
      | Some a' => Some (afterApi a' s)
      | None => None
      end
  | BodyArrives n b =>
      match Api.settleBody n b (apiService s) with
      | Some a' => Some (afterApi a' s)
      | None => None
      end
  end.

Fixpoint run (inputs : list input) (s : State) : option State :=
  match inputs with
  | [] => Some s
  | i :: inputs' =>
      match step i s with
      | Some s' => run inputs' s'
      | None => None
      end
  end.

(** What the API service of the page satisfies at all times: the page
    never calls [cancel], so the current controller is never aborted. *)
Definition api_invariant (a : Api.State) : Prop :=
  Api.latest_only a
  /\ (forall n, Api.controller a = Some n -> ~ In n (Api.aborted a))
  /\ Api.postFetchedListeners a = [postListener]
  /\ Api.errorListeners a = [errorListener].

(** An answer that makes the call [n] fail: no response, a status that is
    not ok, or a body that is not JSON. *)
Definition failure (n : nat) (i : input) : Prop :=
  i = ResponseArrives n Api.NetworkError
  \/ (exists status, i = ResponseArrives n (Api.Status false status))
  \/ i = BodyArrives n Api.NotJson.

(** The numbers that an input brings to the page are safe integers: the
    id of a fetched post, and the time of a click on the save button. *)
Definition safe_input (i : input) : bool :=
  match i with
  | ClickSave now => Safe.isSafeInteger now
  | BodyArrives _ (Api.Json post) => Safe.post post
  | _ => true
  end.

(** The post held for saving has an id that is a safe integer. *)
Definition safe_current (s : State) : Prop :=
  forall post, currentPost s = Some post -> Safe.post post = true.

(** The post that the save button would save is the post on display. *)
Definition shows_current (s : State) : Prop :=
  forall post,
    currentPost s = Some post ->
    saveFavoriteBtn_disabled (dom s) = false ->
    postTitle (dom s) = Post.title post
    /\ postId (dom s) = js "#" ++ id_string (Post.id post).

(** The list on the page is the stored collection [l]. *)
Definition in_sync (s : State) (l : list Favorite.t) : Prop :=
  Favorites.holds STORAGE_KEY (favoritesService s) l
  /\ Favorites.listeners (favoritesService s) = [displayListener]
  /\ favoritesList (dom s)
     = match l with
       | [] => [EmptyState (js "Nenhum favorito salvo ainda")]
       | _ :: _ => map item l
       end
  /\ clearFavoritesBtn_display (dom s)
     = match l with [] => js "none" | _ :: _ => js "block" end.

End Page.

End App.

(** ** Scenarios for the services and the page *)

Module Scenarios.
Import Examples.

(** A service on an origin that also holds a saved theme. *)
Definition both_keys : Favorites.World :=
  {| Favorites.localStorage :=
       {| items := {[ STORAGE_KEY := js "[]"; THEME_KEY := js "dark" ]};
          quota := 1000 |};
     Favorites.listeners := [observer 1];
     Favorites.trace := [] |}.

(** Tokyo saved at time 100. *)
Definition one_saved : Favorites.World :=
  snd (Favorites.addFavorite STORAGE_KEY tokyo 100 (world 1000 [observer 1])).

(** The second of three listeners throws. *)
Definition three_listeners : Favorites.World :=
  world 1000 [observer 1; faulty 2; observer 3].

(** A theme service with one listener, on a fresh origin with room for
    [q] code units, the system preferring light. *)
Definition theme_observer (n : nat) : ThemeService.Listener :=
  {| ThemeService.lid := n; ThemeService.throws := fun _ => false |}.

Definition observed_theme (q : nat) : ThemeService.World :=
  {| ThemeService.localStorage := store q;
     ThemeService.matchMedia := Some false;
     ThemeService.currentTheme := ThemeService.light;
     ThemeService.dataTheme := Some ThemeService.light;
     ThemeService.listeners := [theme_observer 1];
     ThemeService.trace := [] |}.

(** Two notifications shown one after the other; the first timer of the
    first one fires afterwards. *)
Definition toasts : list Notifications.input :=
  [Notifications.Show (js "a") 3000; Notifications.Show (js "b") 3000;
   Notifications.Fire (Notifications.FadeOut 0 3000)].

Definition watcher (n : nat) : Api.PostListener :=
  {| Api.lid := n; Api.throws := fun _ => false |}.
Definition reporter (n : nat) : Api.ErrorListener :=
  {| Api.elid := n; Api.ethrows := fun _ => false |}.

(** Two calls of fetchRandomPost; the first request fails late, the
    second gets its response. *)
Definition two_calls : list Api.input :=
  [Api.FetchRandomPost; Api.FetchRandomPost;
   Api.SettleResponse 0 Api.NetworkError;
   Api.SettleResponse 1 (Api.Status true 200)].

(** A page as it is loaded, a date format, and a [displayFavorites] that
    empties the list, shows the clear button and throws on what is not a
    [Favorite[]]. *)
Definition page : App.Dom :=
  {| App.postTitle := js "";
     App.postId := js "";
     App.fetchPostBtn_disabled := false;
     App.saveFavoriteBtn_disabled := false;
     App.favoritesList := [];
     App.clearFavoritesBtn_display := js "none" |}.

Definition date (timestamp : Z) : jstring := App.id_string timestamp.

Definition foreign (v : JSON.value) : list App.child * jstring * bool :=
  ([], js "block", true).

(** The page started on a fresh origin with room for [q] code units, and
    the same after the first request has brought Tokyo. *)
Definition started (q : nat) : App.State :=
  App.init date foreign (App.createApp foreign page (store q)).

Definition tokyo_fetched : list App.input :=
  [App.ResponseArrives 0 (Api.Status true 200);
   App.BodyArrives 0 (Api.Json tokyo)].

(** The page with Tokyo on display, and with Tokyo saved at time 100. *)
Definition tokyo_shown (q : nat) : App.State :=
  match App.run date foreign tokyo_fetched (started q) with
  | Some s => s
  | None => started q
  end.

Definition tokyo_saved : App.State :=
  App.onSaveFavorite date foreign 100 (tokyo_shown 1000).

End Scenarios.

(** * Properties *)

(** ** JSON: what is printed is read back *)

Module JSONFacts.
Import JSON.

Lemma to_uint_unorm (n : N) : unorm (N.to_uint n) = N.to_uint n.
Proof.
  rewrite <- (DecimalN.Unsigned.to_of (N.to_uint n)).
  now rewrite DecimalN.Unsigned.of_to.
Qed.

Lemma scan_digits_uint_chars (d : uint) (rest : jstring) :
  match rest with c :: _ => is_digit c = false | [] => True end ->
  scan_digits (uint_chars d ++ rest) = (d, rest).
Proof.
  intros Hstop.
  induction d; simpl; try (rewrite IHd; reflexivity).
  destruct rest as [|c r]; [reflexivity|].
  simpl. now rewrite Hstop.
Qed.

Lemma to_uint_head (n : N) :
  match N.to_uint n with Nil => False | D0 d => d = Nil | _ => True end.
Proof.
  pose proof (to_uint_unorm n) as Hu.
  destruct (N.to_uint n) as [|d|d|d|d|d|d|d|d|d|d]; trivial.
  - now apply (unorm_nonnil Nil).
  - rewrite unorm_D0 in Hu. unfold unorm in Hu.
    destruct (nzhead d) eqn:E0; try discriminate Hu.
    + now injection Hu.
    + now apply nzhead_nonzero in E0.
Qed.

Lemma scan_int_digits (n : N) (rest : jstring) :
  match rest with c :: _ => is_digit c = false | [] => True end ->
  scan_int (digits n ++ rest) = Some (n, rest).
Proof.
  intros Hstop. unfold digits.
  pose proof (DecimalN.Unsigned.of_to n) as Hn.
  pose proof (to_uint_head n) as Hh.
  pose proof (scan_digits_uint_chars (N.to_uint n) rest Hstop) as Hs.
  destruct (N.to_uint n) as [|d|d|d|d|d|d|d|d|d|d] eqn:E; try contradiction.
  1: { subst d. simpl. now rewrite <- Hn. }
  all: unfold scan_int; cbn [uint_chars app];
       cbn [uint_chars app] in Hs; rewrite Hs, Hn; reflexivity.
Qed.

Lemma digits_head (n : N) :
  exists c r, digits n = c :: r /\ is_digit c = true.
Proof.
  unfold digits. pose proof (to_uint_head n) as Hh.
  destruct (N.to_uint n); try contradiction; simpl; eauto.
Qed.

Lemma scan_number_integer (z : Z) (rest : jstring) :
  number_stop rest ->
  scan_number (print_number z 0 ++ rest) = Some (z, 0%Z, rest).
Proof.
  intros Hstop.
  assert (Hd : match rest with c :: _ => is_digit c = false | [] => True end).
  { destruct rest; [exact I | apply Hstop]. }
  assert (Hf : scan_frac rest = Some (Nil, rest)).
  { destruct rest as [|c r]; [reflexivity|]. simpl.
    destruct Hstop as (_ & -> & _). reflexivity. }
  assert (He : scan_exp rest = Some (0%Z, rest)).
  { destruct rest as [|c r]; [reflexivity|]. simpl.
    destruct Hstop as (_ & _ & -> & ->). reflexivity. }
  unfold print_number. change (0 <=? 0)%Z with true. cbv iota.
  change (Z.to_N 0) with 0. rewrite N.pow_0_r, N.mul_1_r.
  unfold scan_number.
  destruct (z <? 0)%Z eqn:Hz.
  - change ((js "-" ++ digits (Z.abs_N z)) ++ rest)
      with (45 :: (digits (Z.abs_N z) ++ rest)).
    cbv beta iota. change (is_char "-" 45) with true. cbv beta iota.
    rewrite scan_int_digits, Hf, He by assumption.
    cbn [nb_digits]. unfold normalize.
    change (0 - Z.of_nat 0)%Z with 0%Z. change (0 <=? 0)%Z with true.
    cbv iota. do 3 f_equal.
    apply Z.ltb_lt in Hz. rewrite N2Z.inj_abs_N. simpl. lia.
  - cbn [app].
    destruct (digits_head (Z.abs_N z)) as (c & r & Hc & Hdig).
    assert (is_char "-" c = false) as Hminus.
    { unfold is_digit in Hdig. unfold is_char. simpl.
      apply N.eqb_neq. intros ->. discriminate. }
    rewrite Hc. cbn [app]. rewrite Hminus.
    change (c :: r ++ rest) with ((c :: r) ++ rest). rewrite <- Hc.
    rewrite scan_int_digits, Hf, He by assumption.
    cbn [nb_digits]. unfold normalize.
    change (0 - Z.of_nat 0)%Z with 0%Z. change (0 <=? 0)%Z with true.
    cbv iota. do 3 f_equal.
    apply Z.ltb_ge in Hz. rewrite N2Z.inj_abs_N. simpl. lia.
Qed.

Lemma hex_val_hex_digit (d : N) : d < 16 -> hex_val (hex_digit d) = Some d.
Proof.
  intros Hd. destruct d as [|p]; [reflexivity|].
  do 4 (try (destruct p as [p|p|]; try lia)); reflexivity.
Qed.

Lemma hex_digits_value (c : N) :
  c < 65536 ->
  (c / 4096 mod 16) * 4096 + (c / 256 mod 16) * 256
    + (c / 16 mod 16) * 16 + c mod 16 = c.
Proof.
  intros Hc. zify. Z.to_euclidean_division_equations. lia.
Qed.

Lemma scan_unicode_escape (c : jchar) (t : jstring) :
  c < 65536 -> scan_string (unicode_escape c ++ t) = scan_cons c t.
Proof.
  intros Hc. unfold unicode_escape, scan_cons.
  change (js "\u") with [92; 117]. cbn [app scan_string].
  change (is_quote 92) with false. change (is_char "\" 92) with true.
  change (is_char "u" 117) with true. cbv iota.
  rewrite !hex_val_hex_digit by (apply N.mod_lt; discriminate).
  now rewrite hex_digits_value.
Qed.

Lemma scan_quote_unit (lone : bool) (c : jchar) (t : jstring) :
  (lone = true -> c < 65536) ->
  scan_string (quote_unit lone c ++ t) = scan_cons c t.
Proof.
  intros Hlone. unfold quote_unit, is_quote.
  destruct (c =? 34) eqn:E34;
    [apply N.eqb_eq in E34; subst c; reflexivity|].
  destruct (is_char "\" c) eqn:E92;
    [apply N.eqb_eq in E92; subst c; reflexivity|].
  destruct (c =? 8) eqn:E8; [apply N.eqb_eq in E8; subst c; reflexivity|].
  destruct (c =? 9) eqn:E9; [apply N.eqb_eq in E9; subst c; reflexivity|].
  destruct (c =? 10) eqn:E10; [apply N.eqb_eq in E10; subst c; reflexivity|].
  destruct (c =? 12) eqn:E12; [apply N.eqb_eq in E12; subst c; reflexivity|].
  destruct (c =? 13) eqn:E13; [apply N.eqb_eq in E13; subst c; reflexivity|].
  destruct (c <? 32) eqn:E32; cbn [orb].
  - apply scan_unicode_escape. apply N.ltb_lt in E32. lia.
  - destruct lone.
    + apply scan_unicode_escape. now apply Hlone.
    + cbn [app scan_string]. unfold is_quote. now rewrite E34, E92, E32.
Qed.

Lemma scan_string_quote_units (s : jstring) (prev_high : bool) (rest : jstring) :
  scan_string (quote_units prev_high s ++ 34 :: rest) = Some (s, rest).
Proof.
  revert prev_high. induction s as [|c s IH]; intros prev_high.
  - reflexivity.
  - cbn [quote_units]. rewrite <- app_assoc, scan_quote_unit.
    + unfold scan_cons. now rewrite IH.
    + unfold is_high_surrogate, is_low_surrogate. intros H.
      apply orb_true_iff in H.
      destruct H as [H|H]; apply andb_true_iff in H; destruct H as [H _];
        apply andb_true_iff in H; destruct H as [_ H];
        apply N.leb_le in H; lia.
Qed.

Lemma scan_string_quote (s rest : jstring) :
  exists t, quote s ++ rest = 34 :: t /\ scan_string t = Some (s, rest).
Proof.
  exists (quote_units false s ++ 34 :: rest). split.
  - unfold quote. now rewrite <- !app_assoc.
  - apply scan_string_quote_units.
Qed.

Lemma print_number_head (z : Z) :
  exists c r, print_number z 0 = c :: r /\ (c = 45 \/ is_digit c = true).
Proof.
  unfold print_number. change (0 <=? 0)%Z with true. cbv iota.
  destruct (z <? 0)%Z.
  - exists 45. eexists. split; [reflexivity | now left].
  - destruct (digits_head (Z.abs_N z * 10 ^ Z.to_N 0)) as (c & r & -> & H).
    exists c, r. split; [reflexivity | now right].
Qed.

Lemma parse_value_number (fuel : nat) (z : Z) (rest : jstring) :
  number_stop rest ->
  parse_value (S fuel) (print_number z 0 ++ rest) = POk (JNum z 0) rest.
Proof.
  intros Hstop.
  pose proof (scan_number_integer z rest Hstop) as Hscan.
  destruct (print_number_head z) as (c & r & Hc & Hhead).
  rewrite Hc in *. cbn [app parse_value skip_ws] in *.
  assert (is_ws c = false /\ is_char "{" c = false /\ is_char "[" c = false
          /\ is_quote c = false /\ is_char "t" c = false
          /\ is_char "f" c = false /\ is_char "n" c = false)
    as (-> & -> & -> & -> & -> & -> & ->).
  { destruct Hhead as [->|Hd]; [now repeat split|].
    unfold is_digit in Hd. apply andb_true_iff in Hd. destruct Hd as [H1 H2].
    apply N.leb_le in H1. apply N.leb_le in H2.
    unfold is_ws, is_char, is_quote. cbn [N_of_ascii].
    repeat split; rewrite ?orb_false_iff; repeat split;
      apply N.eqb_neq; simpl; lia. }
  now rewrite Hscan.
Qed.

Lemma parse_value_string (fuel : nat) (s rest : jstring) :
  parse_value (S fuel) (quote s ++ rest) = POk (JStr s) rest.
Proof.
  destruct (scan_string_quote s rest) as (t & -> & Ht).
  cbn [parse_value skip_ws]. change (is_ws 34) with false. cbv iota.
  change (is_char "{" 34) with false. change (is_char "[" 34) with false.
  change (is_quote 34) with true. cbv iota. now rewrite Ht.
Qed.

Lemma parse_members_more (fuel : nat) (k t r2 r' : jstring) (v : value) :
  scan_string t = Some (k, 58 :: r2) ->
  parse_value fuel r2 = POk v (44 :: r') ->
  parse_members (S fuel) (34 :: t)
  = match parse_members fuel r' with
    | POk ms r'' => POk ((k, v) :: ms) r''
    | PError => PError
    | PFuel => PFuel
    end.
Proof.
  intros Hk Hv. cbn [parse_members skip_ws].
  change (is_ws 34) with false. cbv iota.
  change (is_quote 34) with true. cbv iota. rewrite Hk.
  cbn [skip_ws]. change (is_ws 58) with false. cbv iota.
  change (is_char ":" 58) with true. cbv iota. rewrite Hv.
  cbn [skip_ws]. change (is_ws 44) with false. cbv iota.
  change (is_char "," 44) with true. cbv iota. reflexivity.
Qed.

Lemma parse_members_last (fuel : nat) (k t r2 r' : jstring) (v : value) :
  scan_string t = Some (k, 58 :: r2) ->
  parse_value fuel r2 = POk v (125 :: r') ->
  parse_members (S fuel) (34 :: t) = POk [(k, v)] r'.
Proof.
  intros Hk Hv. cbn [parse_members skip_ws].
  change (is_ws 34) with false. cbv iota.
  change (is_quote 34) with true. cbv iota. rewrite Hk.
  cbn [skip_ws]. change (is_ws 58) with false. cbv iota.
  change (is_char ":" 58) with true. cbv iota. rewrite Hv.
  cbn [skip_ws]. change (is_ws 125) with false. cbv iota.
  change (is_char "," 125) with false. change (is_char "}" 125) with true.
  cbv iota. reflexivity.
Qed.

Lemma parse_value_object (fuel : nat) (t rest : jstring)
    (ms : list (jstring * value)) :
  parse_members fuel (34 :: t) = POk ms rest ->
  parse_value (S fuel) (123 :: 34 :: t) = POk (JObj (obj_of_members ms)) rest.
Proof.
  intros Hms. cbn [parse_value skip_ws].
  change (is_ws 123) with false. cbv iota.
  change (is_char "{" 123) with true. cbv iota.
  cbn [skip_ws]. change (is_ws 34) with false. cbv iota.
  change (is_char "}" 34) with false. cbv iota. now rewrite Hms.
Qed.

(** The text of one favorite. *)
Lemma stringify_favorite (f : Favorite.t) (rest : jstring) :
  stringify (Favorite.to_json f) ++ rest
  = 123 :: 34 :: quote_units false (js "id") ++ 34 :: 58 ::
    print_number (Favorite.id f) 0 ++ 44 ::
    34 :: quote_units false (js "title") ++ 34 :: 58 ::
    quote (Favorite.title f) ++ 44 ::
    34 :: quote_units false (js "timestamp") ++ 34 :: 58 ::
    print_number (Favorite.timestamp f) 0 ++ 125 :: rest.
Proof.
  unfold Favorite.to_json. cbn [stringify].
  change (quote (js "id")) with (34 :: quote_units false (js "id") ++ [34]).
  change (quote (js "title"))
    with (34 :: quote_units false (js "title") ++ [34]).
  change (quote (js "timestamp"))
    with (34 :: quote_units false (js "timestamp") ++ [34]).
  change (js "{") with [123]. change (js "}") with [125].
  change (js ":") with [58]. change (js ",") with [44].
  repeat (rewrite <- ?app_assoc; cbn [app]). reflexivity.
Qed.

Lemma parse_value_favorite (fuel : nat) (f : Favorite.t) (rest : jstring) :
  (5 <= fuel)%nat ->
  parse_value fuel (stringify (Favorite.to_json f) ++ rest)
  = POk (Favorite.to_json f) rest.
Proof.
  intros Hfuel.
  do 5 (destruct fuel as [|fuel]; [lia|]). clear Hfuel.
  rewrite stringify_favorite.
  erewrite parse_value_object.
  2: { erewrite parse_members_more;
         [| apply scan_string_quote_units
          | apply parse_value_number; now cbn].
       erewrite parse_members_more;
         [| apply scan_string_quote_units | apply parse_value_string].
       erewrite parse_members_last;
         [reflexivity | apply scan_string_quote_units
          | apply parse_value_number; now cbn]. }
  reflexivity.
Qed.

Lemma stringify_array_nil : stringify (JArr []) = [91; 93].
Proof. reflexivity. Qed.

Lemma stringify_array_one (x : value) :
  stringify (JArr [x]) = 91 :: stringify x ++ [93].
Proof. reflexivity. Qed.

Lemma stringify_array_cons (x y : value) (r : list value) :
  stringify (JArr (x :: y :: r))
  = 91 :: stringify x ++ 44 :: tl (stringify (JArr (y :: r))).
Proof.
  cbn [stringify]. change (js "[") with [91]. change (js ",") with [44].
  cbn [app tl]. now rewrite <- !app_assoc.
Qed.

Lemma stringify_favorite_head (f : Favorite.t) :
  exists t, stringify (Favorite.to_json f) = 123 :: t.
Proof.
  eexists. rewrite <- (app_nil_r (stringify _)).
  rewrite stringify_favorite. reflexivity.
Qed.

Lemma parse_elements_favorites (l : list Favorite.t) :
  l <> [] ->
  forall (fuel : nat) (rest : jstring),
    (length l + 5 <= fuel)%nat ->
    parse_elements fuel (tl (stringify (Favorite.array l)) ++ rest)
    = POk (map Favorite.to_json l) rest.
Proof.
  unfold Favorite.array.
  induction l as [|f l IH]; [congruence|]. intros _ fuel rest Hfuel.
  destruct fuel as [|fuel]; [cbn in Hfuel; lia|].
  cbn [length] in Hfuel.
  destruct l as [|g l].
  - cbn [map]. rewrite stringify_array_one. cbn [tl parse_elements].
    rewrite <- app_assoc, parse_value_favorite by lia.
    reflexivity.
  - cbn [map] in *. rewrite stringify_array_cons. cbn [tl parse_elements].
    rewrite <- app_assoc. cbn [app].
    rewrite parse_value_favorite by (cbn [length] in Hfuel; lia).
    cbn [skip_ws]. change (is_ws 44) with false. cbv iota.
    change (is_char "," 44) with true. cbv iota.
    rewrite IH by (cbn [length] in *; congruence || lia). reflexivity.
Qed.

Lemma parse_value_favorites (l : list Favorite.t) (fuel : nat) (rest : jstring) :
  (length l + 6 <= fuel)%nat ->
  parse_value fuel (stringify (Favorite.array l) ++ rest)
  = POk (Favorite.array l) rest.
Proof.
  intros Hfuel. destruct fuel as [|fuel]; [lia|].
  destruct l as [|f l]; [reflexivity|].
  pose proof (parse_elements_favorites (f :: l) ltac:(congruence) fuel rest
                ltac:(lia)) as Hel.
  assert (exists t, stringify (Favorite.array (f :: l)) = 91 :: 123 :: t)
    as (t & Ht).
  { unfold Favorite.array. cbn [map].
    destruct (stringify_favorite_head f) as (u & Hu).
    destruct l; cbn [map];
      [rewrite stringify_array_one | rewrite stringify_array_cons];
      rewrite Hu; eexists; reflexivity. }
  rewrite Ht in *. cbn [tl app] in Hel. cbn [app parse_value skip_ws].
  change (is_ws 91) with false. cbv iota.
  change (is_char "{" 91) with false. change (is_char "[" 91) with true.
  cbv iota. change (is_ws 123) with false. cbv iota.
  change (is_char "]" 123) with false. cbv iota.
  now rewrite Hel.
Qed.

Lemma length_stringify_favorites (l : list Favorite.t) :
  (length l + 2 <= length (stringify (Favorite.array l)))%nat.
Proof.
  unfold Favorite.array.
  induction l as [|f l IH]; [cbn; lia|].
  destruct (stringify_favorite_head f) as (u & Hu).
  destruct l as [|g l]; cbn [map] in *.
  - rewrite stringify_array_one, Hu. cbn [length]. rewrite length_app.
    cbn [length]. lia.
  - rewrite stringify_array_cons, Hu. cbn [length]. rewrite length_app.
    cbn [length] in *.
    destruct (stringify (JArr (Favorite.to_json g :: map Favorite.to_json l)));
      cbn [tl length] in *; lia.
Qed.

Lemma length_stringify_cons (f : Favorite.t) (l : list Favorite.t) :
  (length (stringify (Favorite.array l))
   <= length (stringify (Favorite.array (f :: l))))%nat.
Proof.
  unfold Favorite.array. destruct l as [|g l]; cbn [map].
  - rewrite stringify_array_nil, stringify_array_one. cbn [length].
    rewrite length_app. cbn [length]. lia.
  - rewrite stringify_array_cons.
    assert (exists t, stringify (JArr (Favorite.to_json g :: map Favorite.to_json l))
                      = 91 :: t) as (t & Ht).
    { destruct l; cbn [map];
        [rewrite stringify_array_one | rewrite stringify_array_cons];
        eexists; reflexivity. }
    rewrite Ht. cbn [tl length]. rewrite length_app. cbn [length]. lia.
Qed.

(** JSON.parse undoes JSON.stringify on a [Favorite[]]. *)
Lemma parse_stringify_favorites (l : list Favorite.t) :
  parse (stringify (Favorite.array l)) = Normal (Favorite.array l).
Proof.
  destruct l as [|f l0]; [reflexivity|].
  set (l := f :: l0). unfold parse, parse_fuel.
  pose proof (length_stringify_favorites l) as Hlen. cbn [l length] in Hlen.
  pose proof (parse_value_favorites l
                (S (2 * length (stringify (Favorite.array l)))) []
                ltac:(cbn [l length]; lia)) as Hp.
  rewrite app_nil_r in Hp. now rewrite Hp.
Qed.

Lemma stringify_favorites_nonempty (l : list Favorite.t) :
  exists c s, stringify (Favorite.array l) = c :: s.
Proof.
  pose proof (length_stringify_favorites l) as H.
  destruct (stringify (Favorite.array l)) as [|c s]; [cbn in H; lia|eauto].
Qed.

(** The parser on a few texts. *)
Example parse_numbers :
  parse (js " [1, 2.50, -3e2, 0.001, true, null] ")
  = Normal (JArr [JNum 1 0; JNum 25 (-1); JNum (-300) 0; JNum 1 (-3);
                  JBool true; JNull]).
Proof. vm_compute. reflexivity. Qed.

Example parse_rejects :
  parse (js "[1,]") = Throw SyntaxError
  /\ parse (js "01") = Throw SyntaxError
  /\ parse (js "2.") = Throw SyntaxError
  /\ parse (js "nul") = Throw SyntaxError
  /\ parse (js "[1] x") = Throw SyntaxError
  /\ parse (js "") = Throw SyntaxError.
Proof. repeat split; vm_compute; reflexivity. Qed.

Example stringify_numbers :
  stringify (JArr [JNum 15 0; JNum (-12) (-4); JStr [34; 10; 233]])
  = js "[15,-0.0012," ++ [34; 92; 34; 92; 110; 233; 34] ++ js "]".
Proof. vm_compute. reflexivity. Qed.

End JSONFacts.

(** ** JSON.parse: the fuel is enough *)

Module ParseFuel.
Import JSON.

Lemma skip_ws_length (s : jstring) : (length (skip_ws s) <= length s)%nat.
Proof.
  induction s as [|c s IH]; cbn; [lia|].
  destruct (is_ws c); cbn; lia.
Qed.

Lemma skip_ws_cons (s r : jstring) (c : jchar) :
  skip_ws s = c :: r -> (length r < length s)%nat.
Proof. intros H. pose proof (skip_ws_length s). rewrite H in *. cbn in *. lia. Qed.

Lemma strip_prefix_length (p s r : jstring) :
  strip_prefix p s = Some r -> (length r + length p = length s)%nat.
Proof.
  revert s. induction p as [|a p IH]; intros [|b s] H; cbn in *;
    try discriminate.
  - injection H as <-. cbn. lia.
  - injection H as <-. cbn. lia.
  - destruct (a =? b); [|discriminate]. apply IH in H. lia.
Qed.

Lemma scan_digits_length (s : jstring) :
  (length (snd (scan_digits s)) <= length s)%nat.
Proof.
  induction s as [|c s IH]; cbn; [lia|].
  destruct (is_digit c); cbn; [|lia].
  destruct (scan_digits s). cbn in *. lia.
Qed.

Lemma scan_string_length (s t r : jstring) :
  scan_string s = Some (t, r) -> (length r < length s)%nat.
Proof.
  remember (length s) as n eqn:Hn. revert s t r Hn.
  induction n as [n IH] using lt_wf_ind. intros s t r -> H.
  destruct s as [|c s]; [discriminate|]. cbn [scan_string] in H.
  destruct (is_quote c); [injection H as _ <-; cbn; lia|].
  destruct (is_char "\" c).
  - destruct s as [|x s1]; [discriminate|].
    destruct (is_char "u" x).
    + destruct s1 as [|h3 [|h2 [|h1 [|h0 s2]]]]; try discriminate.
      destruct (hex_val h3), (hex_val h2), (hex_val h1), (hex_val h0);
        try discriminate.
      destruct (scan_string s2) as [[u r3]|] eqn:E; [|discriminate].
      injection H as _ <-.
      apply (IH (length s2) ltac:(cbn; lia) s2 u r3 eq_refl) in E.
      cbn. lia.
    + destruct (unescape x); [|discriminate].
      destruct (scan_string s1) as [[u r3]|] eqn:E; [|discriminate].
      injection H as _ <-.
      apply (IH (length s1) ltac:(cbn; lia) s1 u r3 eq_refl) in E.
      cbn. lia.
  - destruct (c <? 32); [discriminate|].
    destruct (scan_string s) as [[u r3]|] eqn:E; [|discriminate].
    injection H as _ <-.
    apply (IH (length s) ltac:(cbn; lia) s u r3 eq_refl) in E.
    cbn. lia.
Qed.

Lemma scan_int_length (s r : jstring) (n : N) :
  scan_int s = Some (n, r) -> (length r < length s)%nat.
Proof.
  destruct s as [|c s]; [discriminate|]. unfold scan_int.
  destruct (is_char "0" c); [intros [= _ <-]; cbn; lia|].
  destruct (is_digit c) eqn:Ed; [|discriminate].
  cbn [scan_digits]. rewrite Ed.
  pose proof (scan_digits_length s) as Hl.
  destruct (scan_digits s) as [d r']. intros [= _ <-]. cbn in *. lia.
Qed.

Lemma scan_frac_length (s r : jstring) (d : uint) :
  scan_frac s = Some (d, r) -> (length r <= length s)%nat.
Proof.
  destruct s as [|c s]; [intros [= _ <-]; cbn; lia|]. unfold scan_frac.
  destruct (is_char "." c); [|intros [= _ <-]; cbn; lia].
  pose proof (scan_digits_length s) as Hl.
  destruct (scan_digits s) as [d' r']. cbn in Hl.
  destruct d'; intros [= _ <-]; cbn; lia.
Qed.

Lemma scan_exp_digits_length (neg : bool) (s r : jstring) (x : Z) :
  scan_exp_digits neg s = Some (x, r) -> (length r <= length s)%nat.
Proof.
  unfold scan_exp_digits. pose proof (scan_digits_length s) as Hl.
  destruct (scan_digits s) as [d' r']. cbn in Hl.
  destruct d'; intros [= _ <-]; cbn; lia.
Qed.

Lemma scan_exp_length (s r : jstring) (x : Z) :
  scan_exp s = Some (x, r) -> (length r <= length s)%nat.
Proof.
  destruct s as [|c s]; [intros [= _ <-]; cbn; lia|]. unfold scan_exp.
  destruct (is_char "e" c || is_char "E" c); [|intros [= _ <-]; cbn; lia].
  destruct s as [|c' s']; [discriminate|].
  destruct (is_char "-" c'); [|destruct (is_char "+" c')];
    intros H; apply scan_exp_digits_length in H; cbn in *; lia.
Qed.

Lemma scan_number_length (s r : jstring) (m e : Z) :
  scan_number s = Some (m, e, r) -> (length r < length s)%nat.
Proof.
  unfold scan_number.
  set (p := match s with
            | [] => (false, s)
            | c :: r0 => if is_char "-" c then (true, r0) else (false, s)
            end).
  assert (Hp : (length (snd p) <= length s)%nat).
  { subst p. destruct s as [|c s]; cbn; [lia|].
    destruct (is_char "-" c); cbn; lia. }
  destruct p as [neg s1]. cbn [snd] in Hp.
  destruct (scan_int s1) as [[ip s2]|] eqn:E1; [|discriminate].
  destruct (scan_frac s2) as [[fd s3]|] eqn:E2; [|discriminate].
  destruct (scan_exp s3) as [[x s4]|] eqn:E3; [|discriminate].
  apply scan_int_length in E1. apply scan_frac_length in E2.
  apply scan_exp_length in E3.
  destruct (normalize _ _). intros [= _ _ <-]. lia.
Qed.

Lemma literal_consumes (word : string) (v : value) (s : jstring) :
  js word <> [] -> consumes s (literal word v s).
Proof.
  intros Hw. unfold literal.
  destruct (strip_prefix (js word) s) as [r|] eqn:E; cbn; [|exact I].
  apply strip_prefix_length in E. destruct (js word); [congruence|].
  cbn in E. lia.
Qed.

Lemma parse_fuel_enough (fuel : nat) :
  (forall s, (2 * length s < fuel)%nat -> consumes s (parse_value fuel s))
  /\ (forall s, (2 * length s + 1 < fuel)%nat ->
                consumes s (parse_elements fuel s))
  /\ (forall s, (2 * length s + 1 < fuel)%nat ->
                consumes s (parse_members fuel s)).
Proof.
  induction fuel as [|fuel (IHv & IHe & IHm)];
    [repeat split; intros s H; lia|].
  split; [|split]; intros s Hf.
  - cbn [parse_value].
    destruct (skip_ws s) as [|c r] eqn:Es; [exact I|].
    apply skip_ws_cons in Es.
    destruct (is_char "{" c).
    { destruct (skip_ws r) as [|c' r'] eqn:Er; [exact I|].
      apply skip_ws_cons in Er.
      destruct (is_char "}" c'); [cbn; lia|].
      specialize (IHm r ltac:(lia)).
      destruct (parse_members fuel r); cbn in *; trivial; lia. }
    destruct (is_char "[" c).
    { destruct (skip_ws r) as [|c' r'] eqn:Er; [exact I|].
      apply skip_ws_cons in Er.
      destruct (is_char "]" c'); [cbn; lia|].
      specialize (IHe r ltac:(lia)).
      destruct (parse_elements fuel r); cbn in *; trivial; lia. }
    destruct (is_quote c).
    { destruct (scan_string r) as [[t r']|] eqn:E; [|exact I].
      apply scan_string_length in E. cbn. lia. }
    assert (Hlit : forall word v, js word <> [] ->
              consumes s (literal word v (c :: r))).
    { intros word v Hw. pose proof (literal_consumes word v (c :: r) Hw) as H.
      destruct (literal word v (c :: r)); cbn in *; trivial; lia. }
    destruct (is_char "t" c); [now apply Hlit|].
    destruct (is_char "f" c); [now apply Hlit|].
    destruct (is_char "n" c); [now apply Hlit|].
    destruct (scan_number (c :: r)) as [[[m e] r']|] eqn:E; [|exact I].
    apply scan_number_length in E. cbn in *. lia.
  - cbn [parse_elements].
    specialize (IHv s ltac:(lia)).
    destruct (parse_value fuel s) as [v r| |]; cbn in IHv; trivial.
    destruct (skip_ws r) as [|c r'] eqn:Er; [exact I|].
    apply skip_ws_cons in Er.
    destruct (is_char "," c).
    { specialize (IHe r' ltac:(lia)).
      destruct (parse_elements fuel r'); cbn in *; trivial; lia. }
    destruct (is_char "]" c); cbn; trivial; lia.
  - cbn [parse_members].
    destruct (skip_ws s) as [|q r0] eqn:Es; [exact I|].
    apply skip_ws_cons in Es.
    destruct (is_quote q); [|exact I].
    destruct (scan_string r0) as [[k r1]|] eqn:Ek; [|exact I].
    apply scan_string_length in Ek.
    destruct (skip_ws r1) as [|c1 r2] eqn:E1; [exact I|].
    apply skip_ws_cons in E1.
    destruct (is_char ":" c1); [|exact I].
    specialize (IHv r2 ltac:(lia)).
    destruct (parse_value fuel r2) as [v r| |]; cbn in IHv; trivial.
    destruct (skip_ws r) as [|c r'] eqn:Er; [exact I|].
    apply skip_ws_cons in Er.
    destruct (is_char "," c).
    { specialize (IHm r' ltac:(lia)).
      destruct (parse_members fuel r'); cbn in *; trivial; lia. }
    destruct (is_char "}" c); cbn; trivial; lia.
Qed.

(** [parse] never reports a syntax error for want of fuel: the parser run
    by [parse] ends with a value or with a genuine error. *)
Lemma parse_value_total (s : jstring) : parse_value (parse_fuel s) s <> PFuel.
Proof.
  pose proof (proj1 (parse_fuel_enough (parse_fuel s)) s) as H.
  unfold parse_fuel in *. specialize (H ltac:(lia)).
  now destruct (parse_value _ s).
Qed.

(** More fuel does not change an outcome. *)
Lemma parse_fuel_more (fuel : nat) :
  (forall fuel' s, (fuel <= fuel')%nat -> parse_value fuel s <> PFuel ->
                   parse_value fuel' s = parse_value fuel s)
  /\ (forall fuel' s, (fuel <= fuel')%nat -> parse_elements fuel s <> PFuel ->
                      parse_elements fuel' s = parse_elements fuel s)
  /\ (forall fuel' s, (fuel <= fuel')%nat -> parse_members fuel s <> PFuel ->
                      parse_members fuel' s = parse_members fuel s).
Proof.
  induction fuel as [|fuel (IHv & IHe & IHm)];
    [repeat split; intros fuel' s _ H; now destruct H|].
  split; [|split]; intros [|fuel'] s Hle; try lia;
    apply Nat.succ_le_mono in Hle.
  - cbn [parse_value].
    destruct (skip_ws s) as [|c r]; trivial.
    destruct (is_char "{" c).
    { destruct (skip_ws r) as [|c' r']; trivial.
      destruct (is_char "}" c'); trivial. intros H.
      rewrite (IHm fuel' r Hle); [reflexivity|].
      now destruct (parse_members fuel r). }
    destruct (is_char "[" c); trivial.
    destruct (skip_ws r) as [|c' r']; trivial.
    destruct (is_char "]" c'); trivial. intros H.
    rewrite (IHe fuel' r Hle); [reflexivity|].
    now destruct (parse_elements fuel r).
  - cbn [parse_elements]. intros H.
    rewrite (IHv fuel' s Hle) by now destruct (parse_value fuel s).
    destruct (parse_value fuel s) as [v r| |]; trivial.
    destruct (skip_ws r) as [|c r']; trivial.
    destruct (is_char "," c); trivial.
    rewrite (IHe fuel' r' Hle); [reflexivity|].
    now destruct (parse_elements fuel r').
  - cbn [parse_members].
    destruct (skip_ws s) as [|q r0]; trivial.
    destruct (is_quote q); trivial.
    destruct (scan_string r0) as [[k r1]|]; trivial.
    destruct (skip_ws r1) as [|c1 r2]; trivial.
    destruct (is_char ":" c1); trivial. intros H.
    rewrite (IHv fuel' r2 Hle) by now destruct (parse_value fuel r2).
    destruct (parse_value fuel r2) as [v r| |]; trivial.
    destruct (skip_ws r) as [|c r']; trivial.
    destruct (is_char "," c); trivial.
    rewrite (IHm fuel' r' Hle); [reflexivity|].
    now destruct (parse_members fuel r').
Qed.

End ParseFuel.

(** ** localStorage: reading back, and room *)

Module StorageFacts.

Lemma setItem_fits (k v : jstring) (st : Storage) :
  fits k v st ->
  setItem k v st = Normal {| items := <[k := v]> (items st); quota := quota st |}.
Proof. intros H. unfold setItem. now destruct (decide (fits k v st)). Qed.

Lemma setItem_full (k v : jstring) (st : Storage) :
  ~ fits k v st -> setItem k v st = Throw QuotaExceededError.
Proof. intros H. unfold setItem. now destruct (decide (fits k v st)). Qed.

Lemma getItem_setItem (k v : jstring) (st st' : Storage) :
  setItem k v st = Normal st' -> getItem k st' = Some v.
Proof.
  unfold setItem. destruct (decide (fits k v st)); [|discriminate].
  intros [= <-]. unfold getItem. cbn. apply lookup_insert_eq.
Qed.

Lemma used_insert (k v : jstring) (m : gmap jstring jstring) :
  used (<[k := v]> m) = (length k + length v + used (delete k m))%nat.
Proof.
  rewrite <- (insert_delete_eq m k v). unfold used.
  rewrite map_fold_insert_L.
  - reflexivity.
  - intros. lia.
  - apply lookup_delete_eq.
Qed.

Lemma fits_shorter (k v v' : jstring) (st : Storage) :
  (length v <= length v')%nat -> fits k v' st -> fits k v st.
Proof. unfold fits. rewrite !used_insert. lia. Qed.

Lemma fits_overwritten (k u v : jstring) (st : Storage) :
  fits k v {| items := <[k := u]> (items st); quota := quota st |}
  <-> fits k v st.
Proof. unfold fits. cbn. now rewrite insert_insert_eq. Qed.

End StorageFacts.

(** ** The favorites service on a stored [Favorite[]] *)

Module FavoritesFacts.
Import JSON Favorites JSONFacts StorageFacts.

Lemma to_json_inj (f g : Favorite.t) :
  Favorite.to_json f = Favorite.to_json g -> f = g.
Proof. destruct f, g. unfold Favorite.to_json. cbn. congruence. Qed.

Lemma array_inj (l l' : list Favorite.t) :
  Favorite.array l = Favorite.array l' -> l = l'.
Proof.
  unfold Favorite.array. intros [= H]. revert l' H.
  induction l as [|f l IH]; intros [|g l'] H; try discriminate; trivial.
  cbn [map] in H.
  pose proof (f_equal (hd JNull) H) as Hf.
  pose proof (f_equal (@tl _) H) as Hl. cbn [hd tl] in Hf, Hl.
  apply to_json_inj in Hf. subst g.
  f_equal. now apply IH.
Qed.

Lemma strict_equals_id (z n : Z) :
  strict_equals (Some (JNum z 0)) n = (z =? n)%Z.
Proof.
  unfold strict_equals, normalize. cbn. rewrite Z.mul_1_r.
  now rewrite andb_true_r.
Qed.

Lemma prop_id_favorite (f : Favorite.t) :
  prop_id (Favorite.to_json f) = Normal (Some (JNum (Favorite.id f) 0)).
Proof. reflexivity. Qed.

Lemma Array_some_favorites (n : Z) (l : list Favorite.t) :
  Array_some
    (fun fav =>
       match prop_id fav with
       | Normal x => Normal (strict_equals x n)
       | Throw e => Throw e
       end) (map Favorite.to_json l)
  = Normal (existsb (fun f => (Favorite.id f =? n)%Z) l).
Proof.
  induction l as [|f l IH]; [reflexivity|].
  cbn [map Array_some existsb]. rewrite prop_id_favorite, strict_equals_id.
  destruct (Favorite.id f =? n)%Z; [reflexivity | exact IH].
Qed.

Lemma Array_filter_favorites (n : Z) (l : list Favorite.t) :
  Array_filter
    (fun fav =>
       match prop_id fav with
       | Normal x => Normal (negb (strict_equals x n))
       | Throw e => Throw e
       end) (map Favorite.to_json l)
  = Normal (map Favorite.to_json
              (List.filter (fun f => negb (Favorite.id f =? n)%Z) l)).
Proof.
  induction l as [|f l IH]; [reflexivity|].
  cbn [map Array_filter List.filter].
  rewrite prop_id_favorite, strict_equals_id, IH.
  now destruct (Favorite.id f =? n)%Z.
Qed.

Lemma forEach_quiet (ls : list Listener) (v : value) (tr : list event) :
  Forall (fun l => throws l v = false) ls ->
  forEach ls v tr = (tr ++ map (fun l => Called (lid l) v) ls, None).
Proof.
  intros H. revert tr. induction H as [|l ls Hl _ IH]; intros tr.
  - cbn. now rewrite app_nil_r.
  - cbn [forEach map]. rewrite Hl, IH. now rewrite <- app_assoc.
Qed.

Lemma calls_app (tr tr' : list event) : calls (tr ++ tr') = calls tr ++ calls tr'.
Proof.
  induction tr as [|[l v|m] tr IH]; cbn; [reflexivity| |exact IH].
  now rewrite IH.
Qed.

Lemma calls_called (ls : list Listener) (v : value) :
  calls (map (fun l => Called (lid l) v) ls) = map (fun l => (lid l, v)) ls.
Proof. induction ls as [|l ls IH]; cbn; [reflexivity | now rewrite IH]. Qed.

Section Service.

Variable storageKey : jstring.

Abbreviation getFavorites := (getFavorites storageKey).
Abbreviation writeFavorites := (writeFavorites storageKey).
Abbreviation addFavorite := (addFavorite storageKey).
Abbreviation removeFavorite := (removeFavorite storageKey).
Abbreviation clearAllFavorites := (clearAllFavorites storageKey).
Abbreviation holds := (holds storageKey).

(** What [getFavorites] returns depends on the storage only, and it leaves
    the storage and the listeners alone. *)
Lemma getFavorites_storage (w w' : World) :
  localStorage w = localStorage w' ->
  fst (getFavorites w) = fst (getFavorites w').
Proof.
  intros H. unfold Favorites.getFavorites. rewrite H.
  destruct (getItem storageKey (localStorage w')) as [[|c s]|]; trivial.
  now destruct (parse (c :: s)).
Qed.

Lemma getFavorites_world (w : World) :
  snd (getFavorites w) = w
  \/ snd (getFavorites w) = console_error "Erro ao ler favoritos:" w.
Proof.
  unfold Favorites.getFavorites.
  destruct (getItem storageKey (localStorage w)) as [[|c s]|]; auto.
  destruct (parse (c :: s)); auto.
Qed.

Lemma getFavorites_localStorage (w : World) :
  localStorage (snd (getFavorites w)) = localStorage w.
Proof. now destruct (getFavorites_world w) as [-> | ->]. Qed.

Lemma getFavorites_listeners (w : World) :
  listeners (snd (getFavorites w)) = listeners w.
Proof. now destruct (getFavorites_world w) as [-> | ->]. Qed.

Lemma getFavorites_calls (w : World) :
  calls (trace (snd (getFavorites w))) = calls (trace w).
Proof.
  destruct (getFavorites_world w) as [-> | ->]; [reflexivity|].
  cbn. rewrite calls_app. cbn. apply app_nil_r.
Qed.

Lemma getFavorites_stored (w : World) (l : list Favorite.t) :
  getItem storageKey (localStorage w) = Some (stringify (Favorite.array l)) ->
  getFavorites w = (Favorite.array l, w).
Proof.
  intros H. unfold Favorites.getFavorites. rewrite H.
  destruct (stringify_favorites_nonempty l) as (c & s & E).
  rewrite E, <- E. now rewrite parse_stringify_favorites.
Qed.

Lemma holds_snd (w : World) (l : list Favorite.t) :
  holds w l -> holds (snd (getFavorites w)) l.
Proof.
  unfold Favorites.holds. intros <-. apply getFavorites_storage.
  apply getFavorites_localStorage.
Qed.

(** A read that finds entries logs nothing. *)
Lemma holds_nonempty (w : World) (l : list Favorite.t) :
  holds w l -> l <> [] -> snd (getFavorites w) = w.
Proof.
  unfold Favorites.holds, Favorites.getFavorites. intros H Hl.
  destruct (getItem storageKey (localStorage w)) as [[|c s]|]; trivial.
  destruct (parse (c :: s)); trivial.
  cbn in H. change (JArr []) with (Favorite.array []) in H.
  apply array_inj in H. congruence.
Qed.

Lemma holds_inj (w : World) (l l' : list Favorite.t) :
  holds w l -> holds w l' -> l = l'.
Proof. unfold Favorites.holds. intros -> H. now apply array_inj. Qed.

(** *** writeFavorites *)

Lemma writeFavorites_rejected (v : value) (w : World) :
  ~ fits storageKey (stringify v) (localStorage w) ->
  writeFavorites v w = console_error "Erro ao salvar favoritos:" w.
Proof.
  intros H. unfold Favorites.writeFavorites. now rewrite setItem_full.
Qed.

Lemma writeFavorites_localStorage (v : value) (w : World) :
  fits storageKey (stringify v) (localStorage w) ->
  localStorage (writeFavorites v w)
  = {| items := <[storageKey := stringify v]> (items (localStorage w));
       quota := quota (localStorage w) |}.
Proof.
  intros H. unfold Favorites.writeFavorites. rewrite setItem_fits by exact H.
  now destruct (forEach (listeners w) v (trace w)) as [tr [e|]].
Qed.

Lemma writeFavorites_listeners (v : value) (w : World) :
  listeners (writeFavorites v w) = listeners w.
Proof.
  unfold Favorites.writeFavorites.
  destruct (setItem storageKey (stringify v) (localStorage w)); [|reflexivity].
  now destruct (forEach (listeners w) v (trace w)) as [tr [e|]].
Qed.

Lemma writeFavorites_quota (v : value) (w : World) :
  quota (localStorage (writeFavorites v w)) = quota (localStorage w).
Proof.
  destruct (decide (fits storageKey (stringify v) (localStorage w))) as [H|H].
  - now rewrite writeFavorites_localStorage.
  - now rewrite writeFavorites_rejected.
Qed.

Lemma writeFavorites_trace (v : value) (w : World) :
  fits storageKey (stringify v) (localStorage w) ->
  Forall (fun l => throws l v = false) (listeners w) ->
  trace (writeFavorites v w)
  = trace w ++ map (fun l => Called (lid l) v) (listeners w).
Proof.
  intros H Hq. unfold Favorites.writeFavorites.
  rewrite setItem_fits by exact H. now rewrite forEach_quiet.
Qed.

Lemma writeFavorites_holds (l : list Favorite.t) (w : World) :
  fits storageKey (stringify (Favorite.array l)) (localStorage w) ->
  holds (writeFavorites (Favorite.array l) w) l.
Proof.
  intros H. unfold Favorites.holds.
  rewrite (getFavorites_stored _ l); [reflexivity|].
  rewrite writeFavorites_localStorage by exact H.
  unfold getItem. cbn. apply lookup_insert_eq.
Qed.

Lemma writeFavorites_rejected_holds (v : value) (l : list Favorite.t) (w : World) :
  ~ fits storageKey (stringify v) (localStorage w) ->
  holds w l -> holds (writeFavorites v w) l.
Proof.
  intros H Hl. rewrite writeFavorites_rejected by exact H.
  unfold Favorites.holds in *. rewrite <- Hl. now apply getFavorites_storage.
Qed.

(** *** addFavorite and removeFavorite on a stored collection *)

Lemma addFavorite_holds (post : Post.t) (now : Z) (w : World)
    (l : list Favorite.t) :
  holds w l ->
  addFavorite post now w
  = if existsb (fun f => (Favorite.id f =? Post.id post)%Z) l
    then (Normal false, snd (getFavorites w))
    else (Normal true,
          writeFavorites (Favorite.array (newFavorite post now :: l))
            (snd (getFavorites w))).
Proof.
  unfold Favorites.holds, Favorites.addFavorite. intros H.
  destruct (getFavorites w) as [favorites w1]. cbn [fst snd] in *. subst.
  unfold Favorite.array. rewrite Array_some_favorites.
  now destruct (existsb _ l).
Qed.

Lemma removeFavorite_holds (id : Z) (w : World) (l : list Favorite.t) :
  holds w l ->
  removeFavorite id w
  = (Normal tt,
     writeFavorites
       (Favorite.array (List.filter (fun f => negb (Favorite.id f =? id)%Z) l))
       (snd (getFavorites w))).
Proof.
  unfold Favorites.holds, Favorites.removeFavorite. intros H.
  destruct (getFavorites w) as [favorites w1]. cbn [fst snd] in *. subst.
  unfold Favorite.array. now rewrite Array_filter_favorites.
Qed.

Lemma existsb_id (n : Z) (l : list Favorite.t) :
  existsb (fun f => (Favorite.id f =? n)%Z) l = true
  <-> In n (map Favorite.id l).
Proof.
  rewrite existsb_exists, in_map_iff. split.
  - intros (f & Hf & E). apply Z.eqb_eq in E. eauto.
  - intros (f & E & Hf). exists f. split; [exact Hf | now apply Z.eqb_eq].
Qed.

End Service.

End FavoritesFacts.

(** ** The favorites registry: claims *)

Module FavoritesSpec.
Import JSON Favorites JSONFacts StorageFacts FavoritesFacts.

Lemma NoDup_keep (id : Z) (l : list Favorite.t) :
  List.NoDup (map Favorite.id l) -> List.NoDup (map Favorite.id (keep id l)).
Proof.
  induction l as [|f l IH]; cbn; [trivial|]. intros H.
  apply NoDup_cons_iff in H. destruct H as [Hf Hl].
  destruct (Favorite.id f =? id)%Z; cbn; [now apply IH|].
  constructor; [|now apply IH].
  rewrite in_map_iff in *. intros (g & E & Hg). apply Hf.
  exists g. split; [exact E|]. unfold keep in Hg.
  now apply filter_In in Hg.
Qed.

Lemma keep_absent (id : Z) (l : list Favorite.t) :
  ~ In id (map Favorite.id (keep id l)).
Proof.
  rewrite in_map_iff. intros (f & E & Hf). unfold keep in Hf.
  apply filter_In in Hf. destruct Hf as [_ Hf].
  apply negb_true_iff, Z.eqb_neq in Hf. congruence.
Qed.

Lemma keep_id (id : Z) (l : list Favorite.t) :
  ~ In id (map Favorite.id l) -> keep id l = l.
Proof.
  induction l as [|f l IH]; cbn; [trivial|]. intros H.
  destruct (Favorite.id f =? id)%Z eqn:E.
  - apply Z.eqb_eq in E. tauto.
  - cbn. f_equal. apply IH. tauto.
Qed.

Lemma keep_length (id : Z) (l : list Favorite.t) :
  List.NoDup (map Favorite.id l) -> In id (map Favorite.id l) ->
  S (length (keep id l)) = length l.
Proof.
  induction l as [|f l IH]; cbn; [tauto|]. intros H Hin.
  apply NoDup_cons_iff in H. destruct H as [Hf Hl].
  destruct (Favorite.id f =? id)%Z eqn:E; cbn.
  - apply Z.eqb_eq in E. subst id. fold (keep (Favorite.id f) l).
    now rewrite keep_id.
  - apply Z.eqb_neq in E. f_equal. apply IH; [exact Hl | tauto].
Qed.

Lemma length_stringify_app (l' l : list Favorite.t) :
  (length (stringify (Favorite.array l))
   <= length (stringify (Favorite.array (l' ++ l))))%nat.
Proof.
  induction l' as [|f l' IH]; cbn [app]; [lia|].
  pose proof (length_stringify_cons f (l' ++ l)). lia.
Qed.

Section Service.

Variable storageKey : jstring.

Abbreviation getFavorites := (getFavorites storageKey).
Abbreviation writeFavorites := (writeFavorites storageKey).
Abbreviation addFavorite := (addFavorite storageKey).
Abbreviation removeFavorite := (removeFavorite storageKey).
Abbreviation clearAllFavorites := (clearAllFavorites storageKey).
Abbreviation holds := (holds storageKey).
Abbreviation step := (step storageKey).
Abbreviation run := (run storageKey).

Lemma writeFavorites_invariant (l l' : list Favorite.t) (w : World) :
  holds w l -> List.NoDup (map Favorite.id l) -> List.NoDup (map Favorite.id l') ->
  exists l'', holds (writeFavorites (Favorite.array l') w) l''
              /\ List.NoDup (map Favorite.id l'').
Proof.
  intros Hl Hn Hn'.
  destruct (decide (fits storageKey (stringify (Favorite.array l'))
                      (localStorage w))) as [Hfit|Hfull].
  - exists l'. split; [now apply writeFavorites_holds | exact Hn'].
  - exists l. split; [now apply writeFavorites_rejected_holds | exact Hn].
Qed.

Lemma step_invariant (o : op) (w : World) (l : list Favorite.t) :
  holds w l -> List.NoDup (map Favorite.id l) ->
  exists w' l', step o w = Some w' /\ holds w' l'
                /\ List.NoDup (map Favorite.id l').
Proof.
  intros Hl Hn. pose proof (holds_snd _ _ _ Hl) as Hl1.
  destruct o as [post now|id| |ls|ls]; cbn [Favorites.step].
  - rewrite (addFavorite_holds _ _ _ _ l Hl).
    destruct (existsb _ l) eqn:E.
    + eauto.
    + destruct (writeFavorites_invariant l (newFavorite post now :: l)
                  _ Hl1 Hn) as (l'' & H1 & H2); [|eauto].
      cbn. constructor; [|exact Hn].
      intros Hin. apply existsb_id in Hin. congruence.
  - rewrite (removeFavorite_holds _ _ _ l Hl).
    destruct (writeFavorites_invariant l (keep id l) _ Hl1 Hn)
      as (l'' & H1 & H2); [now apply NoDup_keep | eauto].
  - destruct (writeFavorites_invariant l [] _ Hl Hn) as (l'' & H1 & H2);
      [constructor | eauto].
  - exists (onChange ls w), l. repeat split; trivial.
    unfold Favorites.holds in *. rewrite <- Hl.
    apply getFavorites_storage. unfold onChange.
    now destruct (bool_decide _).
  - exists (unsubscribe ls w), l. repeat split; trivial.
    unfold Favorites.holds in *. rewrite <- Hl.
    now apply getFavorites_storage.
Qed.

(** C1. Whatever sequence of addFavorite, removeFavorite and
    clearAllFavorites calls (and subscriptions) is made on an empty
    collection, no call throws and the collection that results has no two
    entries with the same id. *)
Theorem ids_unique (ops : list op) (w0 : World) :
  holds w0 [] ->
  exists w l, run ops w0 = Some w /\ holds w l /\ List.NoDup (map Favorite.id l).
Proof.
  intros H0.
  assert (Hgen : forall ops w l, holds w l -> List.NoDup (map Favorite.id l) ->
            exists w' l', run ops w = Some w' /\ holds w' l'
                          /\ List.NoDup (map Favorite.id l')).
  { clear. induction ops as [|o ops IH]; intros w l Hl Hn; cbn.
    - eauto.
    - destruct (step_invariant o w l Hl Hn) as (w' & l' & -> & Hl' & Hn').
      eauto. }
  apply (Hgen ops w0 [] H0). constructor.
Qed.

Lemma adds_from (posts : list (Post.t * Z)) (w : World) (l0 : list Favorite.t) :
  holds w l0 ->
  List.NoDup (map Favorite.id (added posts ++ l0)) ->
  fits storageKey (stringify (Favorite.array (added posts ++ l0)))
    (localStorage w) ->
  exists w', run (addAll posts) w = Some w' /\ holds w' (added posts ++ l0).
Proof.
  revert w l0. induction posts as [|[post now] posts IH]; intros w l0 Hl Hn Hfit.
  - cbn. eauto.
  - unfold added in *. cbn [map rev fst snd] in *.
    rewrite <- app_assoc in *. cbn [app] in *.
    set (f := newFavorite post now) in *.
    set (l1 := rev (map (fun c => newFavorite (fst c) (snd c)) posts)) in *.
    assert (Hnew : existsb (fun g => (Favorite.id g =? Post.id post)%Z) l0
                   = false).
    { apply not_true_is_false. rewrite existsb_id. intros Hin.
      rewrite map_app in Hn. cbn [map] in Hn.
      apply NoDup_remove_2 in Hn. apply Hn, in_or_app. now right. }
    cbn [addAll map Favorites.run Favorites.step fst snd].
    rewrite (addFavorite_holds _ _ _ _ l0 Hl), Hnew. fold f.
    set (w1 := snd (getFavorites w)).
    assert (Hs1 : localStorage w1 = localStorage w)
      by apply getFavorites_localStorage.
    assert (Hfit1 : fits storageKey (stringify (Favorite.array (f :: l0)))
                      (localStorage w1)).
    { rewrite Hs1. eapply fits_shorter; [|exact Hfit].
      apply (length_stringify_app l1 (f :: l0)). }
    apply IH.
    + now apply writeFavorites_holds.
    + exact Hn.
    + rewrite writeFavorites_localStorage by exact Hfit1.
      apply fits_overwritten. now rewrite Hs1.
Qed.

(** C2, amended. Starting from an empty collection, addFavorite calls whose
    posts have pairwise distinct ids leave, when the store has room for the
    result, exactly the new favorites, the most recently added first. *)
Theorem adds_newest_first (posts : list (Post.t * Z)) (w0 : World) :
  holds w0 [] ->
  List.NoDup (map (fun c => Post.id (fst c)) posts) ->
  fits storageKey (stringify (Favorite.array (added posts))) (localStorage w0) ->
  exists w, run (addAll posts) w0 = Some w /\ holds w (added posts).
Proof.
  intros H0 Hn Hfit.
  destruct (adds_from posts w0 [] H0) as (w & Hrun & Hw).
  - rewrite app_nil_r. unfold added. rewrite map_rev, map_map. cbn.
    now apply NoDup_rev.
  - now rewrite app_nil_r.
  - rewrite app_nil_r in Hw. eauto.
Qed.

(** C3. addFavorite with a post whose id is already in the collection
    returns false and changes nothing: the storage is as it was and no
    listener has been called. *)
Theorem add_existing_noop (post : Post.t) (now : Z) (w : World)
    (l : list Favorite.t) :
  holds w l ->
  In (Post.id post) (map Favorite.id l) ->
  addFavorite post now w = (Normal false, w).
Proof.
  intros Hl Hin. rewrite (addFavorite_holds _ _ _ _ l Hl).
  apply existsb_id in Hin. rewrite Hin.
  rewrite (holds_nonempty _ _ l Hl); [reflexivity|].
  intros ->. discriminate.
Qed.

Lemma writeFavorites_failed (v : value) (w : World) :
  ~ fits storageKey (stringify v) (localStorage (snd (getFavorites w))) ->
  write_failed w (writeFavorites v (snd (getFavorites w))).
Proof.
  intros H. rewrite writeFavorites_rejected by exact H.
  unfold write_failed, console_error. cbn [localStorage listeners trace].
  repeat split.
  - apply getFavorites_localStorage.
  - apply getFavorites_listeners.
  - rewrite calls_app. cbn. rewrite app_nil_r. apply getFavorites_calls.
  - apply last_snoc.
Qed.

(** C4, amended. When the store rejects the write, addFavorite,
    removeFavorite and clearAllFavorites still return normally (addFavorite
    returns true), the error goes to the console only, and no listener is
    called. For addFavorite and removeFavorite, which read the collection
    and compare ids, the ids and timestamps stored and given are safe
    integers. *)
Theorem persist_failure_silent (w : World) (l : list Favorite.t) :
  holds w l ->
  (forall post now,
      Safe.favorites l = true ->
      Safe.post post = true ->
      Safe.isSafeInteger now = true ->
      ~ In (Post.id post) (map Favorite.id l) ->
      ~ fits storageKey
          (stringify (Favorite.array (newFavorite post now :: l)))
          (localStorage w) ->
      exists w', addFavorite post now w = (Normal true, w')
                 /\ write_failed w w')
  /\ (forall id,
        Safe.favorites l = true ->
        Safe.isSafeInteger id = true ->
        ~ fits storageKey (stringify (Favorite.array (keep id l)))
            (localStorage w) ->
        exists w', removeFavorite id w = (Normal tt, w') /\ write_failed w w')
  /\ (~ fits storageKey (stringify (Favorite.array [])) (localStorage w) ->
      write_failed w (clearAllFavorites w)
      /\ clearAllFavorites w = console_error "Erro ao salvar favoritos:" w).
Proof.
  intros Hl. split; [|split].
  - intros post now _ _ _ Hnew Hfull.
    rewrite (addFavorite_holds _ _ _ _ l Hl).
    rewrite (not_true_is_false _ (fun H => Hnew (proj1 (existsb_id _ _) H))).
    eexists. split; [reflexivity|]. apply writeFavorites_failed.
    now rewrite getFavorites_localStorage.
  - intros id _ _ Hfull. rewrite (removeFavorite_holds _ _ _ l Hl).
    eexists. split; [reflexivity|]. apply writeFavorites_failed.
    now rewrite getFavorites_localStorage.
  - intros Hfull.
    assert (E : clearAllFavorites w
                = console_error "Erro ao salvar favoritos:" w)
      by now apply writeFavorites_rejected.
    split; [|exact E]. rewrite E. unfold write_failed, console_error.
    cbn [localStorage listeners trace]. repeat split.
    + rewrite calls_app. cbn. apply app_nil_r.
    + apply last_snoc.
Qed.

(** What getFavorites returns, by what is stored. With no stored value,
    or with one that is not JSON text, it is the empty array, and the parse
    error goes to the console only. A stored value that is JSON text
    comes back as parsed: the result is not checked to be an array, against
    the declared result type. *)
Theorem read_fail_open (w : World) :
  (getItem storageKey (localStorage w) = None ->
   getFavorites w = (JArr [], w))
  /\ (forall s e,
        getItem storageKey (localStorage w) = Some s ->
        parse s = Throw e ->
        getFavorites w
        = (JArr [],
           match s with
           | [] => w
           | _ :: _ => console_error "Erro ao ler favoritos:" w
           end))
  /\ (forall s v,
        getItem storageKey (localStorage w) = Some s ->
        parse s = Normal v ->
        getFavorites w = (v, w)).
Proof.
  unfold Favorites.getFavorites. repeat split.
  - now intros ->.
  - intros s e -> Hp. destruct s as [|c s]; [reflexivity | now rewrite Hp].
  - intros s v -> Hp. destruct s as [|c s]; [discriminate | now rewrite Hp].
Qed.

(** C6, amended. On a collection without duplicate ids, the ids and
    timestamps stored and the id given being safe integers, when the store
    accepts the write and no listener throws, removeFavorite leaves no entry
    with the id, takes exactly one entry away if the id was there and none
    otherwise, and calls every listener exactly once, in order, with the
    resulting collection. *)
Theorem remove_one_notify_once (id : Z) (w : World) (l : list Favorite.t) :
  holds w l ->
  Safe.favorites l = true ->
  Safe.isSafeInteger id = true ->
  List.NoDup (map Favorite.id l) ->
  fits storageKey (stringify (Favorite.array (keep id l))) (localStorage w) ->
  Forall (fun ls => throws ls (Favorite.array (keep id l)) = false)
    (listeners w) ->
  exists w' l',
    removeFavorite id w = (Normal tt, w')
    /\ holds w' l'
    /\ ~ In id (map Favorite.id l')
    /\ (In id (map Favorite.id l) -> S (length l') = length l)
    /\ (~ In id (map Favorite.id l) -> l' = l)
    /\ calls (trace w')
       = calls (trace w)
         ++ map (fun ls => (lid ls, Favorite.array l')) (listeners w).
Proof.
  intros Hl _ _ Hn Hfit Hquiet.
  exists (writeFavorites (Favorite.array (keep id l)) (snd (getFavorites w))),
    (keep id l).
  assert (Hs1 : localStorage (snd (getFavorites w)) = localStorage w)
    by apply getFavorites_localStorage.
  repeat split.
  - apply (removeFavorite_holds _ _ _ l Hl).
  - apply writeFavorites_holds. now rewrite Hs1.
  - apply keep_absent.
  - now apply keep_length.
  - apply keep_id.
  - rewrite writeFavorites_trace.
    + rewrite calls_app, calls_called, getFavorites_calls.
      now rewrite getFavorites_listeners.
    + now rewrite Hs1.
    + now rewrite getFavorites_listeners.
Qed.

(** C7, amended. A collection written by writeFavorites, when the store
    accepts the write, is read back by getFavorites entry for entry, without
    anything logged. *)
Theorem write_then_read (l : list Favorite.t) (w : World) :
  fits storageKey (stringify (Favorite.array l)) (localStorage w) ->
  getFavorites (writeFavorites (Favorite.array l) w)
  = (Favorite.array l, writeFavorites (Favorite.array l) w).
Proof.
  intros Hfit. apply getFavorites_stored.
  rewrite writeFavorites_localStorage by exact Hfit.
  unfold getItem. cbn. apply lookup_insert_eq.
Qed.

(** C9, amended. When the post's id is not in the collection and the store
    accepts the write, the ids and timestamps stored, the post's id and the
    time of the call being safe integers, addFavorite returns true and the
    collection that results has the new favorite at position 0 and every
    earlier entry, unchanged, one position later. *)
Theorem add_new_frame (post : Post.t) (now : Z) (w : World)
    (l : list Favorite.t) :
  holds w l ->
  Safe.favorites l = true ->
  Safe.post post = true ->
  Safe.isSafeInteger now = true ->
  ~ In (Post.id post) (map Favorite.id l) ->
  fits storageKey (stringify (Favorite.array (newFavorite post now :: l)))
    (localStorage w) ->
  exists w' l',
    addFavorite post now w = (Normal true, w')
    /\ holds w' l'
    /\ l' !! 0%nat = Some (newFavorite post now)
    /\ (forall i : nat, l' !! S i = l !! i)
    /\ length l' = S (length l).
Proof.
  intros Hl _ _ _ Hnew Hfit.
  exists (writeFavorites (Favorite.array (newFavorite post now :: l))
            (snd (getFavorites w))), (newFavorite post now :: l).
  repeat split.
  - rewrite (addFavorite_holds _ _ _ _ l Hl).
    now rewrite (not_true_is_false _
                   (fun H => Hnew (proj1 (existsb_id _ _) H))).
  - apply writeFavorites_holds. now rewrite getFavorites_localStorage.
Qed.

End Service.

End FavoritesSpec.

Module FavoritesExamples.
Import JSON Favorites FavoritesSpec Examples.

(** Tokyo, then Paris: Paris is listed first; each call ran the listener. *)
Example tokyo_then_paris :
  getFavorites STORAGE_KEY two_saved
  = (Favorite.array
       [{| Favorite.id := 42; Favorite.title := js "Paris";
           Favorite.timestamp := 200 |};
        {| Favorite.id := 7; Favorite.title := js "Tokyo";
           Favorite.timestamp := 100 |}], two_saved)
  /\ map fst (calls (trace two_saved)) = [1%nat; 1%nat].
Proof. split; vm_compute; reflexivity. Qed.

(** Tokyo twice: the second call returns false and one entry is listed. *)
Example tokyo_twice :
  let w1 := snd (addFavorite STORAGE_KEY tokyo 100 (world 1000 [])) in
  fst (addFavorite STORAGE_KEY tokyo 300 w1) = Normal false
  /\ holds STORAGE_KEY (snd (addFavorite STORAGE_KEY tokyo 300 w1))
       [newFavorite tokyo 100].
Proof. split; vm_compute; reflexivity. Qed.

(** removeFavorite(999) on an empty collection, with room in the store: it
    stays empty and the listener is called once, with the empty array. *)
Example remove_absent_notifies :
  let w1 := snd (removeFavorite STORAGE_KEY 999 (world 1000 [observer 1])) in
  holds STORAGE_KEY w1 [] /\ calls (trace w1) = [(1%nat, JArr [])].
Proof. split; vm_compute; reflexivity. Qed.

(** [ids_unique] on a run that adds, adds again, removes, subscribes and
    clears. *)
Lemma ids_unique_witness :
  exists w l,
    run STORAGE_KEY
      [AddFavorite tokyo 100; AddFavorite paris 200; AddFavorite tokyo 300;
       RemoveFavorite 42; OnChange (observer 2); ClearAllFavorites;
       AddFavorite paris 400] (world 1000 [observer 1]) = Some w
    /\ holds STORAGE_KEY w l /\ List.NoDup (map Favorite.id l).
Proof.
  apply (ids_unique STORAGE_KEY). vm_compute. reflexivity.
Defined.

(** [adds_newest_first] for Tokyo and then Paris. *)
Lemma adds_newest_first_witness :
  exists w,
    run STORAGE_KEY (addAll [(tokyo, 100%Z); (paris, 200%Z)])
      (world 1000 [observer 1]) = Some w
    /\ holds STORAGE_KEY w (added [(tokyo, 100%Z); (paris, 200%Z)]).
Proof.
  apply (adds_newest_first STORAGE_KEY).
  - vm_compute. reflexivity.
  - cbn. repeat constructor; cbn; intuition discriminate.
  - unfold fits. vm_compute. lia.
Defined.

(** C2 as stated fails: on a store with no room, addFavorite returns true
    and the collection is still empty. *)
Lemma adds_full_store :
  holds STORAGE_KEY (world 0 []) []
  /\ List.NoDup (map (fun c : Post.t * Z => Post.id (fst c)) [(tokyo, 100%Z)])
  /\ exists w,
       run STORAGE_KEY (addAll [(tokyo, 100%Z)]) (world 0 []) = Some w
       /\ holds STORAGE_KEY w []
       /\ ~ holds STORAGE_KEY w (added [(tokyo, 100%Z)]).
Proof.
  split; [vm_compute; reflexivity|].
  split; [repeat constructor; cbn; tauto|].
  eexists. split; [vm_compute; reflexivity|].
  split; [vm_compute; reflexivity|].
  intros H. vm_compute in H. discriminate.
Qed.

(** [add_existing_noop]: Tokyo once more, after Tokyo and Paris. *)
Lemma add_existing_noop_witness :
  addFavorite STORAGE_KEY tokyo 300 two_saved = (Normal false, two_saved).
Proof.
  apply (add_existing_noop STORAGE_KEY tokyo 300 two_saved
           (added [(tokyo, 100%Z); (paris, 200%Z)])).
  - vm_compute. reflexivity.
  - cbn. tauto.
Defined.

(** [persist_failure_silent] on a store with no room. *)
Lemma persist_failure_silent_witness :
  (exists w', addFavorite STORAGE_KEY tokyo 100 (world 0 [observer 1])
              = (Normal true, w')
              /\ write_failed (world 0 [observer 1]) w')
  /\ (exists w', removeFavorite STORAGE_KEY 7 (world 0 [observer 1])
                 = (Normal tt, w')
                 /\ write_failed (world 0 [observer 1]) w')
  /\ write_failed (world 0 [observer 1])
       (clearAllFavorites STORAGE_KEY (world 0 [observer 1])).
Proof.
  assert (H0 : holds STORAGE_KEY (world 0 [observer 1]) [])
    by (vm_compute; reflexivity).
  destruct (persist_failure_silent STORAGE_KEY (world 0 [observer 1]) [] H0)
    as (Hadd & Hremove & Hclear).
  split; [|split].
  - apply Hadd; [reflexivity|reflexivity|reflexivity|cbn; tauto|].
    unfold fits. vm_compute. lia.
  - apply Hremove; [reflexivity|reflexivity|]. unfold fits. vm_compute. lia.
  - apply Hclear. unfold fits. vm_compute. lia.
Defined.

(** C4 as stated fails: the store rejects each write, every call returns
    normally, and the subscribed listener is never called. *)
Lemma full_store_no_notification :
  let w := world 0 [observer 1] in
  ~ fits STORAGE_KEY (stringify (JArr [])) (localStorage w)
  /\ calls (trace (clearAllFavorites STORAGE_KEY w)) = []
  /\ calls (trace (clearAllFavorites STORAGE_KEY w)) <> [(1%nat, JArr [])]
  /\ fst (removeFavorite STORAGE_KEY 7 w) = Normal tt
  /\ calls (trace (snd (removeFavorite STORAGE_KEY 7 w))) = []
  /\ fst (addFavorite STORAGE_KEY tokyo 100 w) = Normal true
  /\ calls (trace (snd (addFavorite STORAGE_KEY tokyo 100 w))) = []
  /\ trace (snd (addFavorite STORAGE_KEY tokyo 100 w))
     = [ConsoleError (js "Erro ao salvar favoritos:")].
Proof.
  cbv zeta. split; [unfold fits; vm_compute; lia|].
  split; [vm_compute; reflexivity|].
  split; [intros H; vm_compute in H; discriminate|].
  repeat split; vm_compute; reflexivity.
Qed.

(** [read_fail_open]: nothing stored, a text that is not JSON, a JSON text. *)
Lemma read_fail_open_witness :
  getFavorites STORAGE_KEY (world 0 []) = (JArr [], world 0 [])
  /\ getFavorites STORAGE_KEY (world_with "not json" 100)
     = (JArr [],
        console_error "Erro ao ler favoritos:" (world_with "not json" 100))
  /\ getFavorites STORAGE_KEY (world_with "[1, 2]" 100)
     = (JArr [JNum 1 0; JNum 2 0], world_with "[1, 2]" 100).
Proof.
  split; [|split].
  - apply (read_fail_open STORAGE_KEY (world 0 [])). reflexivity.
  - apply (proj1 (proj2 (read_fail_open STORAGE_KEY
                           (world_with "not json" 100)))
             (js "not json") SyntaxError);
      vm_compute; reflexivity.
  - apply (proj2 (proj2 (read_fail_open STORAGE_KEY
                           (world_with "[1, 2]" 100)))
             (js "[1, 2]")); vm_compute; reflexivity.
Defined.

(** C5. With the text 42 stored, which is JSON but no Favorite[],
    getFavorites returns the number 42 and not the empty array, and
    addFavorite then throws. *)
Lemma read_number_stored :
  let w := world_with "42" 100 in
  getItem STORAGE_KEY (localStorage w) = Some (js "42")
  /\ (forall l, parse (js "42") <> Normal (Favorite.array l))
  /\ fst (getFavorites STORAGE_KEY w) = JNum 42 0
  /\ fst (getFavorites STORAGE_KEY w) <> JArr []
  /\ fst (addFavorite STORAGE_KEY tokyo 100 w) = Throw TypeError.
Proof.
  cbv zeta. split; [vm_compute; reflexivity|].
  split; [intros l H; vm_compute in H; discriminate|].
  split; [vm_compute; reflexivity|].
  split; [intros H; vm_compute in H; discriminate|].
  vm_compute. reflexivity.
Qed.

(** [remove_one_notify_once]: Tokyo removed after Tokyo and Paris. *)
Lemma remove_one_notify_once_witness :
  exists w' l',
    removeFavorite STORAGE_KEY 7 two_saved = (Normal tt, w')
    /\ holds STORAGE_KEY w' l'
    /\ ~ In 7%Z (map Favorite.id l')
    /\ (In 7%Z (map Favorite.id (added [(tokyo, 100%Z); (paris, 200%Z)])) ->
        S (length l') = length (added [(tokyo, 100%Z); (paris, 200%Z)]))
    /\ (~ In 7%Z (map Favorite.id (added [(tokyo, 100%Z); (paris, 200%Z)])) ->
        l' = added [(tokyo, 100%Z); (paris, 200%Z)])
    /\ calls (trace w')
       = calls (trace two_saved)
         ++ map (fun ls => (lid ls, Favorite.array l')) (listeners two_saved).
Proof.
  apply (remove_one_notify_once STORAGE_KEY 7 two_saved
           (added [(tokyo, 100%Z); (paris, 200%Z)])).
  - vm_compute. reflexivity.
  - reflexivity.
  - reflexivity.
  - cbn. repeat constructor; cbn; intuition discriminate.
  - unfold fits. vm_compute. lia.
  - repeat constructor.
Defined.

(** C6 as stated fails: on a store with no room removeFavorite calls no
    listener; and a listener that throws keeps the later ones from being
    called. *)
Lemma remove_without_notification :
  holds STORAGE_KEY (world 0 [observer 1]) []
  /\ fst (removeFavorite STORAGE_KEY 999 (world 0 [observer 1])) = Normal tt
  /\ calls (trace (snd (removeFavorite STORAGE_KEY 999 (world 0 [observer 1]))))
     = []
  /\ calls (trace (snd (removeFavorite STORAGE_KEY 999 (world 0 [observer 1]))))
     <> map (fun ls => (lid ls, Favorite.array [])) [observer 1]
  /\ holds STORAGE_KEY (world 1000 [faulty 1; observer 2]) []
  /\ calls (trace (snd (removeFavorite STORAGE_KEY 999
                          (world 1000 [faulty 1; observer 2]))))
     = [(1%nat, JArr [])]
  /\ calls (trace (snd (removeFavorite STORAGE_KEY 999
                          (world 1000 [faulty 1; observer 2]))))
     <> map (fun ls => (lid ls, Favorite.array [])) [faulty 1; observer 2].
Proof.
  split; [vm_compute; reflexivity|]. split; [vm_compute; reflexivity|].
  split; [vm_compute; reflexivity|].
  split; [intros H; vm_compute in H; discriminate|].
  split; [vm_compute; reflexivity|]. split; [vm_compute; reflexivity|].
  intros H; vm_compute in H; discriminate.
Qed.

(** [write_then_read] for two favorites on a store with room. *)
Lemma write_then_read_witness :
  getFavorites STORAGE_KEY
    (writeFavorites STORAGE_KEY
       (Favorite.array (added [(tokyo, 100%Z); (paris, 200%Z)]))
       (world 1000 []))
  = (Favorite.array (added [(tokyo, 100%Z); (paris, 200%Z)]),
     writeFavorites STORAGE_KEY
       (Favorite.array (added [(tokyo, 100%Z); (paris, 200%Z)]))
       (world 1000 [])).
Proof.
  apply (write_then_read STORAGE_KEY). unfold fits. vm_compute. lia.
Defined.

(** C7 as stated fails: on a store with no room, what is read back after
    writeFavorites is the empty array, not the collection written. *)
Lemma write_full_store :
  fst (getFavorites STORAGE_KEY
         (writeFavorites STORAGE_KEY
            (Favorite.array [newFavorite tokyo 100]) (world 0 [])))
  = Favorite.array []
  /\ Favorite.array [] <> Favorite.array [newFavorite tokyo 100].
Proof. split; [vm_compute; reflexivity | discriminate]. Qed.

(** [add_new_frame]: Lima added after Tokyo and Paris. *)
Lemma add_new_frame_witness :
  exists w' l',
    addFavorite STORAGE_KEY (Post.Build_t 1 9 (js "Lima") (js "")) 300 two_saved
    = (Normal true, w')
    /\ holds STORAGE_KEY w' l'
    /\ l' !! 0%nat
       = Some (newFavorite (Post.Build_t 1 9 (js "Lima") (js "")) 300)
    /\ (forall i : nat,
          l' !! S i = added [(tokyo, 100%Z); (paris, 200%Z)] !! i)
    /\ length l' = S (length (added [(tokyo, 100%Z); (paris, 200%Z)])).
Proof.
  apply (add_new_frame STORAGE_KEY).
  - vm_compute. reflexivity.
  - reflexivity.
  - reflexivity.
  - reflexivity.
  - cbn. intuition discriminate.
  - unfold fits. vm_compute. lia.
Defined.

(** C9 as stated fails: on a store with no room addFavorite returns true
    and the collection is unchanged, with nothing at position 0. *)
Lemma add_true_not_stored :
  holds STORAGE_KEY (world 0 []) []
  /\ ~ In (Post.id tokyo) (map Favorite.id [])
  /\ fst (addFavorite STORAGE_KEY tokyo 100 (world 0 [])) = Normal true
  /\ holds STORAGE_KEY (snd (addFavorite STORAGE_KEY tokyo 100 (world 0 []))) []
  /\ forall l, holds STORAGE_KEY
                 (snd (addFavorite STORAGE_KEY tokyo 100 (world 0 []))) l ->
               l !! 0%nat = None.
Proof.
  split; [vm_compute; reflexivity|]. split; [cbn; tauto|].
  split; [vm_compute; reflexivity|]. split; [vm_compute; reflexivity|].
  intros l H.
  assert (l = []) as ->; [|reflexivity].
  eapply FavoritesFacts.holds_inj; [exact H | vm_compute; reflexivity].
Qed.

End FavoritesExamples.

(** ** The theme service: claims *)

Module ThemeSpec.
Import ThemeService.

Section Service.

Variable themeKey : jstring.

(** C8. The theme the service starts with is the stored one when the stored
    value is exactly light or dark; with any other stored value or none it
    is what the system reports, dark only when the dark-scheme query
    matches; and light when the system reports nothing. *)
Theorem initial_theme (st : Storage) (mm : option bool) :
  let start := currentTheme (create themeKey st mm) in
  (forall t, getItem themeKey st = Some (theme_string t) -> start = t)
  /\ ((forall t, getItem themeKey st <> Some (theme_string t)) ->
      start = match mm with
              | Some true => dark
              | Some false => light
              | None => light
              end)
  /\ ((forall t, getItem themeKey st <> Some (theme_string t)) ->
      mm = None -> start = light).
Proof.
  cbn. unfold initialTheme, getSavedTheme, JSON.jstring_eqb.
  split; [|split].
  - intros t ->. now destruct t.
  - intros H.
    destruct (getItem themeKey st) as [s|]; [|reflexivity].
    repeat case_bool_decide; subst; trivial; exfalso;
      first [now apply (H dark) | now apply (H light)].
  - intros H ->.
    destruct (getItem themeKey st) as [s|]; [|reflexivity].
    repeat case_bool_decide; subst; trivial; exfalso;
      first [now apply (H dark) | now apply (H light)].
Qed.

(** C10. Two toggles bring the current theme back to what it was, also when
    the store rejects the write or a listener throws. *)
Theorem toggle_involution (w : World) :
  getCurrent (snd (toggleTheme themeKey (snd (toggleTheme themeKey w))))
  = getCurrent w.
Proof.
  assert (Hset : forall t w0, currentTheme (snd (setTheme themeKey t w0)) = t).
  { intros t w0. unfold setTheme. cbn.
    destruct (setItem themeKey (theme_string t) (localStorage w0));
      [|reflexivity].
    now destruct (forEach (listeners w0) t (trace w0)) as [tr [e|]]. }
  unfold getCurrent, toggleTheme. rewrite !Hset.
  now destruct (currentTheme w).
Qed.

End Service.

(** [initial_theme]: dark stored; another text stored and a dark system;
    another text stored and no [matchMedia]. *)
Lemma initial_theme_witness :
  currentTheme
    (create THEME_KEY
       {| items := {[ THEME_KEY := js "dark" ]}; quota := 100 |} (Some false))
  = dark
  /\ currentTheme
       (create THEME_KEY
          {| items := {[ THEME_KEY := js "Dark" ]}; quota := 100 |} (Some true))
     = dark
  /\ currentTheme
       (create THEME_KEY
          {| items := {[ THEME_KEY := js "blue" ]}; quota := 100 |} None)
     = light.
Proof.
  split; [|split].
  - apply (proj1 (initial_theme THEME_KEY _ (Some false)) dark).
    vm_compute. reflexivity.
  - apply (proj1 (proj2 (initial_theme THEME_KEY
             {| items := {[ THEME_KEY := js "Dark" ]}; quota := 100 |}
             (Some true)))).
    intros t H. destruct t; vm_compute in H; discriminate.
  - apply (proj2 (proj2 (initial_theme THEME_KEY
             {| items := {[ THEME_KEY := js "blue" ]}; quota := 100 |} None)));
      [|reflexivity].
    intros t H. destruct t; vm_compute in H; discriminate.
Defined.

End ThemeSpec.

(** ** The favorites registry: further properties *)

Module FavoritesMore.
Import JSON Favorites JSONFacts StorageFacts FavoritesFacts FavoritesSpec.

Lemma length_stringify_array_cons (f : Favorite.t) (l : list Favorite.t) :
  length (stringify (Favorite.array (f :: l)))
  = (length (stringify (Favorite.to_json f))
     + length (stringify (Favorite.array l))
     + match l with [] => 0 | _ :: _ => 1 end)%nat.
Proof.
  unfold Favorite.array. destruct l as [|g l]; cbn [map].
  - rewrite stringify_array_nil, stringify_array_one. cbn [length].
    rewrite length_app. cbn [length]. lia.
  - rewrite stringify_array_cons.
    assert (exists t, stringify (JArr (Favorite.to_json g :: map Favorite.to_json l))
                      = 91 :: t) as (t & Ht).
    { destruct l; cbn [map];
        [rewrite stringify_array_one | rewrite stringify_array_cons];
        eexists; reflexivity. }
    rewrite Ht. cbn [tl length]. rewrite length_app. cbn [length]. lia.
Qed.

Lemma length_stringify_keep (id : Z) (l : list Favorite.t) :
  (length (stringify (Favorite.array (keep id l)))
   <= length (stringify (Favorite.array l)))%nat.
Proof.
  induction l as [|f l IH]; [reflexivity|]. cbn [keep List.filter].
  fold (keep id l).
  destruct (negb (Favorite.id f =? id)%Z).
  - rewrite !length_stringify_array_cons.
    destruct l as [|g l']; [cbn [keep List.filter]; lia|].
    destruct (keep id (g :: l')); lia.
  - pose proof (length_stringify_cons f l). lia.
Qed.

Lemma fits_within (k v old : jstring) (st : Storage) :
  getItem k st = Some old ->
  (used (items st) <= quota st)%nat ->
  (length v <= length old)%nat ->
  fits k v st.
Proof.
  unfold fits, getItem. intros Hk Hq Hv.
  rewrite <- (insert_id (items st) k old Hk) in Hq.
  rewrite used_insert in *. lia.
Qed.

Section Service.

Variable storageKey : jstring.

Abbreviation getFavorites := (getFavorites storageKey).
Abbreviation writeFavorites := (writeFavorites storageKey).
Abbreviation addFavorite := (addFavorite storageKey).
Abbreviation removeFavorite := (removeFavorite storageKey).
Abbreviation clearAllFavorites := (clearAllFavorites storageKey).
Abbreviation holds := (holds storageKey).
Abbreviation step := (step storageKey).
Abbreviation run := (run storageKey).

Lemma writeFavorites_other (v : value) (w : World) (k : jstring) :
  k <> storageKey ->
  getItem k (localStorage (writeFavorites v w)) = getItem k (localStorage w).
Proof.
  intros Hk.
  destruct (decide (fits storageKey (stringify v) (localStorage w))) as [H|H].
  - rewrite writeFavorites_localStorage by exact H. unfold getItem. cbn.
    now apply lookup_insert_ne.
  - now rewrite writeFavorites_rejected.
Qed.

Lemma addFavorite_storage (post : Post.t) (now : Z) (w : World) :
  snd (addFavorite post now w) = snd (getFavorites w)
  \/ exists v, snd (addFavorite post now w)
               = writeFavorites v (snd (getFavorites w)).
Proof.
  unfold Favorites.addFavorite.
  destruct (getFavorites w) as [favorites w1]. cbn [snd].
  destruct favorites; auto.
  destruct (Array_some _ elems) as [[|]|]; cbn [snd]; eauto.
Qed.

Lemma removeFavorite_storage (id : Z) (w : World) :
  snd (removeFavorite id w) = snd (getFavorites w)
  \/ exists v, snd (removeFavorite id w)
               = writeFavorites v (snd (getFavorites w)).
Proof.
  unfold Favorites.removeFavorite.
  destruct (getFavorites w) as [favorites w1]. cbn [snd].
  destruct favorites; auto.
  destruct (Array_filter _ elems); cbn [snd]; eauto.
Qed.

(** X1. No call on the service, whatever is stored and whether it returns
    or throws, changes an item of localStorage under another key, or the
    room the origin has. *)
Theorem other_keys_untouched (k : jstring) (w : World) :
  k <> storageKey ->
  (forall post now,
      getItem k (localStorage (snd (addFavorite post now w)))
      = getItem k (localStorage w)
      /\ quota (localStorage (snd (addFavorite post now w)))
         = quota (localStorage w))
  /\ (forall id,
        getItem k (localStorage (snd (removeFavorite id w)))
        = getItem k (localStorage w)
        /\ quota (localStorage (snd (removeFavorite id w)))
           = quota (localStorage w))
  /\ getItem k (localStorage (clearAllFavorites w)) = getItem k (localStorage w)
  /\ quota (localStorage (clearAllFavorites w)) = quota (localStorage w)
  /\ localStorage (snd (getFavorites w)) = localStorage w.
Proof.
  intros Hk.
  pose proof (getFavorites_localStorage storageKey w) as Hs.
  split; [|split; [|split; [|split]]].
  - intros post now.
    destruct (addFavorite_storage post now w) as [-> | [v ->]].
    + now rewrite Hs.
    + now rewrite writeFavorites_other, writeFavorites_quota, Hs.
  - intros id.
    destruct (removeFavorite_storage id w) as [-> | [v ->]].
    + now rewrite Hs.
    + now rewrite writeFavorites_other, writeFavorites_quota, Hs.
  - now apply writeFavorites_other.
  - apply writeFavorites_quota.
  - exact Hs.
Qed.

(** X2. addFavorite with a post whose id is new, when the store accepts
    the write and no listener throws, returns true, leaves the new favorite
    in front of the former entries and calls every listener exactly once,
    in subscription order, with the collection that results. The ids and
    timestamps stored, the post's id and the time of the call are safe
    integers. *)
Theorem add_new_notifies (post : Post.t) (now : Z) (w : World)
    (l : list Favorite.t) :
  holds w l ->
  Safe.favorites l = true ->
  Safe.post post = true ->
  Safe.isSafeInteger now = true ->
  ~ In (Post.id post) (map Favorite.id l) ->
  fits storageKey (stringify (Favorite.array (newFavorite post now :: l)))
    (localStorage w) ->
  Forall (fun ls => throws ls (Favorite.array (newFavorite post now :: l))
                    = false) (listeners w) ->
  exists w',
    addFavorite post now w = (Normal true, w')
    /\ holds w' (newFavorite post now :: l)
    /\ listeners w' = listeners w
    /\ calls (trace w')
       = calls (trace w)
         ++ map (fun ls => (lid ls, Favorite.array (newFavorite post now :: l)))
              (listeners w).
Proof.
  intros Hl _ _ _ Hnew Hfit Hquiet.
  pose proof (getFavorites_localStorage storageKey w) as Hs.
  pose proof (getFavorites_listeners storageKey w) as Hls.
  eexists. split; [|split; [|split]].
  - rewrite (addFavorite_holds _ _ _ _ l Hl).
    now rewrite (not_true_is_false _
                   (fun H => Hnew (proj1 (existsb_id _ _) H))).
  - apply writeFavorites_holds. now rewrite Hs.
  - now rewrite writeFavorites_listeners.
  - rewrite writeFavorites_trace by (now rewrite ?Hs, ?Hls).
    now rewrite calls_app, calls_called, getFavorites_calls, Hls.
Qed.

(** X3. clearAllFavorites does not read what is stored: whatever the text
    under the key, also one that is not JSON or not an array, when the
    store accepts the write the collection is empty afterwards, and every
    listener (none throwing) has been called once with the empty array. *)
Theorem clear_resets (w : World) :
  fits storageKey (stringify (Favorite.array [])) (localStorage w) ->
  Forall (fun ls => throws ls (Favorite.array []) = false) (listeners w) ->
  getFavorites (clearAllFavorites w) = (JArr [], clearAllFavorites w)
  /\ getItem storageKey (localStorage (clearAllFavorites w)) = Some (js "[]")
  /\ trace (clearAllFavorites w)
     = trace w ++ map (fun ls => Called (lid ls) (JArr [])) (listeners w).
Proof.
  intros Hfit Hquiet. unfold Favorites.clearAllFavorites.
  change (JArr []) with (Favorite.array []).
  split; [|split].
  - apply getFavorites_stored.
    rewrite writeFavorites_localStorage by exact Hfit.
    unfold getItem. cbn. apply lookup_insert_eq.
  - rewrite writeFavorites_localStorage by exact Hfit.
    unfold getItem. cbn. apply lookup_insert_eq.
  - now apply writeFavorites_trace.
Qed.

(** X4. When the stored text is JSON but not an array, addFavorite and
    removeFavorite throw a TypeError to the caller and change nothing:
    nothing is written, no listener is called, nothing is logged. *)
Theorem not_an_array_throws (w : World) (s : jstring) (v : value) :
  getItem storageKey (localStorage w) = Some s ->
  parse s = Normal v ->
  (forall elems, v <> JArr elems) ->
  (forall post now, addFavorite post now w = (Throw TypeError, w))
  /\ (forall id, removeFavorite id w = (Throw TypeError, w)).
Proof.
  intros Hs Hp Hv.
  assert (Hread : getFavorites w = (v, w)).
  { unfold Favorites.getFavorites. rewrite Hs.
    destruct s as [|c s]; [discriminate | now rewrite Hp]. }
  split; intros; unfold Favorites.addFavorite, Favorites.removeFavorite;
    rewrite Hread; destruct v; try reflexivity; now destruct (Hv elems).
Qed.

(** X5. Adding a post whose id is new and then removing that id gives the
    former collection back. The store only has to accept the first write:
    the second one is shorter and is accepted then. The ids and timestamps
    stored, the post's id and the time of the call are safe integers. *)
Theorem add_then_remove (post : Post.t) (now : Z) (w : World)
    (l : list Favorite.t) :
  holds w l ->
  Safe.favorites l = true ->
  Safe.post post = true ->
  Safe.isSafeInteger now = true ->
  ~ In (Post.id post) (map Favorite.id l) ->
  fits storageKey (stringify (Favorite.array (newFavorite post now :: l)))
    (localStorage w) ->
  exists w1 w2,
    addFavorite post now w = (Normal true, w1)
    /\ removeFavorite (Post.id post) w1 = (Normal tt, w2)
    /\ holds w1 (newFavorite post now :: l)
    /\ holds w2 l.
Proof.
  intros Hl _ _ _ Hnew Hfit.
  pose proof (getFavorites_localStorage storageKey w) as Hs.
  set (w1 := writeFavorites (Favorite.array (newFavorite post now :: l))
               (snd (getFavorites w))).
  assert (H1 : holds w1 (newFavorite post now :: l))
    by (apply writeFavorites_holds; now rewrite Hs).
  assert (Hk : keep (Post.id post) (newFavorite post now :: l) = l).
  { cbn [keep List.filter newFavorite Favorite.id]. rewrite Z.eqb_refl.
    cbn [negb]. now apply keep_id. }
  exists w1, (writeFavorites (Favorite.array l) (snd (getFavorites w1))).
  split; [|split; [|split]]; trivial.
  - rewrite (addFavorite_holds _ _ _ _ l Hl).
    now rewrite (not_true_is_false _
                   (fun H => Hnew (proj1 (existsb_id _ _) H))).
  - rewrite (removeFavorite_holds _ _ _ _ H1). unfold keep in Hk.
    now rewrite Hk.
  - apply writeFavorites_holds.
    rewrite getFavorites_localStorage. unfold w1.
    rewrite writeFavorites_localStorage by now rewrite Hs.
    apply fits_overwritten. rewrite Hs.
    eapply fits_shorter; [|exact Hfit]. apply length_stringify_cons.
Qed.

(** X6. A removal is never rejected for want of room: when the store is
    within its quota and holds a collection as the service wrote it,
    removeFavorite persists the collection without the id, and the store is
    still within its quota. The ids and timestamps stored and the id given
    are safe integers. *)
Theorem remove_persists (id : Z) (w : World) (l : list Favorite.t) :
  Safe.favorites l = true ->
  Safe.isSafeInteger id = true ->
  getItem storageKey (localStorage w) = Some (stringify (Favorite.array l)) ->
  (used (items (localStorage w)) <= quota (localStorage w))%nat ->
  exists w',
    removeFavorite id w = (Normal tt, w')
    /\ getItem storageKey (localStorage w')
       = Some (stringify (Favorite.array (keep id l)))
    /\ holds w' (keep id l)
    /\ (used (items (localStorage w')) <= quota (localStorage w'))%nat.
Proof.
  intros _ _ Hs Hq.
  pose proof (getFavorites_stored _ _ _ Hs) as Hread.
  assert (Hl : holds w l) by (unfold Favorites.holds; now rewrite Hread).
  assert (Hfit : fits storageKey (stringify (Favorite.array (keep id l)))
                   (localStorage w)).
  { eapply fits_within; eauto. apply length_stringify_keep. }
  eexists. split; [apply (removeFavorite_holds _ _ _ _ Hl)|].
  rewrite Hread. cbn [snd].
  change (List.filter _ l) with (keep id l).
  split; [|split].
  - rewrite writeFavorites_localStorage by exact Hfit.
    unfold getItem. cbn. apply lookup_insert_eq.
  - now apply writeFavorites_holds.
  - rewrite writeFavorites_localStorage by exact Hfit. exact Hfit.
Qed.

Lemma forEach_throws (quiet rest : list Listener) (bad : Listener)
    (v : value) (tr : list event) :
  Forall (fun l => throws l v = false) quiet ->
  throws bad v = true ->
  forEach (quiet ++ bad :: rest) v tr
  = (tr ++ map (fun l => Called (lid l) v) quiet ++ [Called (lid bad) v],
     Some (ListenerError (lid bad))).
Proof.
  intros Hq Hb. revert tr. induction Hq as [|l ls Hl _ IH]; intros tr.
  - cbn. now rewrite Hb.
  - cbn [app forEach map]. rewrite Hl, IH. now rewrite <- app_assoc.
Qed.

(** X7. When a listener throws, the write has already been made: the
    collection is stored, the listeners subscribed after the one that threw
    are not called, and the console gets the message of a failed save. *)
Theorem listener_throws (l : list Favorite.t) (w : World)
    (quiet rest : list Listener) (bad : Listener) :
  fits storageKey (stringify (Favorite.array l)) (localStorage w) ->
  listeners w = quiet ++ bad :: rest ->
  Forall (fun ls => throws ls (Favorite.array l) = false) quiet ->
  throws bad (Favorite.array l) = true ->
  holds (writeFavorites (Favorite.array l) w) l
  /\ trace (writeFavorites (Favorite.array l) w)
     = trace w
       ++ map (fun ls => Called (lid ls) (Favorite.array l)) quiet
       ++ [Called (lid bad) (Favorite.array l);
           ConsoleError (js "Erro ao salvar favoritos:")].
Proof.
  intros Hfit Hls Hq Hb. split; [now apply writeFavorites_holds|].
  unfold Favorites.writeFavorites. rewrite setItem_fits by exact Hfit.
  rewrite Hls, (forEach_throws quiet rest bad _ _ Hq Hb).
  cbn. now rewrite <- !app_assoc.
Qed.

Lemma forEach_calls (ls : list Listener) (v : value) (tr : list event) :
  exists called,
    fst (forEach ls v tr) = tr ++ map (fun l => Called (lid l) v) called
    /\ incl called ls.
Proof.
  revert tr. induction ls as [|l ls IH]; intros tr; cbn [forEach].
  - exists []. split; [now rewrite app_nil_r | easy].
  - destruct (throws l v).
    + exists [l]. split; [reflexivity|]. intros x [<-|[]]. now left.
    + destruct (IH (tr ++ [Called (lid l) v])) as (called & -> & Hin).
      exists (l :: called). split; [now rewrite <- app_assoc|].
      intros x [<-|Hx]; [now left | right; now apply Hin].
Qed.

Lemma writeFavorites_calls (v : value) (w : World) :
  exists called,
    calls (trace (writeFavorites v w))
    = calls (trace w) ++ map (fun l => (lid l, v)) called
    /\ incl called (listeners w).
Proof.
  unfold Favorites.writeFavorites.
  destruct (setItem storageKey (stringify v) (localStorage w)).
  - destruct (forEach_calls (listeners w) v (trace w)) as (called & E & Hin).
    exists called. split; [|exact Hin].
    destruct (forEach (listeners w) v (trace w)) as [tr [e|]];
      cbn [fst] in E; subst tr; cbn [trace console_error];
      rewrite ?calls_app, calls_called; cbn; now rewrite ?app_nil_r.
  - exists []. split; [|easy]. cbn. rewrite calls_app. cbn.
    now rewrite !app_nil_r.
Qed.

(** The calls made to the listener named [n]. *)
Lemma calls_to_write (n : nat) (v : value) (w : World) :
  ~ In n (map lid (listeners w)) ->
  List.filter (fun c => Nat.eqb (fst c) n) (calls (trace (writeFavorites v w)))
  = List.filter (fun c => Nat.eqb (fst c) n) (calls (trace w)).
Proof.
  intros Hn. destruct (writeFavorites_calls v w) as (called & -> & Hin).
  rewrite List.filter_app.
  assert (E : List.filter (fun c : nat * value => Nat.eqb (fst c) n)
                (map (fun l => (lid l, v)) called) = []).
  { induction called as [|l called IH]; [reflexivity|]. cbn.
    destruct (Nat.eqb_spec (lid l) n) as [E|_].
    - exfalso. apply Hn. rewrite <- E. apply in_map, Hin. now left.
    - apply IH. intros x Hx. apply Hin. now right. }
  rewrite E. apply app_nil_r.
Qed.

Lemma step_silent (n : nat) (o : op) (w w' : World) :
  (forall l', o = OnChange l' -> lid l' <> n) ->
  ~ In n (map lid (listeners w)) ->
  step o w = Some w' ->
  ~ In n (map lid (listeners w'))
  /\ List.filter (fun c => Nat.eqb (fst c) n) (calls (trace w'))
     = List.filter (fun c => Nat.eqb (fst c) n) (calls (trace w)).
Proof.
  intros Ho Hn Hstep.
  assert (H1 : ~ In n (map lid (listeners (snd (getFavorites w)))))
    by now rewrite getFavorites_listeners.
  destruct o as [post now|id| |ls|ls]; cbn [Favorites.step] in Hstep.
  - pose proof (addFavorite_storage post now w) as Hw.
    destruct (addFavorite post now w) as [[b|e] w2]; [|discriminate].
    injection Hstep as <-. cbn [snd] in Hw.
    destruct Hw as [-> | [v ->]].
    + split; [exact H1 | now rewrite getFavorites_calls].
    + rewrite writeFavorites_listeners, calls_to_write by exact H1.
      split; [exact H1 | now rewrite getFavorites_calls].
  - pose proof (removeFavorite_storage id w) as Hw.
    destruct (removeFavorite id w) as [[b|e] w2]; [|discriminate].
    injection Hstep as <-. cbn [snd] in Hw.
    destruct Hw as [-> | [v ->]].
    + split; [exact H1 | now rewrite getFavorites_calls].
    + rewrite writeFavorites_listeners, calls_to_write by exact H1.
      split; [exact H1 | now rewrite getFavorites_calls].
  - injection Hstep as <-. unfold Favorites.clearAllFavorites.
    now rewrite writeFavorites_listeners, calls_to_write.
  - injection Hstep as <-. unfold onChange.
    destruct (bool_decide _); [easy|]. cbn. split; [|reflexivity].
    rewrite map_app, in_app_iff. cbn. specialize (Ho ls eq_refl). tauto.
  - injection Hstep as <-. cbn. split; [|reflexivity].
    intros Hin. apply Hn. apply in_map_iff in Hin.
    destruct Hin as (x & <- & Hx). apply in_map.
    apply list_elem_of_In in Hx. apply list_elem_of_filter in Hx.
    apply list_elem_of_In. tauto.
Qed.

(** X8. After the function that onChange returned has been called, the
    listener is called no more, whatever calls are made on the service, as
    long as it is not subscribed again. *)
Theorem unsubscribed_not_called (listener : Listener) (ops : list op)
    (w w' : World) :
  Forall (fun o => forall l', o = OnChange l' -> lid l' <> lid listener) ops ->
  run ops (unsubscribe listener w) = Some w' ->
  List.filter (fun c => Nat.eqb (fst c) (lid listener)) (calls (trace w'))
  = List.filter (fun c => Nat.eqb (fst c) (lid listener)) (calls (trace w)).
Proof.
  intros Hops.
  assert (H0 : ~ In (lid listener)
                 (map lid (listeners (unsubscribe listener w)))).
  { cbn. intros Hin. apply in_map_iff in Hin. destruct Hin as (x & E & Hx).
    apply list_elem_of_In, list_elem_of_filter in Hx. tauto. }
  change (trace w) with (trace (unsubscribe listener w)).
  generalize dependent (unsubscribe listener w). clear w.
  induction Hops as [|o ops Ho _ IH]; intros w H0 Hrun; cbn in Hrun.
  - now injection Hrun as <-.
  - destruct (step o w) as [w1|] eqn:E; [|discriminate].
    destruct (step_silent _ o w w1 Ho H0 E) as (H1 & <-).
    now apply IH.
Qed.

End Service.

End FavoritesMore.

(** ** The theme service: further properties *)

Module ThemeMore.
Import ThemeService ThemeEvents StorageFacts.

Lemma theme_forEach_quiet (ls : list Listener) (t : Theme) (tr : list event) :
  Forall (fun l => throws l t = false) ls ->
  forEach ls t tr = (tr ++ map (fun l => Called (lid l) t) ls, None).
Proof.
  intros H. revert tr. induction H as [|l ls Hl _ IH]; intros tr.
  - cbn. now rewrite app_nil_r.
  - cbn [forEach map]. rewrite Hl, IH. now rewrite <- app_assoc.
Qed.

Section Service.

Variable themeKey : jstring.

Abbreviation getSavedTheme := (getSavedTheme themeKey).
Abbreviation setTheme := (setTheme themeKey).
Abbreviation toggleTheme := (toggleTheme themeKey).
Abbreviation create := (create themeKey).
Abbreviation systemChange := (systemChange themeKey).

Lemma getSavedTheme_stored (st : Storage) (t : Theme) :
  getItem themeKey st = Some (theme_string t) -> getSavedTheme st = Some t.
Proof.
  intros H. unfold ThemeService.getSavedTheme. rewrite H. now destruct t.
Qed.

Lemma setTheme_accepted (t : Theme) (w : World) :
  fits themeKey (theme_string t) (localStorage w) ->
  localStorage (snd (setTheme t w))
  = {| items := <[themeKey := theme_string t]> (items (localStorage w));
       quota := quota (localStorage w) |}
  /\ currentTheme (snd (setTheme t w)) = t
  /\ dataTheme (snd (setTheme t w)) = Some t
  /\ listeners (snd (setTheme t w)) = listeners w.
Proof.
  intros Hfit. unfold ThemeService.setTheme. cbn.
  rewrite setItem_fits by exact Hfit.
  now destruct (forEach (listeners w) t (trace w)) as [tr [e|]].
Qed.

Lemma setTheme_saved (t : Theme) (w : World) :
  fits themeKey (theme_string t) (localStorage w) ->
  getSavedTheme (localStorage (snd (setTheme t w))) = Some t.
Proof.
  intros Hfit. apply getSavedTheme_stored.
  destruct (setTheme_accepted t w Hfit) as (-> & _).
  unfold getItem. cbn. apply lookup_insert_eq.
Qed.

(** X9. A theme that setTheme or toggle could store is the theme a new
    service starts with on that storage (after a reload), whatever the
    system reports then, and also when a listener threw. *)
Theorem theme_survives_reload (w : World) (mm : option bool) :
  (forall t,
      fits themeKey (theme_string t) (localStorage w) ->
      getCurrent (create (localStorage (snd (setTheme t w))) mm) = t)
  /\ (fits themeKey
        (theme_string (match currentTheme w with dark => light | light => dark end))
        (localStorage w) ->
      getCurrent (create (localStorage (snd (toggleTheme w))) mm)
      = getCurrent (snd (toggleTheme w))
      /\ getCurrent (snd (toggleTheme w)) <> getCurrent w).
Proof.
  assert (H : forall t, fits themeKey (theme_string t) (localStorage w) ->
            getCurrent (create (localStorage (snd (setTheme t w))) mm) = t).
  { intros t Hfit. unfold getCurrent, ThemeService.create. cbn.
    unfold initialTheme. now rewrite setTheme_saved. }
  split; [exact H|]. intros Hfit. unfold ThemeService.toggleTheme.
  rewrite (H _ Hfit).
  destruct (setTheme_accepted _ w Hfit) as (_ & E & _).
  unfold getCurrent. rewrite E. split; [reflexivity|].
  now destruct (currentTheme w).
Qed.

(** X10. A setTheme whose write the store accepts, with no listener
    throwing, returns normally and leaves the current theme, the page's
    data-theme attribute and the saved theme all equal to the new theme,
    and every listener called once with it, in subscription order. *)
Theorem setTheme_consistent (t : Theme) (w : World) :
  fits themeKey (theme_string t) (localStorage w) ->
  Forall (fun l => throws l t = false) (listeners w) ->
  fst (setTheme t w) = Normal tt
  /\ getCurrent (snd (setTheme t w)) = t
  /\ dataTheme (snd (setTheme t w)) = Some t
  /\ getSavedTheme (localStorage (snd (setTheme t w))) = Some t
  /\ trace (snd (setTheme t w))
     = trace w ++ map (fun l => Called (lid l) t) (listeners w).
Proof.
  intros Hfit Hquiet.
  destruct (setTheme_accepted t w Hfit) as (_ & Hc & Hd & _).
  split; [|split; [|split; [|split]]]; trivial.
  - unfold ThemeService.setTheme. cbn. rewrite setItem_fits by exact Hfit.
    now rewrite theme_forEach_quiet.
  - now apply setTheme_saved.
  - unfold ThemeService.setTheme. cbn. rewrite setItem_fits by exact Hfit.
    now rewrite theme_forEach_quiet.
Qed.

(** X11. When the store rejects the write, toggle throws to its caller
    after the current theme has been flipped: the page's data-theme
    attribute, the storage and the listeners are left as they were, so that
    getCurrent no longer tells the theme the page shows. *)
Theorem toggle_rejected (w : World) :
  ~ fits themeKey
      (theme_string (match currentTheme w with dark => light | light => dark end))
      (localStorage w) ->
  dataTheme w = Some (currentTheme w) ->
  fst (toggleTheme w) = Throw QuotaExceededError
  /\ getCurrent (snd (toggleTheme w)) <> getCurrent w
  /\ dataTheme (snd (toggleTheme w)) <> Some (getCurrent (snd (toggleTheme w)))
  /\ dataTheme (snd (toggleTheme w)) = dataTheme w
  /\ localStorage (snd (toggleTheme w)) = localStorage w
  /\ trace (snd (toggleTheme w)) = trace w.
Proof.
  intros Hfull Hd. unfold ThemeService.toggleTheme, ThemeService.setTheme.
  cbn. rewrite setItem_full by exact Hfull. cbn. rewrite Hd.
  repeat split; unfold getCurrent; destruct (currentTheme w); congruence.
Qed.

(** X12. A change of the system preference is ignored while a theme is
    saved. With none saved it is followed, and since following it saves
    the theme (when the store accepts the write), every later change of
    the system preference is ignored. *)
Theorem system_change_followed_once (w : World) (b1 : bool) :
  (forall t b, getSavedTheme (localStorage w) = Some t ->
               systemChange b w = (Normal tt, set_matchMedia (Some b) w))
  /\ (getSavedTheme (localStorage w) = None ->
      fits themeKey (theme_string (if b1 then dark else light))
        (localStorage w) ->
      getCurrent (snd (systemChange b1 w)) = (if b1 then dark else light)
      /\ forall b2,
           systemChange b2 (snd (systemChange b1 w))
           = (Normal tt, set_matchMedia (Some b2) (snd (systemChange b1 w)))).
Proof.
  split.
  - intros t b Hs. unfold ThemeEvents.systemChange, onSystemChange. cbn.
    now rewrite Hs.
  - intros Hnone Hfit.
    assert (E : snd (systemChange b1 w)
                = snd (setTheme (if b1 then dark else light)
                         (set_matchMedia (Some b1) w))).
    { unfold ThemeEvents.systemChange, onSystemChange. cbn.
      rewrite Hnone. now destruct b1. }
    rewrite E.
    assert (Hfit' : fits themeKey (theme_string (if b1 then dark else light))
                      (localStorage (set_matchMedia (Some b1) w)))
      by exact Hfit.
    destruct (setTheme_accepted _ _ Hfit') as (_ & Hc & _).
    split; [exact Hc|]. intros b2.
    unfold ThemeEvents.systemChange, onSystemChange. cbn [localStorage set_matchMedia].
    now rewrite (setTheme_saved _ _ Hfit').
Qed.

(** X13. setTheme and toggle write under the theme key only: every other
    item of localStorage, and the room the origin has, are as before. *)
Theorem theme_other_keys_untouched (k : jstring) (t : Theme) (w : World) :
  k <> themeKey ->
  getItem k (localStorage (snd (setTheme t w))) = getItem k (localStorage w)
  /\ getItem k (localStorage (snd (toggleTheme w))) = getItem k (localStorage w)
  /\ quota (localStorage (snd (setTheme t w))) = quota (localStorage w).
Proof.
  intros Hk.
  assert (H : forall t0,
            getItem k (localStorage (snd (setTheme t0 w)))
            = getItem k (localStorage w)
            /\ quota (localStorage (snd (setTheme t0 w)))
               = quota (localStorage w)).
  { intros t0.
    destruct (decide (fits themeKey (theme_string t0) (localStorage w)))
      as [Hfit|Hfull].
    - destruct (setTheme_accepted t0 w Hfit) as (-> & _). unfold getItem.
      cbn. split; [now apply lookup_insert_ne | reflexivity].
    - unfold ThemeService.setTheme. cbn. now rewrite setItem_full. }
  split; [apply H | split; [apply H | apply H]].
Qed.

End Service.

End ThemeMore.

(** ** The notification service: properties *)

Module NotificationsSpec.
Import Notifications.

Lemma detach_self (n : nat) : detach n [n] = [].
Proof. unfold detach. cbn. now rewrite Nat.eqb_refl. Qed.

Lemma detach_other (n c : nat) : c <> n -> detach n [c] = [c].
Proof.
  intros H. unfold detach. cbn.
  now destruct (Nat.eqb_spec c n).
Qed.

Lemma cancel_timer_other (t x : timer) (ts : list timer) :
  x <> t -> In x ts -> In x (cancel_timer t ts).
Proof.
  intros Hx. induction ts as [|t' ts IH]; cbn; [easy|].
  destruct (decide (t' = t)) as [->|Hne]; intros [<-|H]; cbn; tauto.
Qed.

Lemma show_invariant (m : option jstring) (message : jstring) (timeout : Z)
    (s : State) :
  toast_invariant m s -> toast_invariant (Some message) (show message timeout s).
Proof.
  intros (Hb & Hc). unfold toast_invariant, show. cbn. split.
  - rewrite Hb. destruct (currentNotification s) as [c|]; [|reflexivity].
    now rewrite detach_self.
  - intros c [= <-]. split; [rewrite length_app; cbn; lia|]. split.
    + eexists. split; [apply (list_lookup_middle _ [] _ _ eq_refl) | reflexivity].
    + left. exists timeout. apply in_or_app. right. now left.
Qed.

Lemma fire_invariant (m : option jstring) (t : timer) (s s' : State) :
  toast_invariant m s -> fire t s = Some s' -> toast_invariant m s'.
Proof.
  intros (Hb & Hc). unfold fire.
  destruct (decide (t ∈ timers s)) as [Ht|]; [|discriminate].
  intros [= <-]. destruct t as [n d|n d]; unfold toast_invariant; cbn.
  - split; [exact Hb|]. intros c Hcur.
    destruct (Hc c Hcur) as (Hlen & (e & He & Hm) & Hpend).
    split; [now rewrite length_alter|]. split.
    + destruct (decide (c = n)) as [->|Hne].
      * eexists. split; [rewrite list_lookup_alter_eq, He; reflexivity|].
        exact Hm.
      * exists e. split; [now rewrite list_lookup_alter_ne | exact Hm].
    + destruct (decide (c = n)) as [->|Hne].
      * right. exists 300%Z. apply in_or_app. right. now left.
      * destruct Hpend as [[d' H]|[d' H]]; [left|right]; exists d';
          apply in_or_app; left; apply cancel_timer_other; congruence.
  - destruct (decide (currentNotification s = Some n)) as [Hn|Hn].
    + rewrite Hb, Hn. split; [apply detach_self|]. discriminate.
    + split.
      * rewrite Hb. destruct (currentNotification s) as [c|]; [|reflexivity].
        apply detach_other. congruence.
      * intros c Hcur.
        destruct (Hc c Hcur) as (Hlen & He & Hpend).
        split; [exact Hlen|]. split; [exact He|].
        destruct Hpend as [[d' H]|[d' H]]; [left|right]; exists d';
          apply cancel_timer_other; congruence.
Qed.

Lemma run_invariant (inputs : list input) (m : option jstring) (s s' : State) :
  toast_invariant m s -> run inputs s = Some s' ->
  toast_invariant (last_shown m inputs) s'.
Proof.
  revert m s. induction inputs as [|[message timeout|t] inputs IH];
    intros m s Hinv Hrun; cbn in *.
  - now injection Hrun as <-.
  - eapply IH; [|exact Hrun]. now apply (show_invariant m).
  - destruct (fire t s) as [s1|] eqn:E; [|discriminate].
    eapply IH; [|exact Hrun]. eapply fire_invariant; eauto.
Qed.

Lemma create_invariant : toast_invariant None create.
Proof. split; [reflexivity | discriminate]. Qed.

(** X14. However calls of show and the timers they start are interleaved,
    at most one notification is attached to the page: the one created by
    the last call of show, carrying its message, or none. *)
Theorem one_toast_at_a_time (inputs : list input) (s : State) :
  run inputs create = Some s ->
  body s = match currentNotification s with Some c => [c] | None => [] end
  /\ forall c, In c (body s) ->
       S c = length (elements s)
       /\ exists e, elements s !! c = Some e
                    /\ Some (textContent e) = last_shown None inputs.
Proof.
  intros Hrun.
  destruct (run_invariant inputs None create s create_invariant Hrun)
    as (Hb & Hc).
  split; [exact Hb|]. intros c Hin. rewrite Hb in Hin.
  destruct (currentNotification s) as [c'|]; [|destruct Hin].
  destruct Hin as [<-|[]]. destruct (Hc c' eq_refl) as (Hlen & He & _).
  now split.
Qed.

(** X15. No notification stays on the page for good: one that is attached
    always has one of its own timers pending, and when its last timer
    fires the page has no notification. *)
Theorem toast_goes_away (inputs : list input) (s : State) (c : nat) :
  run inputs create = Some s ->
  In c (body s) ->
  ((exists d, In (FadeOut c d) (timers s))
   \/ exists d, In (Remove c d) (timers s))
  /\ forall d s', fire (Remove c d) s = Some s' ->
                  body s' = [] /\ currentNotification s' = None.
Proof.
  intros Hrun Hin.
  destruct (run_invariant inputs None create s create_invariant Hrun)
    as (Hb & Hc).
  rewrite Hb in Hin.
  destruct (currentNotification s) as [c'|] eqn:Hcur; [|destruct Hin].
  destruct Hin as [<-|[]]. destruct (Hc c' eq_refl) as (_ & _ & Hpend).
  split; [exact Hpend|]. intros d s'. unfold fire.
  destruct (decide (Remove c' d ∈ timers s)); [|discriminate].
  intros [= <-]. unfold remove. cbn [body currentNotification].
  rewrite Hb, Hcur, detach_self.
  now destruct (decide (Some c' = Some c')).
Qed.

End NotificationsSpec.

(** ** The API service: properties *)

Module ApiSpec.
Import Api.

Lemma resume_subset (c x : nat * phase) (r : list (nat * phase)) :
  In x (resume c r) -> In x r.
Proof.
  induction r as [|c' r IH]; cbn; [easy|].
  destruct (decide (c' = c)); cbn; tauto.
Qed.

Lemma emitError_state (s : State) :
  controller (emitError s) = controller s
  /\ controllers (emitError s) = controllers s
  /\ aborted (emitError s) = aborted s
  /\ running (emitError s) = running s.
Proof. now unfold emitError. Qed.

Lemma emitPost_state (post : Post.t) (s : State) :
  controller (emitPost post s) = controller s
  /\ controllers (emitPost post s) = controllers s
  /\ aborted (emitPost post s) = aborted s
  /\ running (emitPost post s) = running s.
Proof.
  unfold emitPost.
  now destruct (forEachPost (postFetchedListeners s) post (trace s))
    as [tr [e|]].
Qed.

Lemma cancel_latest_only (s : State) : latest_only s -> latest_only (cancel s).
Proof.
  intros (Hr & Hn & Hc & Ha). unfold cancel.
  destruct (controller s) as [c|] eqn:E; [|unfold latest_only; now rewrite E].
  split; [|split; [|split]]; cbn.
  - intros n ph Hin Hna. rewrite E. rewrite <- (Hr n ph Hin); [easy|].
    tauto.
  - exact Hn.
  - now rewrite E.
  - intros n [<-|H]; [now apply Hc | now apply Ha].
Qed.

Lemma settled_latest_only (c : nat * phase) (s : State) :
  latest_only s -> latest_only (set_running (resume c (running s)) s).
Proof.
  intros (Hr & Hn & Hc & Ha).
  split; [|split; [|split]]; cbn; eauto using resume_subset.
Qed.

Lemma step_latest_only (i : input) (s s' : State) :
  latest_only s -> step i s = Some s' -> latest_only s'.
Proof.
  intros Hs. destruct i as [| |n r|n b]; cbn [step].
  - intros [= <-]. pose proof (cancel_latest_only s Hs) as (Hr1 & Hn1 & Hc1 & Ha1).
    assert (Hnew : ~ In (controllers (cancel s)) (aborted (cancel s))).
    { intros H. apply Ha1 in H. lia. }
    unfold fetchRandomPost. fold (cancel s).
    split; [|split; [|split]]; cbn.
    + intros n ph Hin Hna. apply in_app_or in Hin.
      destruct Hin as [Hin|[[= <- _]|[]]]; [|reflexivity].
      exfalso. pose proof (Hr1 n ph Hin Hna) as E.
      unfold cancel in *. destruct (controller s) as [c|] eqn:Ec.
      * cbn in *. rewrite Ec in E. injection E as <-. tauto.
      * cbn in *. congruence.
    + intros n ph Hin. apply in_app_or in Hin.
      destruct Hin as [Hin|[[= <- _]|[]]]; [|lia].
      specialize (Hn1 n ph Hin). lia.
    + intros n [= <-]. lia.
    + intros n H. specialize (Ha1 n H). lia.
  - intros [= <-]. now apply cancel_latest_only.
  - unfold settleResponse.
    destruct (decide ((n, AwaitingResponse) ∈ running s)) as [Hin|];
      [|discriminate].
    pose proof (settled_latest_only (n, AwaitingResponse) s Hs) as Hbase.
    destruct (decide (n ∈ aborted s)) as [Ha|Ha]; [now intros [= <-]|].
    destruct Hs as (Hr & Hn & Hc & Hab).
    assert (Hcur : controller s = Some n).
    { apply (Hr n AwaitingResponse); [|rewrite <- list_elem_of_In; exact Ha].
      now apply list_elem_of_In. }
    destruct r as [|[|] st]; intros [= <-]; trivial.
    destruct Hbase as (Hr1 & Hn1 & Hc1 & Ha1).
    split; [|split; [|split]]; cbn in *; trivial.
    + intros m ph Hm Hna. apply in_app_or in Hm.
      destruct Hm as [Hm|[[= <- _]|[]]]; eauto.
    + intros m ph Hm. apply in_app_or in Hm.
      destruct Hm as [Hm|[[= <- _]|[]]]; eauto.
  - unfold settleBody.
    destruct (decide ((n, AwaitingBody) ∈ running s)) as [Hin|];
      [|discriminate].
    pose proof (settled_latest_only (n, AwaitingBody) s Hs) as Hbase.
    destruct (decide (n ∈ aborted s)) as [Ha|Ha]; [now intros [= <-]|].
    destruct b as [post|]; intros [= <-]; trivial.
    destruct (emitPost_state post
                (set_running (resume (n, AwaitingBody) (running s)) s))
      as (E1 & E2 & E3 & E4).
    unfold latest_only. now rewrite E1, E2, E3, E4.
Qed.

Lemma run_latest_only (inputs : list input) (s s' : State) :
  latest_only s -> run inputs s = Some s' -> latest_only s'.
Proof.
  revert s. induction inputs as [|i inputs IH]; intros s Hs Hrun; cbn in Hrun.
  - now injection Hrun as <-.
  - destruct (step i s) as [s1|] eqn:E; [|discriminate].
    eapply IH; [|exact Hrun]. eapply step_latest_only; eauto.
Qed.

Lemma create_latest_only posts errors : latest_only (create posts errors).
Proof. repeat split; cbn; intros; easy. Qed.

(** X16. Whatever calls of fetchRandomPost and cancel are made and in
    whatever order the answers arrive, only the call made last can reach a
    listener: when an answer makes a post or an error listener run, it is
    the answer to the request of the current controller, which has not
    been aborted. *)
Theorem only_latest_call_reports (posts : list PostListener)
    (errors : list ErrorListener) (inputs : list input) (i : input)
    (s s' : State) :
  run inputs (create posts errors) = Some s ->
  step i s = Some s' ->
  trace s' <> trace s ->
  exists n, controller s = Some n /\ ~ In n (aborted s)
            /\ ((exists r, i = SettleResponse n r)
                \/ exists b, i = SettleBody n b).
Proof.
  intros Hrun Hstep Htrace.
  destruct (run_latest_only _ _ _ (create_latest_only posts errors) Hrun)
    as (Hr & _).
  destruct i as [| |n r|n b]; cbn [step] in Hstep.
  - injection Hstep as <-. exfalso. apply Htrace. unfold fetchRandomPost.
    now destruct (controller s).
  - injection Hstep as <-. exfalso. apply Htrace. unfold cancel.
    now destruct (controller s).
  - unfold settleResponse in Hstep.
    destruct (decide ((n, AwaitingResponse) ∈ running s)) as [Hin|];
      [|discriminate].
    destruct (decide (n ∈ aborted s)) as [Ha|Ha].
    + injection Hstep as <-. now destruct Htrace.
    + rewrite list_elem_of_In in Ha. rewrite list_elem_of_In in Hin.
      exists n. split; [eapply Hr; eauto|]. split; [exact Ha|]. left. eauto.
  - unfold settleBody in Hstep.
    destruct (decide ((n, AwaitingBody) ∈ running s)) as [Hin|];
      [|discriminate].
    destruct (decide (n ∈ aborted s)) as [Ha|Ha].
    + injection Hstep as <-. now destruct Htrace.
    + rewrite list_elem_of_In in Ha. rewrite list_elem_of_In in Hin.
      exists n. split; [eapply Hr; eauto|]. split; [exact Ha|]. right. eauto.
Qed.

Lemma stale_response_silent (n : nat) (r : response) (s s' : State) :
  latest_only s ->
  controller s <> Some n ->
  settleResponse n r s = Some s' ->
  trace s' = trace s.
Proof.
  intros (Hr & _) Hn. unfold settleResponse.
  destruct (decide ((n, AwaitingResponse) ∈ running s)) as [Hin|];
    [|discriminate].
  destruct (decide (n ∈ aborted s)) as [Ha|Ha]; [now intros [= <-]|].
  rewrite list_elem_of_In in Ha. rewrite list_elem_of_In in Hin.
  destruct Hn. eauto.
Qed.

Lemma stale_body_silent (n : nat) (b : body) (s s' : State) :
  latest_only s ->
  controller s <> Some n ->
  settleBody n b s = Some s' ->
  trace s' = trace s.
Proof.
  intros (Hr & _) Hn. unfold settleBody.
  destruct (decide ((n, AwaitingBody) ∈ running s)) as [Hin|];
    [|discriminate].
  destruct (decide (n ∈ aborted s)) as [Ha|Ha]; [now intros [= <-]|].
  rewrite list_elem_of_In in Ha. rewrite list_elem_of_In in Hin.
  destruct Hn. eauto.
Qed.

(** The listener calls an answer adds to the trace: a post listener is
    only called with the post of the answer. *)
Lemma forEachError_posts (ls : list ErrorListener) (message : jstring)
    (tr : list event) :
  exists evs, forEachError ls message tr = tr ++ evs
              /\ forall l p, ~ In (PostCalled l p) evs.
Proof.
  revert tr. induction ls as [|l ls IH]; intros tr.
  - exists []. split; [now rewrite app_nil_r|easy].
  - cbn [forEachError]. destruct (ethrows l message).
    + exists [ErrorCalled (elid l) message; Rejected (elid l)].
      split; [now rewrite <- app_assoc|].
      intros l' p [H|[H|[]]]; discriminate H.
    + destruct (IH (tr ++ [ErrorCalled (elid l) message])) as (evs & -> & H).
      exists (ErrorCalled (elid l) message :: evs).
      split; [now rewrite <- app_assoc|].
      intros l' p [H'|H']; [discriminate H'|now apply (H l' p)].
Qed.

Lemma forEachPost_posts (ls : list PostListener) (post : Post.t)
    (tr : list event) :
  exists evs, fst (forEachPost ls post tr) = tr ++ evs
              /\ forall l p, In (PostCalled l p) evs -> p = post.
Proof.
  revert tr. induction ls as [|l ls IH]; intros tr.
  - exists []. split; [cbn; now rewrite app_nil_r|easy].
  - cbn [forEachPost]. destruct (throws l post).
    + exists [PostCalled (lid l) post]. split; [reflexivity|].
      intros l' p [H|[]]. now injection H as _ <-.
    + destruct (IH (tr ++ [PostCalled (lid l) post])) as (evs & -> & H).
      exists (PostCalled (lid l) post :: evs).
      split; [now rewrite <- app_assoc|].
      intros l' p [H'|H']; [now injection H' as _ <-|now apply (H l' p)].
Qed.

Lemma emitError_posts (s : State) :
  exists evs, trace (emitError s) = trace s ++ evs
              /\ forall l p, ~ In (PostCalled l p) evs.
Proof. unfold emitError. cbn [trace set_trace]. apply forEachError_posts. Qed.

Lemma emitPost_posts (post : Post.t) (s : State) :
  exists evs, trace (emitPost post s) = trace s ++ evs
              /\ forall l p, In (PostCalled l p) evs -> p = post.
Proof.
  unfold emitPost.
  destruct (forEachPost_posts (postFetchedListeners s) post (trace s))
    as (evs & E & H).
  destruct (forEachPost (postFetchedListeners s) post (trace s))
    as [tr [err|]]; cbn [fst] in E; subst tr.
  - destruct (emitError_posts (set_trace (trace s ++ evs) s))
      as (evs' & -> & H').
    cbn [trace set_trace]. exists (evs ++ evs').
    split; [now rewrite app_assoc|].
    intros l p Hin. apply in_app_or in Hin.
    destruct Hin as [Hin|Hin]; [now apply (H l p)|now destruct (H' l p)].
  - now exists evs.
Qed.

Lemma settleResponse_posts (n : nat) (r : response) (s s' : State) :
  settleResponse n r s = Some s' ->
  exists evs, trace s' = trace s ++ evs
              /\ forall l p, ~ In (PostCalled l p) evs.
Proof.
  unfold settleResponse.
  destruct (decide ((n, AwaitingResponse) ∈ running s)); [|discriminate].
  assert (Hnone : forall s0 : State,
            exists evs, trace s0 = trace s0 ++ evs
                        /\ forall l p, ~ In (PostCalled l p) evs).
  { intros s0. exists []. split; [now rewrite app_nil_r|easy]. }
  destruct (decide (n ∈ aborted s)); [intros [= <-]; apply (Hnone s)|].
  destruct r as [|[|] status]; intros [= <-].
  - apply (emitError_posts (set_running _ s)).
  - apply (Hnone s).
  - apply (emitError_posts (set_running _ s)).
Qed.

Lemma settleBody_posts (n : nat) (b : body) (s s' : State) :
  settleBody n b s = Some s' ->
  exists evs, trace s' = trace s ++ evs
              /\ forall l p, In (PostCalled l p) evs -> b = Json p.
Proof.
  unfold settleBody.
  destruct (decide ((n, AwaitingBody) ∈ running s)); [|discriminate].
  destruct (decide (n ∈ aborted s)).
  { intros [= <-]. exists []. split; [cbn; now rewrite app_nil_r|easy]. }
  destruct b as [post|]; intros [= <-].
  - destruct (emitPost_posts post (set_running
                (resume (n, AwaitingBody) (running s)) s)) as (evs & E & H).
    exists evs. split; [exact E|]. intros l p Hin. now rewrite (H l p Hin).
  - destruct (emitError_posts (set_running
                (resume (n, AwaitingBody) (running s)) s)) as (evs & E & H).
    exists evs. split; [exact E|]. intros l p Hin. now destruct (H l p).
Qed.

Lemma settle_all_aborted (i : input) (s s' : State) :
  is_settle i ->
  (forall n ph, In (n, ph) (running s) -> In n (aborted s)) ->
  step i s = Some s' ->
  trace s' = trace s
  /\ forall n ph, In (n, ph) (running s') -> In n (aborted s').
Proof.
  intros Hi Hall.
  destruct i as [| |n r|n b]; try destruct Hi; cbn [step].
  - unfold settleResponse.
    destruct (decide ((n, AwaitingResponse) ∈ running s)) as [Hin|];
      [|discriminate].
    destruct (decide (n ∈ aborted s)) as [Ha|Ha].
    + intros [= <-]. cbn. eauto using resume_subset.
    + exfalso. apply Ha. rewrite list_elem_of_In.
      rewrite list_elem_of_In in Hin. eauto.
  - unfold settleBody.
    destruct (decide ((n, AwaitingBody) ∈ running s)) as [Hin|];
      [|discriminate].
    destruct (decide (n ∈ aborted s)) as [Ha|Ha].
    + intros [= <-]. cbn. eauto using resume_subset.
    + exfalso. apply Ha. rewrite list_elem_of_In.
      rewrite list_elem_of_In in Hin. eauto.
Qed.

Lemma settles_silent (answers : list input) (s s' : State) :
  Forall is_settle answers ->
  (forall n ph, In (n, ph) (running s) -> In n (aborted s)) ->
  run answers s = Some s' ->
  trace s' = trace s.
Proof.
  intros Hans. revert s.
  induction Hans as [|i answers Hi _ IH]; intros s Hall Hrun; cbn in Hrun.
  - now injection Hrun as <-.
  - destruct (step i s) as [s1|] eqn:E; [|discriminate].
    destruct (settle_all_aborted i s s1 Hi Hall E) as (<- & Hall1).
    now apply IH.
Qed.

(** X17. After cancel no listener is called until fetchRandomPost is
    called again: every answer that still arrives, for the cancelled
    request or for one superseded earlier, ends its call silently. *)
Theorem cancel_silences (posts : list PostListener)
    (errors : list ErrorListener) (inputs answers : list input)
    (s s' : State) :
  run inputs (create posts errors) = Some s ->
  Forall is_settle answers ->
  run answers (cancel s) = Some s' ->
  trace s' = trace s.
Proof.
  intros Hrun Hans.
  destruct (run_latest_only _ _ _ (create_latest_only posts errors) Hrun)
    as (Hr & _).
  assert (Hall : forall n ph, In (n, ph) (running (cancel s)) ->
                              In n (aborted (cancel s))).
  { unfold cancel. intros n ph Hin.
    destruct (controller s) as [c|] eqn:Ec; cbn in *.
    - destruct (decide (n = c)) as [->|Hne]; [now left|]. right.
      destruct (decide (n ∈ aborted s)) as [Ha|Ha];
        [now apply list_elem_of_In|].
      rewrite list_elem_of_In in Ha. specialize (Hr n ph Hin Ha). congruence.
    - destruct (decide (n ∈ aborted s)) as [Ha|Ha];
        [now apply list_elem_of_In|].
      rewrite list_elem_of_In in Ha. specialize (Hr n ph Hin Ha). congruence. }
  intros Hans'. rewrite (settles_silent _ _ _ Hans Hall Hans').
  unfold cancel. now destruct (controller s).
Qed.

Lemma forEachPost_quiet (ls : list PostListener) (post : Post.t)
    (tr : list event) :
  Forall (fun l => throws l post = false) ls ->
  forEachPost ls post tr = (tr ++ map (fun l => PostCalled (lid l) post) ls, None).
Proof.
  intros H. revert tr. induction H as [|l ls Hl _ IH]; intros tr.
  - cbn. now rewrite app_nil_r.
  - cbn [forEachPost map]. rewrite Hl, IH. now rewrite <- app_assoc.
Qed.

Lemma forEachPost_throws (quiet rest : list PostListener) (bad : PostListener)
    (post : Post.t) (tr : list event) :
  Forall (fun l => throws l post = false) quiet ->
  throws bad post = true ->
  forEachPost (quiet ++ bad :: rest) post tr
  = (tr ++ map (fun l => PostCalled (lid l) post) quiet
        ++ [PostCalled (lid bad) post],
     Some (ListenerError (lid bad))).
Proof.
  intros Hq Hb. revert tr. induction Hq as [|l ls Hl _ IH]; intros tr.
  - cbn. now rewrite Hb.
  - cbn [app forEachPost map]. rewrite Hl, IH. now rewrite <- app_assoc.
Qed.

Lemma forEachError_quiet (ls : list ErrorListener) (message : jstring)
    (tr : list event) :
  Forall (fun l => ethrows l message = false) ls ->
  forEachError ls message tr
  = tr ++ map (fun l => ErrorCalled (elid l) message) ls.
Proof.
  intros H. revert tr. induction H as [|l ls Hl _ IH]; intros tr.
  - cbn. now rewrite app_nil_r.
  - cbn [forEachError map]. rewrite Hl, IH. now rewrite <- app_assoc.
Qed.

Lemma fetchRandomPost_running (s : State) :
  latest_only s ->
  (controllers s, AwaitingResponse) ∈ running (fetchRandomPost s)
  /\ ~ controllers s ∈ aborted (fetchRandomPost s)
  /\ trace (fetchRandomPost s) = trace s
  /\ postFetchedListeners (fetchRandomPost s) = postFetchedListeners s
  /\ errorListeners (fetchRandomPost s) = errorListeners s.
Proof.
  intros Hs. pose proof (cancel_latest_only s Hs) as (_ & _ & _ & Ha).
  unfold fetchRandomPost. fold (cancel s).
  assert (E : controllers (cancel s) = controllers s)
    by (unfold cancel; now destruct (controller s)).
  cbn. rewrite E. split; [|split].
  - apply list_elem_of_In, in_or_app. right. now left.
  - rewrite list_elem_of_In. intros H. apply Ha in H. lia.
  - unfold cancel. now destruct (controller s).
Qed.

Lemma step_listeners (i : input) (s s' : State) :
  step i s = Some s' ->
  postFetchedListeners s' = postFetchedListeners s
  /\ errorListeners s' = errorListeners s.
Proof.
  destruct i as [| |n r|n b]; cbn [step].
  - intros [= <-]. unfold fetchRandomPost. now destruct (controller s).
  - intros [= <-]. unfold cancel. now destruct (controller s).
  - unfold settleResponse.
    destruct (decide ((n, AwaitingResponse) ∈ running s)); [|discriminate].
    destruct (decide (n ∈ aborted s)); [now intros [= <-]|].
    destruct r as [|[|] st]; now intros [= <-].
  - unfold settleBody.
    destruct (decide ((n, AwaitingBody) ∈ running s)); [|discriminate].
    destruct (decide (n ∈ aborted s)); [now intros [= <-]|].
    destruct b as [post|]; intros [= <-]; [|easy].
    unfold emitPost. cbn.
    now destruct (forEachPost (postFetchedListeners s) post (trace s))
      as [tr [err|]].
Qed.

Lemma run_listeners (inputs : list input) (s s' : State) :
  run inputs s = Some s' ->
  postFetchedListeners s' = postFetchedListeners s
  /\ errorListeners s' = errorListeners s.
Proof.
  revert s. induction inputs as [|i inputs IH]; intros s Hrun; cbn in Hrun.
  - now injection Hrun as <-.
  - destruct (step i s) as [s1|] eqn:E; [|discriminate].
    destruct (step_listeners _ _ _ E) as (<- & <-). now apply IH.
Qed.

Lemma resume_other (c x : nat * phase) (r : list (nat * phase)) :
  x <> c -> In x r -> In x (resume c r).
Proof.
  intros Hx. induction r as [|c' r IH]; cbn; [easy|].
  destruct (decide (c' = c)) as [->|]; cbn; [|tauto].
  intros [<-|H]; [easy|exact H].
Qed.

(** X18. The answer to the call made last, when cancel has not been
    called since, does reach the listeners: a post is handed to every post
    listener once, in subscription order, and a network error, a status
    that is not ok or a body that is not JSON is reported to every error
    listener once, with one and the same message. *)
Theorem latest_call_reports (posts : list PostListener)
    (errors : list ErrorListener) (inputs : list input) (s : State)
    (post : Post.t) (status : N) :
  run inputs (create posts errors) = Some s ->
  Forall (fun l => throws l post = false) posts ->
  Forall (fun l => ethrows l (js "Erro ao buscar postagem") = false) errors ->
  let n := controllers s in
  let failed :=
    trace s ++ map (fun l => ErrorCalled (elid l) (js "Erro ao buscar postagem"))
                 errors in
  (exists s1,
      settleResponse n (Status true status) (fetchRandomPost s) = Some s1
      /\ trace s1 = trace s
      /\ (exists s2, settleBody n (Json post) s1 = Some s2
                     /\ trace s2
                        = trace s ++ map (fun l => PostCalled (lid l) post) posts)
      /\ (exists s2, settleBody n NotJson s1 = Some s2 /\ trace s2 = failed))
  /\ (exists s1,
        settleResponse n (Status false status) (fetchRandomPost s) = Some s1
        /\ trace s1 = failed)
  /\ (exists s1,
        settleResponse n NetworkError (fetchRandomPost s) = Some s1
        /\ trace s1 = failed).
Proof.
  intros Hrun Hposts Herrors n failed.
  pose proof (run_latest_only _ _ _ (create_latest_only posts errors) Hrun)
    as Hs.
  destruct (run_listeners _ _ _ Hrun) as (Hp & He). cbn in Hp, He.
  destruct (fetchRandomPost_running s Hs) as (Hin & Hna & Htr & Hp1 & He1).
  fold n in Hin, Hna. rewrite Hp in Hp1. rewrite He in He1.
  assert (Hfail : trace (emitError
                    (set_running (resume (n, AwaitingResponse)
                                         (running (fetchRandomPost s)))
                                 (fetchRandomPost s))) = failed).
  { unfold emitError. cbn [trace set_trace set_running errorListeners].
    rewrite He1, Htr. now apply forEachError_quiet. }
  split; [|split].
  - unfold settleResponse.
    destruct (decide ((n, AwaitingResponse) ∈ running (fetchRandomPost s)));
      [|contradiction].
    destruct (decide (n ∈ aborted (fetchRandomPost s))); [contradiction|].
    eexists. split; [reflexivity|]. split; [exact Htr|].
    set (s1 := set_running _ _).
    assert (Hin1 : (n, AwaitingBody) ∈ running s1).
    { apply list_elem_of_In. unfold s1. cbn. apply in_or_app. right. now left. }
    assert (Hna1 : ~ n ∈ aborted s1) by exact Hna.
    unfold settleBody.
    destruct (decide ((n, AwaitingBody) ∈ running s1)); [|contradiction].
    destruct (decide (n ∈ aborted s1)); [contradiction|].
    split.
    + eexists. split; [reflexivity|]. unfold emitPost.
      cbn [trace set_trace set_running postFetchedListeners s1].
      rewrite Hp1, Htr, (forEachPost_quiet _ _ _ Hposts). reflexivity.
    + eexists. split; [reflexivity|]. unfold emitError.
      cbn [trace set_trace set_running errorListeners s1].
      rewrite He1, Htr. now apply forEachError_quiet.
  - unfold settleResponse.
    destruct (decide ((n, AwaitingResponse) ∈ running (fetchRandomPost s)));
      [|contradiction].
    destruct (decide (n ∈ aborted (fetchRandomPost s))); [contradiction|].
    eexists. split; [reflexivity|exact Hfail].
  - unfold settleResponse.
    destruct (decide ((n, AwaitingResponse) ∈ running (fetchRandomPost s)));
      [|contradiction].
    destruct (decide (n ∈ aborted (fetchRandomPost s))); [contradiction|].
    eexists. split; [reflexivity|exact Hfail].
Qed.

End ApiSpec.

(** ** The page: properties *)

Module AppSpec.
Import JSON Favorites App.
Import JSONFacts StorageFacts FavoritesFacts.

Lemma notify_toast (message : jstring) (s : State) :
  toast (notify message s) = Some message.
Proof.
  unfold toast, notify, Notifications.show. cbn.
  now rewrite (list_lookup_middle _ [] _ _ eq_refl).
Qed.

Lemma favorite_of_json_to_json (f : Favorite.t) :
  favorite_of_json (Favorite.to_json f) = Some f.
Proof. now destruct f. Qed.

Lemma favorites_of_json_array (l : list Favorite.t) :
  favorites_of_json (Favorite.array l) = Some l.
Proof.
  unfold Favorite.array, favorites_of_json.
  induction l as [|f l IH]; [reflexivity|].
  cbn [map favorites_of_elems]. now rewrite favorite_of_json_to_json, IH.
Qed.

Section Page.

Variable formatDate : Z -> jstring.
Variable displayForeign : value -> list child * jstring * bool.

Lemma displayValue_post (v : value) (d : Dom) :
  postTitle (displayValue formatDate displayForeign v d) = postTitle d
  /\ postId (displayValue formatDate displayForeign v d) = postId d
  /\ fetchPostBtn_disabled (displayValue formatDate displayForeign v d)
     = fetchPostBtn_disabled d
  /\ saveFavoriteBtn_disabled (displayValue formatDate displayForeign v d)
     = saveFavoriteBtn_disabled d.
Proof.
  unfold displayValue. destruct (favorites_of_json v) as [[|f l]|].
  - easy.
  - easy.
  - now destruct (displayForeign v) as [[children display] threw].
Qed.

Lemma displayed_cons (e : Favorites.event) (events : list Favorites.event)
    (d : Dom) :
  displayed formatDate displayForeign (e :: events) d
  = displayed formatDate displayForeign events
      match e with
      | Called 0 v => displayValue formatDate displayForeign v d
      | _ => d
      end.
Proof. reflexivity. Qed.

Lemma displayed_post (events : list Favorites.event) (d : Dom) :
  postTitle (displayed formatDate displayForeign events d) = postTitle d
  /\ postId (displayed formatDate displayForeign events d) = postId d
  /\ fetchPostBtn_disabled (displayed formatDate displayForeign events d)
     = fetchPostBtn_disabled d
  /\ saveFavoriteBtn_disabled (displayed formatDate displayForeign events d)
     = saveFavoriteBtn_disabled d.
Proof.
  revert d. induction events as [|e events IH]; intros d; [easy|].
  rewrite displayed_cons. destruct e as [[|n] v|m]; try apply IH.
  destruct (IH (displayValue formatDate displayForeign v d))
    as (-> & -> & -> & ->).
  apply displayValue_post.
Qed.

Lemma afterFavorites_shows (w' : World) (s : State) :
  shows_current s ->
  shows_current (afterFavorites formatDate displayForeign w' s).
Proof.
  intros H post. unfold afterFavorites. cbn.
  destruct (displayed_post
              (drop (length (Favorites.trace (favoritesService s)))
                    (Favorites.trace w')) (dom s)) as (-> & -> & _ & ->).
  apply H.
Qed.

Lemma reported_shows (events : list Api.event) (s : State) :
  shows_current s -> shows_current (reported events s).
Proof.
  revert s. induction events as [|e events IH]; intros s H; [exact H|].
  change (shows_current
            (reported events
               match e with
               | Api.PostCalled 0 post => onPostFetched post s
               | Api.ErrorCalled 0 message => onPostFetchError message s
               | _ => s
               end)).
  apply IH. destruct e as [[|n] post|[|n] message|n]; try exact H.
  - intros p [= <-] _. easy.
  - intros p _ Hd. discriminate Hd.
Qed.

Lemma step_shows (i : input) (s s' : State) :
  shows_current s ->
  step formatDate displayForeign i s = Some s' -> shows_current s'.
Proof.
  intros H. destruct i as [|now|i|confirmed|t|n r|n b]; cbn [step].
  - destruct (fetchPostBtn_disabled (dom s)); [discriminate|].
    intros [= <-] post _ Hd. discriminate Hd.
  - destruct (saveFavoriteBtn_disabled (dom s)); [discriminate|].
    intros [= <-]. unfold onSaveFavorite.
    destruct (currentPost s) as [post|]; [|exact H].
    destruct (addFavorite STORAGE_KEY post now (favoritesService s))
      as [[[|]|e] w']; now apply afterFavorites_shows.
  - destruct (favoritesList (dom s) !! i) as [[text|? ? ? ? ? id]|];
      try discriminate.
    intros [= <-]. unfold onRemoveFavorite.
    destruct (removeFavorite STORAGE_KEY id (favoritesService s))
      as [[[]|e] w']; now apply afterFavorites_shows.
  - destruct (jstring_eqb _ _); [discriminate|].
    intros [= <-]. unfold onClearFavorites.
    destruct confirmed; [|exact H]. now apply afterFavorites_shows.
  - destruct (Notifications.fire t (notificationService s)); [|discriminate].
    intros [= <-]. exact H.
  - destruct (Api.settleResponse n r (apiService s)); [|discriminate].
    intros [= <-]. now apply reported_shows.
  - destruct (Api.settleBody n b (apiService s)); [|discriminate].
    intros [= <-]. now apply reported_shows.
Qed.

Lemma run_shows (inputs : list input) (s s' : State) :
  shows_current s ->
  run formatDate displayForeign inputs s = Some s' -> shows_current s'.
Proof.
  revert s. induction inputs as [|i inputs IH]; intros s H Hrun; cbn in Hrun.
  - now injection Hrun as <-.
  - destruct (step formatDate displayForeign i s) as [s1|] eqn:E;
      [|discriminate].
    eapply IH; [|exact Hrun]. eapply step_shows; eauto.
Qed.

(** X19. Whatever the page and the storage are when the application
    starts, and whatever clicks, timers and answers follow: whenever the
    save button is enabled and a post has been fetched, the title and the
    id on the page are those of the post the button would save, the id
    being a safe integer. *)
Theorem save_button_saves_displayed (html : Dom) (st : Storage)
    (inputs : list input) (s : State) (post : Post.t) :
  run formatDate displayForeign inputs
    (init formatDate displayForeign (createApp displayForeign html st))
  = Some s ->
  currentPost s = Some post ->
  Safe.post post = true ->
  saveFavoriteBtn_disabled (dom s) = false ->
  postTitle (dom s) = Post.title post
  /\ postId (dom s) = js "#" ++ id_string (Post.id post).
Proof.
  intros Hrun Hp _. revert post Hp. change (shows_current s).
  eapply run_shows; [|exact Hrun].
  intros post. unfold init.
  destruct (getFavorites STORAGE_KEY _) as [favorites w]. discriminate.
Qed.

Lemma in_sync_notify (message : jstring) (s : State) (l : list Favorite.t) :
  in_sync formatDate displayForeign s l ->
  in_sync formatDate displayForeign (notify message s) l.
Proof. intros H. exact H. Qed.

Lemma displayThrows_array (l : list Favorite.t) :
  displayThrows displayForeign (Favorite.array l) = false.
Proof. unfold displayThrows. now rewrite favorites_of_json_array. Qed.

(** The page after a call that has read the collection and not written. *)
Lemma afterRead_sync (s : State) (l : list Favorite.t) :
  in_sync formatDate displayForeign s l ->
  in_sync formatDate displayForeign
    (afterFavorites formatDate displayForeign
       (snd (getFavorites STORAGE_KEY (favoritesService s))) s) l.
Proof.
  intros (Hh & Hl & Hf & Hc). unfold afterFavorites.
  assert (E : displayed formatDate displayForeign
                (drop (length (Favorites.trace (favoritesService s)))
                      (Favorites.trace
                         (snd (getFavorites STORAGE_KEY (favoritesService s)))))
                (dom s) = dom s).
  { destruct (getFavorites_world STORAGE_KEY (favoritesService s)) as [->| ->].
    - now rewrite drop_all.
    - cbn [Favorites.trace console_error]. now rewrite drop_app_length. }
  rewrite E. split; [|split; [|split]];
    cbn [favoritesService set_favoritesService dom set_dom].
  - now apply holds_snd.
  - now rewrite getFavorites_listeners.
  - exact Hf.
  - exact Hc.
Qed.

(** The page after a call that writes [l'], from the world [w1] in which
    the call has read the collection or not. *)
Lemma afterWrite_sync (s : State) (l l' : list Favorite.t) (w1 : World) :
  in_sync formatDate displayForeign s l ->
  w1 = favoritesService s
  \/ w1 = snd (getFavorites STORAGE_KEY (favoritesService s)) ->
  in_sync formatDate displayForeign
    (afterFavorites formatDate displayForeign
       (writeFavorites STORAGE_KEY (Favorite.array l') w1) s)
    (if decide (fits STORAGE_KEY (stringify (Favorite.array l'))
                  (localStorage (favoritesService s)))
     then l' else l).
Proof.
  intros (Hh0 & Hl0 & Hf & Hc) Hw1.
  assert (Hh : holds STORAGE_KEY w1 l).
  { destruct Hw1 as [->| ->]; [exact Hh0|now apply holds_snd]. }
  assert (Hl : listeners w1 = [displayListener displayForeign]).
  { destruct Hw1 as [->| ->]; [exact Hl0|].
    now rewrite getFavorites_listeners. }
  assert (E1 : exists evs, Favorites.trace w1
                           = Favorites.trace (favoritesService s) ++ evs
                           /\ forall d, displayed formatDate displayForeign evs d = d).
  { destruct Hw1 as [->| ->]; [exists []; now rewrite app_nil_r|].
    destruct (getFavorites_world STORAGE_KEY (favoritesService s)) as [E|E];
      rewrite E.
    - exists []. now rewrite app_nil_r.
    - now exists [ConsoleError (js "Erro ao ler favoritos:")]. }
  destruct E1 as (evs & Et & Hevs).
  assert (Els : localStorage w1 = localStorage (favoritesService s)).
  { destruct Hw1 as [->| ->]; [easy|apply getFavorites_localStorage]. }
  set (w' := writeFavorites STORAGE_KEY (Favorite.array l') w1).
  destruct (decide _) as [Hfit|Hfit]; rewrite <- Els in Hfit.
  - assert (Etr : Favorites.trace w'
                  = Favorites.trace (favoritesService s)
                    ++ (evs ++ [Called 0 (Favorite.array l')])).
    { unfold w'. rewrite writeFavorites_trace; [|exact Hfit|].
      - rewrite Hl, Et. cbn. now rewrite <- app_assoc.
      - rewrite Hl. repeat constructor. cbn. apply displayThrows_array. }
    unfold afterFavorites. rewrite Etr, drop_app_length.
    unfold displayed. rewrite fold_left_app.
    fold (displayed formatDate displayForeign evs (dom s)). rewrite Hevs.
    cbn [fold_left]. unfold displayValue. rewrite favorites_of_json_array.
    split; [|split; [|split]]; cbn [favoritesService set_favoritesService
                                      dom set_dom].
    + now apply writeFavorites_holds.
    + unfold w'. now rewrite writeFavorites_listeners.
    + now destruct l'.
    + now destruct l'.
  - assert (Ew : w' = console_error "Erro ao salvar favoritos:" w1)
      by now apply writeFavorites_rejected.
    unfold afterFavorites. rewrite Ew. cbn [Favorites.trace console_error].
    rewrite Et, <- app_assoc, drop_app_length.
    unfold displayed. rewrite fold_left_app.
    fold (displayed formatDate displayForeign evs (dom s)). rewrite Hevs.
    cbn [fold_left].
    split; [|split; [|split]]; cbn [favoritesService set_favoritesService
                                      dom set_dom]; trivial.
    rewrite <- Ew. now apply writeFavorites_rejected_holds.
Qed.

Lemma onSaveFavorite_holds (now : Z) (s : State) (l : list Favorite.t)
    (post : Post.t) :
  in_sync formatDate displayForeign s l ->
  currentPost s = Some post ->
  onSaveFavorite formatDate displayForeign now s
  = if existsb (fun f => (Favorite.id f =? Post.id post)%Z) l
    then notify ALREADY_SAVED
           (afterFavorites formatDate displayForeign
              (snd (getFavorites STORAGE_KEY (favoritesService s))) s)
    else notify SAVED
           (afterFavorites formatDate displayForeign
              (writeFavorites STORAGE_KEY
                 (Favorite.array (newFavorite post now :: l))
                 (snd (getFavorites STORAGE_KEY (favoritesService s)))) s).
Proof.
  intros (Hh & _) Hp. unfold onSaveFavorite. rewrite Hp.
  rewrite (addFavorite_holds STORAGE_KEY post now _ l Hh).
  now destruct (existsb _ l).
Qed.

Lemma onRemoveFavorite_holds (id : Z) (s : State) (l : list Favorite.t) :
  in_sync formatDate displayForeign s l ->
  onRemoveFavorite formatDate displayForeign id s
  = notify REMOVED
      (afterFavorites formatDate displayForeign
         (writeFavorites STORAGE_KEY (Favorite.array (keep id l))
            (snd (getFavorites STORAGE_KEY (favoritesService s)))) s).
Proof.
  intros (Hh & _). unfold onRemoveFavorite.
  now rewrite (removeFavorite_holds STORAGE_KEY id _ l Hh).
Qed.

Lemma item_removes (l : list Favorite.t) (i : nat) (c : child) :
  match l with
  | [] => [EmptyState (js "Nenhum favorito salvo ainda")]
  | _ :: _ => map (item formatDate) l
  end !! i = Some c ->
  match c with
  | EmptyState _ => l = []
  | FavoriteItem _ _ _ _ _ id =>
      exists f, l !! i = Some f /\ Favorite.id f = id
  end.
Proof.
  destruct l as [|f0 l0].
  - destruct i; [now intros [= <-]|discriminate].
  - rewrite list_lookup_fmap.
    destruct ((f0 :: l0) !! i) as [f|] eqn:E; [|discriminate].
    intros [= <-]. now exists f.
Qed.

(** Adding an id that is not there, and removing one, keep the ids
    distinct. *)
Lemma NoDup_new (post : Post.t) (now : Z) (l : list Favorite.t) :
  existsb (fun f => (Favorite.id f =? Post.id post)%Z) l = false ->
  List.NoDup (map Favorite.id l) ->
  List.NoDup (map Favorite.id (newFavorite post now :: l)).
Proof.
  intros He Hn. cbn. constructor; [|exact Hn].
  intros Hin. apply existsb_id in Hin. congruence.
Qed.

Lemma reported_favorites (events : list Api.event) (s : State) :
  favoritesService (reported events s) = favoritesService s
  /\ favoritesList (dom (reported events s)) = favoritesList (dom s)
  /\ clearFavoritesBtn_display (dom (reported events s))
     = clearFavoritesBtn_display (dom s).
Proof.
  revert s. induction events as [|e events IH]; intros s; [easy|].
  change (reported (e :: events) s)
    with (reported events
            match e with
            | Api.PostCalled 0 post => onPostFetched post s
            | Api.ErrorCalled 0 message => onPostFetchError message s
            | _ => s
            end).
  destruct e as [[|n] post|[|n] message|n]; try apply IH.
  - destruct (IH (onPostFetched post s)) as (-> & -> & ->). easy.
  - destruct (IH (onPostFetchError message s)) as (-> & -> & ->). easy.
Qed.

Lemma safe_keep (id : Z) (l : list Favorite.t) :
  Safe.favorites l = true -> Safe.favorites (keep id l) = true.
Proof.
  unfold Safe.favorites, keep. induction l as [|f l IH]; [easy|].
  cbn. intros H. apply andb_prop in H. destruct H as [Hf Hl].
  destruct (negb _); cbn; [rewrite Hf|]; now apply IH.
Qed.

Lemma safe_new (post : Post.t) (now : Z) (l : list Favorite.t) :
  Safe.post post = true ->
  Safe.isSafeInteger now = true ->
  Safe.favorites l = true ->
  Safe.favorites (newFavorite post now :: l) = true.
Proof.
  unfold Safe.post. intros Hp Hn Hl. cbn. unfold Safe.favorite. cbn.
  now rewrite Hp, Hn.
Qed.

Lemma reported_safe (events : list Api.event) (s : State) :
  (forall l p, In (Api.PostCalled l p) events -> Safe.post p = true) ->
  safe_current s -> safe_current (reported events s).
Proof.
  revert s. induction events as [|e events IH]; intros s He H; [exact H|].
  change (safe_current
            (reported events
               match e with
               | Api.PostCalled 0 post => onPostFetched post s
               | Api.ErrorCalled 0 message => onPostFetchError message s
               | _ => s
               end)).
  apply IH; [intros l p Hin; apply (He l p); now right|].
  destruct e as [[|n] post|[|n] message|n]; try exact H.
  intros p [= <-]. apply (He 0%nat post). now left.
Qed.

(** A step keeps the list on the page equal to the stored collection, the
    ids distinct, and the numbers safe when the input brings safe ones. *)
Lemma step_sync (i : input) (s s' : State) (l : list Favorite.t) :
  in_sync formatDate displayForeign s l ->
  step formatDate displayForeign i s = Some s' ->
  exists l', in_sync formatDate displayForeign s' l'
             /\ (List.NoDup (map Favorite.id l) ->
                 List.NoDup (map Favorite.id l'))
             /\ (safe_input i = true -> Safe.favorites l = true ->
                 safe_current s ->
                 Safe.favorites l' = true /\ safe_current s').
Proof.
  intros H. destruct i as [|now|i|confirmed|t|n r|n b]; cbn [step].
  - destruct (fetchPostBtn_disabled (dom s)); [discriminate|].
    intros [= <-]. exists l. split; [|easy].
    destruct H as (Hh & Hl & Hf & Hc).
    split; [|split; [|split]]; assumption.
  - destruct (saveFavoriteBtn_disabled (dom s)); [discriminate|].
    intros [= <-].
    destruct (currentPost s) as [post|] eqn:Hp.
    2: { exists l. unfold onSaveFavorite. now rewrite Hp. }
    rewrite (onSaveFavorite_holds now s l post H Hp).
    destruct (existsb _ l) eqn:He.
    + exists l. split; [|easy]. apply in_sync_notify. now apply afterRead_sync.
    + eexists. split; [|split].
      * apply in_sync_notify. apply (afterWrite_sync s l); [exact H|now right].
      * intros Hn. destruct (decide _); [|exact Hn]. now apply NoDup_new.
      * intros Hi Hl Hc. split; [|exact Hc].
        destruct (decide _); [|exact Hl]. apply safe_new; auto.
  - destruct (favoritesList (dom s) !! i) as [[text|? ? ? ? ? id]|];
      try discriminate.
    intros [= <-]. rewrite (onRemoveFavorite_holds id s l H).
    eexists. split; [|split].
    + apply in_sync_notify. apply (afterWrite_sync s l); [exact H|now right].
    + intros Hn. destruct (decide _); [|exact Hn].
      now apply FavoritesSpec.NoDup_keep.
    + intros _ Hl Hc. split; [|exact Hc].
      destruct (decide _); [|exact Hl]. now apply safe_keep.
  - destruct (jstring_eqb _ _); [discriminate|].
    intros [= <-]. destruct confirmed; [|now exists l].
    eexists. split; [|split].
    + unfold onClearFavorites, clearAllFavorites. apply in_sync_notify.
      apply (afterWrite_sync s l []); [exact H|now left].
    + intros Hn. destruct (decide _); [constructor|exact Hn].
    + intros _ Hl Hc. split; [|exact Hc]. now destruct (decide _).
  - destruct (Notifications.fire t (notificationService s)); [|discriminate].
    intros [= <-]. now exists l.
  - destruct (Api.settleResponse n r (apiService s)) as [a'|] eqn:E;
      [|discriminate].
    intros [= <-]. exists l. unfold afterApi.
    destruct (reported_favorites
                (drop (length (Api.trace (apiService s))) (Api.trace a'))
                (set_apiService a' s)) as (E1 & E2 & E3).
    split; [|split; [easy|]].
    + unfold in_sync. rewrite E1, E2, E3. exact H.
    + intros _ Hl Hc. split; [exact Hl|].
      destruct (ApiSpec.settleResponse_posts _ _ _ _ E) as (evs & -> & Hevs).
      rewrite drop_app_length. apply reported_safe; [|exact Hc].
      intros l0 p Hin. now destruct (Hevs l0 p).
  - destruct (Api.settleBody n b (apiService s)) as [a'|] eqn:E;
      [|discriminate].
    intros [= <-]. exists l. unfold afterApi.
    destruct (reported_favorites
                (drop (length (Api.trace (apiService s))) (Api.trace a'))
                (set_apiService a' s)) as (E1 & E2 & E3).
    split; [|split; [easy|]].
    + unfold in_sync. rewrite E1, E2, E3. exact H.
    + intros Hi Hl Hc. split; [exact Hl|].
      destruct (ApiSpec.settleBody_posts _ _ _ _ E) as (evs & -> & Hevs).
      rewrite drop_app_length. apply reported_safe; [|exact Hc].
      intros l0 p Hin. rewrite (Hevs l0 p Hin) in Hi. exact Hi.
Qed.

Lemma run_sync (inputs : list input) (s s' : State) (l : list Favorite.t) :
  in_sync formatDate displayForeign s l ->
  run formatDate displayForeign inputs s = Some s' ->
  exists l', in_sync formatDate displayForeign s' l'
             /\ (List.NoDup (map Favorite.id l) ->
                 List.NoDup (map Favorite.id l'))
             /\ (forallb safe_input inputs = true -> Safe.favorites l = true ->
                 safe_current s ->
                 Safe.favorites l' = true /\ safe_current s').
Proof.
  revert s l. induction inputs as [|i inputs IH]; intros s l H Hrun;
    cbn in Hrun.
  - injection Hrun as <-. now exists l.
  - destruct (step formatDate displayForeign i s) as [s1|] eqn:E;
      [|discriminate].
    destruct (step_sync i s s1 l H E) as (l1 & H1 & Hn1 & Hs1).
    destruct (IH s1 l1 H1 Hrun) as (l' & H' & Hn' & Hs').
    exists l'. split; [exact H'|]. split.
    + intros Hn. apply Hn', Hn1, Hn.
    + cbn [forallb]. intros Hi Hl Hc. apply andb_prop in Hi.
      destruct Hi as [Hi Hinputs].
      destruct (Hs1 Hi Hl Hc) as (Hl1 & Hc1). now apply Hs'.
Qed.

Lemma init_sync (html : Dom) (st : Storage) (l : list Favorite.t) :
  holds STORAGE_KEY (favoritesService (createApp displayForeign html st)) l ->
  in_sync formatDate displayForeign
    (init formatDate displayForeign (createApp displayForeign html st)) l.
Proof.
  intros Hh. unfold init.
  set (s1 := set_apiService _ _).
  change (favoritesService s1)
    with (favoritesService (createApp displayForeign html st)).
  pose proof (holds_snd STORAGE_KEY _ _ Hh) as Hh1.
  pose proof (getFavorites_listeners STORAGE_KEY
                (favoritesService (createApp displayForeign html st))) as Hl.
  unfold holds in Hh.
  destruct (getFavorites STORAGE_KEY _) as [favorites w].
  cbn [fst snd] in Hh, Hh1, Hl. subst favorites.
  unfold displayValue. rewrite favorites_of_json_array.
  split; [|split; [|split]]; cbn [favoritesService set_favoritesService
                                    dom set_dom].
  - exact Hh1.
  - exact Hl.
  - now destruct l.
  - now destruct l.
Qed.

(** X20. When the storage of the origin holds a collection of favorites,
    or none, as the application starts, the list on the page is the
    stored collection at the start and after every click, timer and
    answer, also after a write that the storage has rejected: one item
    for each stored favorite, in the stored order, each with the remove
    button of its id, and the clear button hidden exactly when nothing is
    stored. Ids that were distinct at the start stay distinct. The ids
    and timestamps stored at the start, the ids of the posts fetched and
    the times of the clicks on the save button are safe integers, and so
    are the ids and timestamps stored afterwards. *)
Theorem page_shows_stored (html : Dom) (st : Storage) (l0 : list Favorite.t)
    (inputs : list input) (s : State) :
  holds STORAGE_KEY (favoritesService (createApp displayForeign html st)) l0 ->
  Safe.favorites l0 = true ->
  forallb safe_input inputs = true ->
  run formatDate displayForeign inputs
    (init formatDate displayForeign (createApp displayForeign html st))
  = Some s ->
  exists l, in_sync formatDate displayForeign s l
            /\ Safe.favorites l = true
            /\ (List.NoDup (map Favorite.id l0) ->
                List.NoDup (map Favorite.id l)).
Proof.
  intros Hh Hl0 Hinputs Hrun.
  destruct (run_sync inputs _ s l0 (init_sync html st l0 Hh) Hrun)
    as (l & Hsync & Hn & Hsafe).
  exists l. split; [exact Hsync|]. split; [|exact Hn].
  apply Hsafe; [exact Hinputs|exact Hl0|].
  intros post. unfold init.
  destruct (getFavorites STORAGE_KEY _) as [favorites w]. discriminate.
Qed.

Lemma keep_delete (l : list Favorite.t) (i : nat) (f : Favorite.t) :
  List.NoDup (map Favorite.id l) ->
  l !! i = Some f ->
  keep (Favorite.id f) l = delete i l.
Proof.
  revert i. induction l as [|g l IH]; intros i Hn Hi; [discriminate|].
  cbn in Hn. apply NoDup_cons_iff in Hn. destruct Hn as [Hg Hl].
  destruct i as [|i]; cbn in Hi.
  - injection Hi as ->. cbn. rewrite Z.eqb_refl. cbn.
    now apply FavoritesSpec.keep_id.
  - cbn. destruct (Favorite.id g =? Favorite.id f)%Z eqn:E.
    + apply Z.eqb_eq in E. destruct Hg. rewrite E. apply in_map.
      apply list_elem_of_In. eapply list_elem_of_lookup_2; eauto.
    + cbn. f_equal. now apply IH.
Qed.

(** X21. A click on the save button with the post [post] fetched: when
    its id is among the stored favorites the page says so and nothing
    changes; otherwise the page says that the destination was saved, and
    the new favorite heads the stored collection and the list on the page
    when the storage takes the write. When the storage rejects the write
    the page still says that the destination was saved, while the stored
    collection and the list stay as they were. The ids and timestamps
    stored, the post's id and the time of the click are safe integers. *)
Theorem save_click (now : Z) (s : State) (l : list Favorite.t)
    (post : Post.t) :
  in_sync formatDate displayForeign s l ->
  Safe.favorites l = true ->
  currentPost s = Some post ->
  Safe.post post = true ->
  Safe.isSafeInteger now = true ->
  let s' := onSaveFavorite formatDate displayForeign now s in
  let saved := newFavorite post now :: l in
  let accepted :=
    fits STORAGE_KEY (stringify (Favorite.array saved))
      (localStorage (favoritesService s)) in
  (In (Post.id post) (map Favorite.id l) ->
   toast s' = Some ALREADY_SAVED /\ in_sync formatDate displayForeign s' l)
  /\ (~ In (Post.id post) (map Favorite.id l) ->
      toast s' = Some SAVED
      /\ (accepted -> in_sync formatDate displayForeign s' saved)
      /\ (~ accepted -> in_sync formatDate displayForeign s' l)).
Proof.
  intros Hs _ Hp _ _ s' saved accepted. unfold s'.
  rewrite (onSaveFavorite_holds now s l post Hs Hp).
  split; intros Hin.
  - apply existsb_id in Hin. rewrite Hin.
    split; [apply notify_toast|]. apply in_sync_notify.
    now apply afterRead_sync.
  - destruct (existsb _ l) eqn:He; [apply existsb_id in He; tauto|].
    split; [apply notify_toast|].
    pose proof (afterWrite_sync s l saved _ Hs (or_intror eq_refl)) as H.
    fold accepted in H.
    split; intros Ha; apply in_sync_notify;
      destruct (decide accepted); tauto.
Qed.

(** X22. A click on the remove button of the item at position [i] of a
    list with distinct ids: the page says that the favorite was removed,
    and exactly that item leaves the stored collection and the list, the
    others keeping their order, when the storage takes the write. When
    the storage rejects the write the page says the same, and the stored
    collection and the list stay as they were. The ids and timestamps
    stored are safe integers. *)
Theorem remove_click (i : nat) (s : State) (l : list Favorite.t)
    (f : Favorite.t) :
  in_sync formatDate displayForeign s l ->
  Safe.favorites l = true ->
  List.NoDup (map Favorite.id l) ->
  l !! i = Some f ->
  let accepted :=
    fits STORAGE_KEY (stringify (Favorite.array (delete i l)))
      (localStorage (favoritesService s)) in
  exists s',
    step formatDate displayForeign (ClickRemove i) s = Some s'
    /\ toast s' = Some REMOVED
    /\ (accepted -> in_sync formatDate displayForeign s' (delete i l))
    /\ (~ accepted -> in_sync formatDate displayForeign s' l).
Proof.
  intros Hs _ Hn Hi accepted. destruct Hs as (Hh & Hl & Hf & Hc).
  assert (Hc' : favoritesList (dom s) !! i = Some (item formatDate f)).
  { rewrite Hf. destruct l as [|g l']; [discriminate|].
    now rewrite list_lookup_fmap, Hi. }
  assert (Hs : in_sync formatDate displayForeign s l) by easy.
  cbn [step]. rewrite Hc'. cbn [item].
  eexists. split; [reflexivity|].
  rewrite (onRemoveFavorite_holds _ s l Hs).
  split; [apply notify_toast|].
  pose proof (afterWrite_sync s l (keep (Favorite.id f) l) _ Hs
                (or_intror eq_refl)) as H.
  rewrite (keep_delete l i f Hn Hi) in *. fold accepted in H.
  split; intros Ha; apply in_sync_notify;
    destruct (decide accepted); tauto.
Qed.

Lemma reported_apiService (events : list Api.event) (s : State) :
  apiService (reported events s) = apiService s.
Proof.
  revert s. induction events as [|e events IH]; intros s; [easy|].
  change (reported (e :: events) s)
    with (reported events
            match e with
            | Api.PostCalled 0 post => onPostFetched post s
            | Api.ErrorCalled 0 message => onPostFetchError message s
            | _ => s
            end).
  rewrite IH. now destruct e as [[|n] post|[|n] message|n].
Qed.

Lemma fetchRandomPost_invariant (a : Api.State) :
  api_invariant a -> api_invariant (Api.fetchRandomPost a).
Proof.
  intros (Hlo & Hlive & Hp & He).
  pose proof (ApiSpec.step_latest_only Api.FetchRandomPost a _ Hlo eq_refl)
    as Hlo'.
  destruct (ApiSpec.step_listeners Api.FetchRandomPost a _ eq_refl)
    as (Hp' & He').
  split; [exact Hlo'|]. split; [|now rewrite Hp', He'].
  intros n Hc Hin.
  destruct (ApiSpec.fetchRandomPost_running a Hlo) as (_ & Hna & _).
  unfold Api.fetchRandomPost in Hc. cbn in Hc.
  assert (n = Api.controllers a).
  { destruct (Api.controller a); cbn in Hc; congruence. }
  subst n. apply Hna. now apply list_elem_of_In.
Qed.

Lemma settle_invariant (i : Api.input) (a a' : Api.State) :
  Api.is_settle i ->
  api_invariant a -> Api.step i a = Some a' -> api_invariant a'.
Proof.
  intros Hi (Hlo & Hlive & Hp & He) Hstep.
  pose proof (ApiSpec.step_latest_only i a a' Hlo Hstep) as Hlo'.
  destruct (ApiSpec.step_listeners i a a' Hstep) as (Hp' & He').
  split; [exact Hlo'|]. split; [|now rewrite Hp', He'].
  assert (E : Api.controller a' = Api.controller a
              /\ Api.aborted a' = Api.aborted a).
  { destruct i as [| |n r|n b]; try destruct Hi; cbn [Api.step] in Hstep.
    - unfold Api.settleResponse in Hstep.
      destruct (decide _); [|discriminate].
      destruct (decide _); [now injection Hstep as <-|].
      destruct r as [|[|] st]; now injection Hstep as <-.
    - unfold Api.settleBody in Hstep.
      destruct (decide _); [|discriminate].
      destruct (decide _); [now injection Hstep as <-|].
      destruct b as [post|]; injection Hstep as <-; [|easy].
      destruct (ApiSpec.emitPost_state post
                  (Api.set_running
                     (Api.resume (n, Api.AwaitingBody) (Api.running a)) a))
        as (-> & _ & -> & _).
      easy. }
  destruct E as (-> & ->). exact Hlive.
Qed.

Lemma step_api_invariant (i : input) (s s' : State) :
  api_invariant (apiService s) ->
  step formatDate displayForeign i s = Some s' ->
  api_invariant (apiService s').
Proof.
  intros H. destruct i as [|now|i|confirmed|t|n r|n b]; cbn [step].
  - destruct (fetchPostBtn_disabled (dom s)); [discriminate|].
    intros [= <-]. now apply fetchRandomPost_invariant.
  - destruct (saveFavoriteBtn_disabled (dom s)); [discriminate|].
    intros [= <-]. unfold onSaveFavorite.
    destruct (currentPost s) as [post|]; [|exact H].
    now destruct (addFavorite STORAGE_KEY post now (favoritesService s))
      as [[[|]|e] w'].
  - destruct (favoritesList (dom s) !! i) as [[text|? ? ? ? ? id]|];
      try discriminate.
    intros [= <-]. unfold onRemoveFavorite.
    now destruct (removeFavorite STORAGE_KEY id (favoritesService s))
      as [[[]|e] w'].
  - destruct (jstring_eqb _ _); [discriminate|].
    intros [= <-]. now destruct confirmed.
  - destruct (Notifications.fire t (notificationService s)); [|discriminate].
    now intros [= <-].
  - destruct (Api.settleResponse n r (apiService s)) as [a'|] eqn:E;
      [|discriminate].
    intros [= <-]. unfold afterApi. rewrite reported_apiService.
    now apply (settle_invariant (Api.SettleResponse n r) (apiService s)).
  - destruct (Api.settleBody n b (apiService s)) as [a'|] eqn:E;
      [|discriminate].
    intros [= <-]. unfold afterApi. rewrite reported_apiService.
    now apply (settle_invariant (Api.SettleBody n b) (apiService s)).
Qed.

Lemma run_api_invariant (inputs : list input) (s s' : State) :
  api_invariant (apiService s) ->
  run formatDate displayForeign inputs s = Some s' ->
  api_invariant (apiService s').
Proof.
  revert s. induction inputs as [|i inputs IH]; intros s H Hrun; cbn in Hrun.
  - now injection Hrun as <-.
  - destruct (step formatDate displayForeign i s) as [s1|] eqn:E;
      [|discriminate].
    eapply IH; [|exact Hrun]. eapply step_api_invariant; eauto.
Qed.

Lemma init_api_invariant (html : Dom) (st : Storage) :
  api_invariant
    (apiService
       (init formatDate displayForeign (createApp displayForeign html st))).
Proof.
  unfold init. destruct (getFavorites STORAGE_KEY _) as [favorites w].
  cbn [apiService set_favoritesService set_dom set_apiService].
  apply fetchRandomPost_invariant.
  split; [apply ApiSpec.create_latest_only|]. now split.
Qed.

(** X23. An answer that arrives for a request other than the one made
    last changes nothing on the page: the title, the id, the buttons, the
    list, the post held for saving and the console stay as they were. *)
Theorem stale_answer_ignored (html : Dom) (st : Storage)
    (inputs : list input) (s s' : State) (n : nat) (i : input) :
  run formatDate displayForeign inputs
    (init formatDate displayForeign (createApp displayForeign html st))
  = Some s ->
  Api.controller (apiService s) <> Some n ->
  (exists r, i = ResponseArrives n r) \/ (exists b, i = BodyArrives n b) ->
  step formatDate displayForeign i s = Some s' ->
  dom s' = dom s /\ currentPost s' = currentPost s
  /\ console s' = console s
  /\ favoritesService s' = favoritesService s
  /\ notificationService s' = notificationService s.
Proof.
  intros Hrun Hn Hi.
  destruct (run_api_invariant _ _ _ (init_api_invariant html st) Hrun)
    as (Hlo & _).
  destruct Hi as [(r & ->)|(b & ->)]; cbn [step].
  - destruct (Api.settleResponse n r (apiService s)) as [a'|] eqn:E;
      [|discriminate].
    intros [= <-]. unfold afterApi.
    rewrite (ApiSpec.stale_response_silent n r _ _ Hlo Hn E), drop_all.
    easy.
  - destruct (Api.settleBody n b (apiService s)) as [a'|] eqn:E;
      [|discriminate].
    intros [= <-]. unfold afterApi.
    rewrite (ApiSpec.stale_body_silent n b _ _ Hlo Hn E), drop_all.
    easy.
Qed.

(** X24. The answer to the request made last ends the loading state. A
    post, its id being a safe integer, becomes the post on display and the
    post held for saving, with both buttons enabled. A failure puts the error text in the title,
    enables the fetch button, disables the save button, logs the message
    and leaves the post held for saving as it was. A response with an ok
    status alone changes nothing: the body is still awaited. *)
Theorem answer_ends_loading (html : Dom) (st : Storage)
    (inputs : list input) (s s' : State) (n : nat) (i : input) :
  run formatDate displayForeign inputs
    (init formatDate displayForeign (createApp displayForeign html st))
  = Some s ->
  Api.controller (apiService s) = Some n ->
  step formatDate displayForeign i s = Some s' ->
  (forall post, i = BodyArrives n (Api.Json post) ->
     Safe.post post = true ->
     currentPost s' = Some post
     /\ postTitle (dom s') = Post.title post
     /\ postId (dom s') = js "#" ++ id_string (Post.id post)
     /\ fetchPostBtn_disabled (dom s') = false
     /\ saveFavoriteBtn_disabled (dom s') = false)
  /\ (failure n i ->
      currentPost s' = currentPost s
      /\ postTitle (dom s') = js "Erro ao carregar destino. Tente novamente."
      /\ postId (dom s') = postId (dom s)
      /\ fetchPostBtn_disabled (dom s') = false
      /\ saveFavoriteBtn_disabled (dom s') = true
      /\ console s' = console s ++ [js "Erro ao buscar postagem"])
  /\ (forall status, i = ResponseArrives n (Api.Status true status) ->
      dom s' = dom s /\ currentPost s' = currentPost s).
Proof.
  intros Hrun Hc Hstep.
  destruct (run_api_invariant _ _ _ (init_api_invariant html st) Hrun)
    as (Hlo & Hlive & Hp & He).
  specialize (Hlive n Hc). rewrite <- list_elem_of_In in Hlive.
  assert (Herr : forall r,
            afterApi (Api.emitError (Api.set_running r (apiService s))) s
            = onPostFetchError (js "Erro ao buscar postagem")
                (set_apiService
                   (Api.emitError (Api.set_running r (apiService s))) s)).
  { intros r. unfold afterApi, Api.emitError.
    cbn [Api.trace Api.set_trace Api.errorListeners Api.set_running].
    rewrite He. cbn [Api.forEachError errorListener Api.ethrows Api.elid].
    now rewrite drop_app_length. }
  split; [|split].
  - intros post -> _. cbn [step] in Hstep. unfold Api.settleBody in Hstep.
    destruct (decide _); [|discriminate].
    destruct (decide _); [contradiction|].
    injection Hstep as <-. unfold afterApi, Api.emitPost.
    cbn [Api.trace Api.set_trace Api.postFetchedListeners Api.set_running].
    rewrite Hp. cbn [Api.forEachPost postListener Api.throws Api.lid].
    cbn [Api.trace Api.set_trace]. rewrite drop_app_length. easy.
  - intros [->|[(status & ->)| ->]]; cbn [step] in Hstep.
    + unfold Api.settleResponse in Hstep.
      destruct (decide _); [|discriminate].
      destruct (decide _); [contradiction|].
      injection Hstep as <-. rewrite Herr. easy.
    + unfold Api.settleResponse in Hstep.
      destruct (decide _); [|discriminate].
      destruct (decide _); [contradiction|].
      injection Hstep as <-. rewrite Herr. easy.
    + unfold Api.settleBody in Hstep.
      destruct (decide _); [|discriminate].
      destruct (decide _); [contradiction|].
      injection Hstep as <-. rewrite Herr. easy.
  - intros status ->. cbn [step] in Hstep. unfold Api.settleResponse in Hstep.
    destruct (decide _); [|discriminate].
    destruct (decide _); [contradiction|].
    injection Hstep as <-. unfold afterApi.
    cbn [Api.trace Api.set_running]. now rewrite drop_all.
Qed.

End Page.

End AppSpec.

(** ** The properties on the scenarios *)

Module FavoritesScenarios.
Import JSON Examples Scenarios.
Import Favorites FavoritesMore.

(** [other_keys_untouched]: the saved theme stays when a favorite is
    added. *)
Lemma other_keys_untouched_witness :
  getItem THEME_KEY
    (localStorage (snd (addFavorite STORAGE_KEY tokyo 100 both_keys)))
  = getItem THEME_KEY (localStorage both_keys)
  /\ getItem THEME_KEY (localStorage (clearAllFavorites STORAGE_KEY both_keys))
     = getItem THEME_KEY (localStorage both_keys).
Proof.
  assert (Hk : THEME_KEY <> STORAGE_KEY).
  { intros H. apply (f_equal length) in H. vm_compute in H. discriminate. }
  destruct (other_keys_untouched STORAGE_KEY THEME_KEY both_keys Hk)
    as (Hadd & _ & Hclear & _).
  split; [apply Hadd|exact Hclear].
Defined.

(** [add_new_notifies]: Paris after Tokyo. *)
Lemma add_new_notifies_witness :
  exists w',
    addFavorite STORAGE_KEY paris 200 one_saved = (Normal true, w')
    /\ holds STORAGE_KEY w' [newFavorite paris 200; newFavorite tokyo 100]
    /\ listeners w' = listeners one_saved
    /\ calls (trace w')
       = calls (trace one_saved)
         ++ map (fun ls =>
                   (lid ls,
                    Favorite.array [newFavorite paris 200; newFavorite tokyo 100]))
              (listeners one_saved).
Proof.
  apply (add_new_notifies STORAGE_KEY paris 200 one_saved
           [newFavorite tokyo 100]).
  - vm_compute. reflexivity.
  - reflexivity.
  - reflexivity.
  - reflexivity.
  - cbn. intuition discriminate.
  - unfold fits. vm_compute. lia.
  - repeat constructor.
Defined.

(** [clear_resets] on a stored text that is not JSON. *)
Lemma clear_resets_witness :
  let w := world_with "not json" 100 in
  getFavorites STORAGE_KEY (clearAllFavorites STORAGE_KEY w)
  = (JArr [], clearAllFavorites STORAGE_KEY w)
  /\ getItem STORAGE_KEY (localStorage (clearAllFavorites STORAGE_KEY w))
     = Some (js "[]")
  /\ trace (clearAllFavorites STORAGE_KEY w)
     = trace w ++ map (fun ls => Called (lid ls) (JArr [])) (listeners w).
Proof.
  apply (clear_resets STORAGE_KEY (world_with "not json" 100)).
  - unfold fits. vm_compute. lia.
  - constructor.
Defined.

(** [not_an_array_throws] on the stored text 42. *)
Lemma not_an_array_throws_witness :
  addFavorite STORAGE_KEY tokyo 100 (world_with "42" 100)
  = (Throw TypeError, world_with "42" 100)
  /\ removeFavorite STORAGE_KEY 7 (world_with "42" 100)
     = (Throw TypeError, world_with "42" 100).
Proof.
  destruct (not_an_array_throws STORAGE_KEY (world_with "42" 100) (js "42")
              (JNum 42 0)) as (Hadd & Hremove).
  - vm_compute. reflexivity.
  - vm_compute. reflexivity.
  - intros elems H. discriminate H.
  - split; [apply Hadd|apply Hremove].
Defined.

(** [add_then_remove]: Tokyo added to an empty collection and removed. *)
Lemma add_then_remove_witness :
  exists w1 w2,
    addFavorite STORAGE_KEY tokyo 100 (world 1000 [observer 1])
    = (Normal true, w1)
    /\ removeFavorite STORAGE_KEY (Post.id tokyo) w1 = (Normal tt, w2)
    /\ holds STORAGE_KEY w1 [newFavorite tokyo 100]
    /\ holds STORAGE_KEY w2 [].
Proof.
  apply (add_then_remove STORAGE_KEY tokyo 100 (world 1000 [observer 1]) []).
  - vm_compute. reflexivity.
  - reflexivity.
  - reflexivity.
  - reflexivity.
  - cbn. tauto.
  - unfold fits. vm_compute. lia.
Defined.

(** [remove_persists]: Tokyo removed after Tokyo and Paris. *)
Lemma remove_persists_witness :
  exists w',
    removeFavorite STORAGE_KEY 7 two_saved = (Normal tt, w')
    /\ getItem STORAGE_KEY (localStorage w')
       = Some (stringify
                 (Favorite.array
                    (keep 7 [newFavorite paris 200; newFavorite tokyo 100])))
    /\ holds STORAGE_KEY w'
         (keep 7 [newFavorite paris 200; newFavorite tokyo 100])
    /\ (used (items (localStorage w')) <= quota (localStorage w'))%nat.
Proof.
  apply (remove_persists STORAGE_KEY 7 two_saved
           [newFavorite paris 200; newFavorite tokyo 100]).
  - reflexivity.
  - reflexivity.
  - vm_compute. reflexivity.
  - vm_compute. lia.
Defined.

(** [listener_throws]: the second of three listeners throws. *)
Lemma listener_throws_witness :
  let l := [newFavorite tokyo 100] in
  let w' := writeFavorites STORAGE_KEY (Favorite.array l) three_listeners in
  holds STORAGE_KEY w' l
  /\ trace w'
     = trace three_listeners
       ++ map (fun ls => Called (lid ls) (Favorite.array l)) [observer 1]
       ++ [Called (lid (faulty 2)) (Favorite.array l);
           ConsoleError (js "Erro ao salvar favoritos:")].
Proof.
  apply (listener_throws STORAGE_KEY [newFavorite tokyo 100] three_listeners
           [observer 1] [observer 3] (faulty 2)).
  - unfold fits. vm_compute. lia.
  - reflexivity.
  - repeat constructor.
  - reflexivity.
Defined.

(** [unsubscribed_not_called]: the first of two listeners leaves. *)
Lemma unsubscribed_not_called_witness :
  let w := world 1000 [observer 1; observer 2] in
  exists w',
    run STORAGE_KEY [AddFavorite tokyo 100; RemoveFavorite 7]
      (unsubscribe (observer 1) w) = Some w'
    /\ List.filter (fun c => Nat.eqb (fst c) (lid (observer 1)))
         (calls (trace w'))
       = List.filter (fun c => Nat.eqb (fst c) (lid (observer 1)))
           (calls (trace w)).
Proof.
  cbv zeta. eexists. split; [vm_compute; reflexivity|].
  apply (unsubscribed_not_called STORAGE_KEY (observer 1)
           [AddFavorite tokyo 100; RemoveFavorite 7]).
  - repeat constructor; intros l' H; discriminate H.
  - vm_compute. reflexivity.
Defined.

End FavoritesScenarios.

Module ThemeScenarios.
Import Examples Scenarios.
Import ThemeService ThemeEvents ThemeMore.

(** [theme_survives_reload]: dark is set, and the page is loaded again on
    a system that prefers light. *)
Lemma theme_survives_reload_witness :
  getCurrent
    (create THEME_KEY
       (localStorage (snd (setTheme THEME_KEY dark (observed_theme 100))))
       (Some false))
  = dark.
Proof.
  apply (proj1 (theme_survives_reload THEME_KEY (observed_theme 100)
                  (Some false)) dark).
  unfold fits. vm_compute. lia.
Defined.

(** [setTheme_consistent]: dark is set with one listener subscribed. *)
Lemma setTheme_consistent_witness :
  let w' := snd (setTheme THEME_KEY dark (observed_theme 100)) in
  fst (setTheme THEME_KEY dark (observed_theme 100)) = Normal tt
  /\ getCurrent w' = dark
  /\ dataTheme w' = Some dark
  /\ getSavedTheme THEME_KEY (localStorage w') = Some dark
  /\ trace w'
     = trace (observed_theme 100)
       ++ map (fun l => Called (lid l) dark) (listeners (observed_theme 100)).
Proof.
  apply (setTheme_consistent THEME_KEY dark (observed_theme 100)).
  - unfold fits. vm_compute. lia.
  - repeat constructor.
Defined.

(** [toggle_rejected] on an origin without room. *)
Lemma toggle_rejected_witness :
  let w := observed_theme 0 in
  fst (toggleTheme THEME_KEY w) = Throw QuotaExceededError
  /\ getCurrent (snd (toggleTheme THEME_KEY w)) <> getCurrent w
  /\ dataTheme (snd (toggleTheme THEME_KEY w))
     <> Some (getCurrent (snd (toggleTheme THEME_KEY w)))
  /\ dataTheme (snd (toggleTheme THEME_KEY w)) = dataTheme w
  /\ localStorage (snd (toggleTheme THEME_KEY w)) = localStorage w
  /\ trace (snd (toggleTheme THEME_KEY w)) = trace w.
Proof.
  apply (toggle_rejected THEME_KEY (observed_theme 0)).
  - unfold fits. vm_compute. lia.
  - reflexivity.
Defined.

(** [system_change_followed_once]: the system turns dark and then light
    again, with no theme saved at first. *)
Lemma system_change_followed_once_witness :
  let w1 := snd (systemChange THEME_KEY true (observed_theme 100)) in
  getCurrent w1 = dark
  /\ systemChange THEME_KEY false w1
     = (Normal tt, set_matchMedia (Some false) w1).
Proof.
  destruct (proj2 (system_change_followed_once THEME_KEY (observed_theme 100)
                     true)) as (Hdark & Hlater).
  - vm_compute. reflexivity.
  - unfold fits. vm_compute. lia.
  - split; [exact Hdark|apply Hlater].
Defined.

(** [theme_other_keys_untouched]: the favorites stay when the theme is
    set. *)
Lemma theme_other_keys_untouched_witness :
  getItem STORAGE_KEY
    (localStorage (snd (setTheme THEME_KEY dark (observed_theme 100))))
  = getItem STORAGE_KEY (localStorage (observed_theme 100)).
Proof.
  apply (theme_other_keys_untouched THEME_KEY STORAGE_KEY dark
           (observed_theme 100)).
  intros H. apply (f_equal length) in H. vm_compute in H. discriminate.
Defined.

End ThemeScenarios.

Module NotificationsScenarios.
Import Scenarios.
Import Notifications NotificationsSpec.

(** [one_toast_at_a_time]: of two notifications the second is on the
    page. *)
Lemma one_toast_at_a_time_witness :
  exists s,
    run toasts create = Some s
    /\ body s = [1%nat]
    /\ forall c, In c (body s) ->
         S c = length (elements s)
         /\ exists e, elements s !! c = Some e
                      /\ Some (textContent e) = Some (js "b").
Proof.
  eexists. split; [vm_compute; reflexivity|].
  split; [reflexivity|].
  apply (one_toast_at_a_time toasts). vm_compute. reflexivity.
Defined.

(** [toast_goes_away]: the second notification has its first timer
    pending. *)
Lemma toast_goes_away_witness :
  exists s,
    run toasts create = Some s
    /\ ((exists d, In (FadeOut 1 d) (timers s))
        \/ exists d, In (Remove 1 d) (timers s)).
Proof.
  eexists. split; [vm_compute; reflexivity|].
  apply (toast_goes_away toasts _ 1%nat).
  - vm_compute. reflexivity.
  - cbn. tauto.
Defined.

End NotificationsScenarios.

Module ApiScenarios.
Import Examples Scenarios.
Import Api ApiSpec.

(** [only_latest_call_reports]: the body of the second request arrives. *)
Lemma only_latest_call_reports_witness :
  exists s s',
    run two_calls (create [watcher 1] [reporter 1]) = Some s
    /\ step (SettleBody 1 (Json tokyo)) s = Some s'
    /\ exists n, controller s = Some n /\ ~ In n (aborted s)
                 /\ ((exists r, SettleBody 1 (Json tokyo) = SettleResponse n r)
                     \/ exists b, SettleBody 1 (Json tokyo) = SettleBody n b).
Proof.
  eexists. eexists. split; [vm_compute; reflexivity|].
  split; [vm_compute; reflexivity|].
  eapply (only_latest_call_reports [watcher 1] [reporter 1] two_calls
            (SettleBody 1 (Json tokyo))).
  - vm_compute. reflexivity.
  - vm_compute. reflexivity.
  - intros H. vm_compute in H. discriminate H.
Defined.

(** [cancel_silences]: cancel, and then the body of the second request. *)
Lemma cancel_silences_witness :
  exists s s',
    run two_calls (create [watcher 1] [reporter 1]) = Some s
    /\ run [SettleBody 1 (Json tokyo)] (cancel s) = Some s'
    /\ trace s' = trace s.
Proof.
  eexists. eexists. split; [vm_compute; reflexivity|].
  split; [vm_compute; reflexivity|].
  apply (cancel_silences [watcher 1] [reporter 1] two_calls
           [SettleBody 1 (Json tokyo)]).
  - vm_compute. reflexivity.
  - repeat constructor.
  - vm_compute. reflexivity.
Defined.

(** [latest_call_reports]: a third call, whose request fails. *)
Lemma latest_call_reports_witness :
  exists s s1,
    run two_calls (create [watcher 1] [reporter 1]) = Some s
    /\ settleResponse (controllers s) NetworkError (fetchRandomPost s) = Some s1
    /\ trace s1
       = trace s
         ++ map (fun l => ErrorCalled (elid l) (js "Erro ao buscar postagem"))
              [reporter 1].
Proof.
  eexists.
  assert (Hrun : run two_calls (create [watcher 1] [reporter 1]) = Some _)
    by (vm_compute; reflexivity).
  destruct (latest_call_reports [watcher 1] [reporter 1] two_calls _ tokyo 200
              Hrun) as (_ & _ & s1 & H1 & Ht).
  - repeat constructor.
  - repeat constructor.
  - exists s1. split; [exact Hrun|]. split; [exact H1|exact Ht].
Defined.

End ApiScenarios.

Module AppScenarios.
Import Examples Scenarios.
Import Favorites App AppSpec.

(** [save_button_saves_displayed]: the first request brings Tokyo. *)
Lemma save_button_saves_displayed_witness :
  exists s,
    run date foreign tokyo_fetched (started 1000) = Some s
    /\ postTitle (dom s) = Post.title tokyo
    /\ postId (dom s) = js "#" ++ id_string (Post.id tokyo).
Proof.
  eexists. split; [vm_compute; reflexivity|].
  apply (save_button_saves_displayed date foreign page (store 1000)
           tokyo_fetched).
  - vm_compute. reflexivity.
  - vm_compute. reflexivity.
  - reflexivity.
  - vm_compute. reflexivity.
Defined.

(** [page_shows_stored]: Tokyo is fetched, saved and removed again. *)
Lemma page_shows_stored_witness :
  exists s,
    run date foreign (tokyo_fetched ++ [ClickSave 100; ClickRemove 0])
      (started 1000) = Some s
    /\ exists l,
         in_sync date foreign s l
         /\ Safe.favorites l = true
         /\ (List.NoDup (map Favorite.id []) -> List.NoDup (map Favorite.id l)).
Proof.
  eexists. split; [vm_compute; reflexivity|].
  apply (page_shows_stored date foreign page (store 1000) []
           (tokyo_fetched ++ [ClickSave 100; ClickRemove 0])).
  - vm_compute. reflexivity.
  - reflexivity.
  - reflexivity.
  - vm_compute. reflexivity.
Defined.

(** [save_click]: Tokyo is saved on an origin with room, and on one
    without. *)
Lemma save_click_witness :
  (toast (onSaveFavorite date foreign 100 (tokyo_shown 1000)) = Some SAVED
   /\ in_sync date foreign (onSaveFavorite date foreign 100 (tokyo_shown 1000))
        [newFavorite tokyo 100])
  /\ (toast (onSaveFavorite date foreign 100 (tokyo_shown 0)) = Some SAVED
      /\ in_sync date foreign (onSaveFavorite date foreign 100 (tokyo_shown 0))
           []).
Proof.
  split.
  - destruct (save_click date foreign 100 (tokyo_shown 1000) [] tokyo)
      as (_ & Hnew).
    + repeat split; vm_compute; reflexivity.
    + reflexivity.
    + vm_compute. reflexivity.
    + reflexivity.
    + reflexivity.
    + destruct Hnew as (Htoast & Haccepted & _); [cbn; tauto|].
      split; [exact Htoast|]. apply Haccepted. unfold fits. vm_compute. lia.
  - destruct (save_click date foreign 100 (tokyo_shown 0) [] tokyo)
      as (_ & Hnew).
    + repeat split; vm_compute; reflexivity.
    + reflexivity.
    + vm_compute. reflexivity.
    + reflexivity.
    + reflexivity.
    + destruct Hnew as (Htoast & _ & Hrejected); [cbn; tauto|].
      split; [exact Htoast|]. apply Hrejected. unfold fits. vm_compute. lia.
Defined.

(** [remove_click]: the one item of the list is removed. *)
Lemma remove_click_witness :
  exists s',
    step date foreign (ClickRemove 0) tokyo_saved = Some s'
    /\ toast s' = Some REMOVED
    /\ in_sync date foreign s' [].
Proof.
  destruct (remove_click date foreign 0 tokyo_saved [newFavorite tokyo 100]
              (newFavorite tokyo 100))
    as (s' & Hstep & Htoast & Haccepted & _).
  - repeat split; vm_compute; reflexivity.
  - reflexivity.
  - repeat constructor. cbn. tauto.
  - reflexivity.
  - exists s'. split; [exact Hstep|]. split; [exact Htoast|].
    apply Haccepted. unfold fits. vm_compute. lia.
Defined.

(** [stale_answer_ignored]: the request of the start fails after a click
    on the fetch button. *)
Lemma stale_answer_ignored_witness :
  exists s s',
    run date foreign [ClickFetch] (started 1000) = Some s
    /\ step date foreign (ResponseArrives 0 Api.NetworkError) s = Some s'
    /\ dom s' = dom s /\ currentPost s' = currentPost s
    /\ console s' = console s
    /\ favoritesService s' = favoritesService s
    /\ notificationService s' = notificationService s.
Proof.
  eexists. eexists. split; [vm_compute; reflexivity|].
  split; [vm_compute; reflexivity|].
  apply (stale_answer_ignored date foreign page (store 1000) [ClickFetch]
           _ _ 0%nat (ResponseArrives 0 Api.NetworkError)).
  - vm_compute. reflexivity.
  - intros H. vm_compute in H. discriminate H.
  - left. eexists. reflexivity.
  - vm_compute. reflexivity.
Defined.

(** [answer_ends_loading]: Tokyo arrives after a click on the fetch
    button. *)
Lemma answer_ends_loading_witness :
  exists s s',
    run date foreign [ClickFetch; ResponseArrives 1 (Api.Status true 200)]
      (started 1000) = Some s
    /\ step date foreign (BodyArrives 1 (Api.Json tokyo)) s = Some s'
    /\ currentPost s' = Some tokyo
    /\ postTitle (dom s') = Post.title tokyo
    /\ postId (dom s') = js "#" ++ id_string (Post.id tokyo)
    /\ fetchPostBtn_disabled (dom s') = false
    /\ saveFavoriteBtn_disabled (dom s') = false.
Proof.
  eexists. eexists. split; [vm_compute; reflexivity|].
  split; [vm_compute; reflexivity|].
  refine (proj1 (answer_ends_loading date foreign page (store 1000)
                   [ClickFetch; ResponseArrives 1 (Api.Status true 200)]
                   _ _ 1%nat (BodyArrives 1 (Api.Json tokyo)) _ _ _)
            tokyo eq_refl eq_refl).
  - vm_compute. reflexivity.
  - vm_compute. reflexivity.
  - vm_compute. reflexivity.
Defined.

End AppScenarios.
